(** * Media Slicer: the segmentation pipeline of [MediaSlicer.jsx]

    A shallow embedding of [handleProcess] and of the segment-length input
    handler of [src/components/MediaSlicer.jsx], together with the JavaScript
    primitives they rely on (string methods, truthiness, [parseInt], Numbers
    as IEEE 754 doubles, the conversion of thrown values to text).

    The media engine (FFmpeg.wasm), the archive writer (JSZip) and the browser
    are external collaborators.  The engine is modelled as a store of named
    byte buffers whose operations may reject; which call rejects, and with
    which value, is fixed by an [Env] record that every general theorem
    quantifies over. *)

From Stdlib Require Import String Ascii List ZArith QArith Bool Lia Arith.
From Stdlib Require Import DecimalString Decimal DecimalNat DecimalZ DecimalFacts.
From Stdlib Require Import DecimalPos.
From Stdlib Require Import Sorting.Sorted Sorting.Permutation Qround Qpower Qabs Lqa.
Import ListNotations.

Local Close Scope Q_scope.
Local Open Scope list_scope.
Local Open Scope string_scope.

(* ===================================================================== *)
(** * JavaScript strings *)
(* ===================================================================== *)

Module JsString.

Definition chars (s : string) : list ascii := list_ascii_of_string s.
Definition ofChars (l : list ascii) : string := string_of_list_ascii l.

(** A string as the sequence of its UTF-16 code units.  What a user types
    is taken in this form, since [parseInt] tells white space from other
    characters over the whole range of code units. *)
Definition units (s : string) : list N := map N_of_ascii (chars s).

(** [s.startsWith(p)] *)
Definition startsWith (p s : string) : bool := String.prefix p s.

(** [s.endsWith(p)] *)
Definition endsWith (p s : string) : bool :=
  (String.length p <=? String.length s)%nat &&
  String.eqb (String.substring (String.length s - String.length p)
                               (String.length p) s) p.

(** [s.lastIndexOf(c)] for a one-character needle: the greatest index
    holding [c], or [-1]. *)
Fixpoint lastIndexFrom (c : ascii) (l : list ascii) (i : Z) (found : Z) : Z :=
  match l with
  | [] => found
  | x :: r => lastIndexFrom c r (i + 1) (if Ascii.eqb x c then i else found)
  end.

Definition lastIndexOf (c : ascii) (s : string) : Z :=
  lastIndexFrom c (chars s) 0 (-1).

(** [s.substring(0, e)]: a negative end is clamped to 0, an end past the
    string to its length. *)
Definition substring0 (e : Z) (s : string) : string :=
  String.substring 0 (Z.to_nat e) s.

(** [String(n)] for a natural number: its decimal digits. *)
Definition ofNat (n : nat) : string := NilEmpty.string_of_uint (Nat.to_uint n).

(** [String(z)] for an integer. *)
Definition ofZ (z : Z) : string := NilZero.string_of_int (Z.to_int z).

(** [s.padStart(w, c)] with a one-character filler. *)
Definition padStart (w : nat) (c : ascii) (s : string) : string :=
  ofChars (repeat c (w - String.length s)) ++ s.

(** Truthiness of a string: every string but the empty one. *)
Definition nonEmpty (s : string) : bool := negb (String.eqb s "").

(** [a || b] on strings. *)
Definition orElse (a b : string) : string := if nonEmpty a then a else b.

End JsString.

(* ===================================================================== *)
(** * JavaScript numbers *)
(* ===================================================================== *)

(** The Number values met here: the integers, [NaN] and the infinities.
    [Finite z] is the double nearest to [z]; the values that are stored or
    printed come out of [Double.ofZ], which makes [z] that double itself.
    The two zeros are not told apart: both are falsy, both print as [0] and
    neither is greater than 0. *)
Inductive Num : Type :=
| Finite (z : Z)
| PlusInfinity
| MinusInfinity
| NaN.

(** IEEE 754 binary64.  The finite doubles are rationals; [round] takes a
    rational to the nearest of them, ties to the even significand, with 53
    bits of precision and the least exponent of the format (denormals
    included).  The exponent is not bounded above: a result of magnitude
    [2^1024] or more stands for an overflow, which [ofZ] turns into an
    infinity; no such value comes up in the arithmetic on progress, which
    stays below 100. *)
Module Double.

Definition pow2 (e : Z) : Q := Qpower 2 e.

(** The integer part of the binary logarithm of a positive rational. *)
Definition ilog2 (q : Q) : Z :=
  let k := (Z.log2 (Qnum q) - Z.log2 (Zpos (Qden q)))%Z in
  if Qle_bool (pow2 k) q then k else (k - 1)%Z.

(** The nearest integer, a tie going to the even one. *)
Definition nearestEven (x : Q) : Z :=
  let f := Qfloor x in
  match (x - inject_Z f ?= 1 # 2)%Q with
  | Lt => f
  | Gt => (f + 1)%Z
  | Eq => if Z.even f then f else (f + 1)%Z
  end.

(** The exponent of the unit in the last place of the double nearest to
    [q]. *)
Definition exponentOf (q : Q) : Z := Z.max (ilog2 (Qabs q) - 52) (-1074).

(** The double nearest to a rational given in lowest terms. *)
Definition nearest (r : Q) : Q :=
  if Qeq_bool r 0 then 0%Q
  else let e := exponentOf r in
       (inject_Z (nearestEven (r / pow2 e)) * pow2 e)%Q.

(** The double nearest to [q], in lowest terms: equal rationals round to
    the same value. *)
Definition round (q : Q) : Q := Qred (nearest (Qred q)).

(** The Number value of a mathematical integer. *)
Definition ofZ (z : Z) : Num :=
  let r := round (inject_Z z) in
  if Qle_bool (pow2 1024) (Qabs r)
  then (if (z <? 0)%Z then MinusInfinity else PlusInfinity)
  else Finite (Qfloor r).

Definition sameNum (a b : Num) : bool :=
  match a, b with
  | Finite x, Finite y => (x =? y)%Z
  | PlusInfinity, PlusInfinity | MinusInfinity, MinusInfinity | NaN, NaN => true
  | _, _ => false
  end.

(** ToBoolean *)
Definition truthy (n : Num) : bool :=
  match n with
  | Finite z => negb (z =? 0)%Z
  | PlusInfinity | MinusInfinity => true
  | NaN => false
  end.

(** [a || b] *)
Definition orElse (a b : Num) : Num := if truthy a then a else b.

(** [n <= 0] *)
Definition leZero (n : Num) : bool :=
  match n with
  | Finite z => (z <=? 0)%Z
  | MinusInfinity => true
  | PlusInfinity | NaN => false
  end.

(** [Number::toString] in radix 10 looks for the decimal numeral with the
    fewest significant digits that denotes the double, and among those for
    the one nearest to it.  With [k] significant digits the candidates next
    to the positive integer [a] of [digits] digits are [a] cut to [k] digits
    and the numeral after it. *)
Fixpoint shortestFrom (a : Z) (digits fuel k : nat) : Z :=
  match fuel with
  | O => a
  | S fuel' =>
      let p := (10 ^ Z.of_nat (digits - k))%Z in
      let lo := (a / p * p)%Z in
      let hi := (lo + p)%Z in
      match sameNum (ofZ lo) (ofZ a), sameNum (ofZ hi) (ofZ a) with
      | true, true =>
          if (a - lo <? hi - a)%Z then lo
          else if (hi - a <? a - lo)%Z then hi
          else if Z.even (lo / p) then lo else hi
      | true, false => lo
      | false, true => hi
      | false, false => shortestFrom a digits fuel' (S k)
      end
  end.

Definition shortest (a : Z) : Z :=
  let digits := String.length (JsString.ofZ a) in
  shortestFrom a digits digits 1.

Fixpoint dropZeros (l : list ascii) : list ascii :=
  match l with
  | "0"%char :: r => dropZeros r
  | _ => l
  end.

(** The numeral is written out in full up to 21 digits, and with an
    exponent beyond. *)
Definition printPositive (v : Z) : string :=
  let ds := JsString.ofZ v in
  let n := String.length ds in
  if (n <=? 21)%nat then ds
  else match List.rev (dropZeros (List.rev (JsString.chars ds))) with
       | [] => ds
       | [d] => JsString.ofChars [d] ++ "e+" ++ JsString.ofNat (n - 1)
       | d :: rest =>
           JsString.ofChars [d] ++ "." ++ JsString.ofChars rest
           ++ "e+" ++ JsString.ofNat (n - 1)
       end.

(** [n.toString()], [String(n)] *)
Definition toString (n : Num) : string :=
  match n with
  | NaN => "NaN"
  | PlusInfinity => "Infinity"
  | MinusInfinity => "-Infinity"
  | Finite z =>
      match ofZ z with
      | Finite Z0 => "0"
      | Finite (Zpos p) => printPositive (shortest (Zpos p))
      | Finite (Zneg p) => "-" ++ printPositive (shortest (Zpos p))
      | PlusInfinity => "Infinity"
      | MinusInfinity => "-Infinity"
      | NaN => "NaN"
      end
  end.

End Double.

Arguments Double.toString : simpl never.
Arguments Double.ofZ : simpl never.
Arguments Double.round : simpl never.

(* ===================================================================== *)
(** * JavaScript values, as far as a thrown value can be observed *)
(* ===================================================================== *)

(** The shapes a rejected engine promise may carry.  Objects are cut down to
    what [handleProcess] looks at: the [message] property ([JUndefined] when
    there is none), and whether [toString] is inherited from
    [Object.prototype] ([JObject]), from [Error.prototype] ([JError]) or
    missing altogether, as for [Object.create(null)] ([JBare]).

    [JOther] stands for every other value: a number with a fraction, a
    BigInt, an object with accessors or methods of its own, a proxy.  Such
    a value is given by all the code can observe of it: its truthiness, how
    the expression of lines 105 and 173 comes out on it, and how a template
    literal interpolates it.  Either of the two may yield any text or throw
    any value. *)
Inductive JsValue : Type :=
| JUndefined
| JNull
| JBool (b : bool)
| JNum (n : Num)
| JStr (s : string)
| JSymbol (description : string)
| JError (name message : string)
| JObject (message : JsValue)
| JBare (message : JsValue)
| JOther (truthy : bool) (described : Described) (interpolated : Interpolated)

(** How [v?.message || v?.toString() || String(v)] followed by the
    interpolation of its value comes out: as a text, as nothing truthy, which
    leaves the choice to the fallback literal, or as a throw. *)
with Described : Type :=
| Describes (text : string)
| Undescribed
| DescribeThrows (e : JsValue)

(** How [`${v}`] comes out. *)
with Interpolated : Type :=
| Interpolates (text : string)
| InterpolateThrows (e : JsValue).

(** The outcome of evaluating an expression: a value, or a thrown value. *)
Inductive Completion (A : Type) : Type :=
| Normal (a : A)
| Throw (e : JsValue).
Arguments Normal {A} a.
Arguments Throw {A} e.

Module Js.

(** ToBoolean *)
Definition truthy (v : JsValue) : bool :=
  match v with
  | JUndefined | JNull => false
  | JBool b => b
  | JNum n => Double.truthy n
  | JStr s => JsString.nonEmpty s
  | JSymbol _ | JError _ _ | JObject _ | JBare _ => true
  | JOther t _ _ => t
  end.

(** [Error.prototype.toString] *)
Definition errorToString (name message : string) : string :=
  if String.eqb name "" then message
  else if String.eqb message "" then name
  else name ++ ": " ++ message.

(** [v?.message] *)
Definition optMessage (v : JsValue) : JsValue :=
  match v with
  | JError _ m => JStr m
  | JObject m | JBare m => m
  | _ => JUndefined
  end.

(** [String(v)] *)
Definition toStringCall (v : JsValue) : Completion string :=
  match v with
  | JUndefined => Normal "undefined"
  | JNull => Normal "null"
  | JBool true => Normal "true"
  | JBool false => Normal "false"
  | JNum n => Normal (Double.toString n)
  | JStr s => Normal s
  | JSymbol d => Normal ("Symbol(" ++ d ++ ")")
  | JError n m => Normal (errorToString n m)
  | JObject _ => Normal "[object Object]"
  | JBare _ => Throw (JError "TypeError" "Cannot convert object to primitive value")
  | JOther _ _ i =>
      match i with
      | Interpolates s => Normal s
      | InterpolateThrows e => Throw e
      end
  end.

(** The conversion a template literal applies to an interpolated value:
    as [String(v)], except that a symbol is refused. *)
Definition interpolate (v : JsValue) : Completion string :=
  match v with
  | JSymbol _ => Throw (JError "TypeError" "Cannot convert a Symbol value to a string")
  | _ => toStringCall v
  end.

(** [err?.message || err?.toString() || String(err) || fallback], the
    expression of lines 105 and 173, evaluated left to right on a value of
    one of the named shapes.  [v?.toString()] short-circuits on [null] and
    [undefined] only; on an object without a [toString] method the call
    itself throws, with a message that names the callee as the source
    spells it ([expr] is [execErr] at line 105 and [err] at line 173).  The
    texts of the [TypeError]s are those of V8. *)
Definition optToString (expr : string) (v : JsValue) : Completion JsValue :=
  match v with
  | JUndefined | JNull => Normal JUndefined
  | JBare _ => Throw (JError "TypeError" (expr ++ "?.toString is not a function"))
  | _ => match toStringCall v with
         | Normal s => Normal (JStr s)
         | Throw e => Throw e
         end
  end.

Definition describe (expr fallback : string) (err : JsValue) : Completion JsValue :=
  match err with
  | JOther _ d _ =>
      match d with
      | Describes s => Normal (JStr s)
      | Undescribed => Normal (JStr fallback)
      | DescribeThrows e => Throw e
      end
  | _ =>
      let m := optMessage err in
      if truthy m then Normal m else
      match optToString expr err with
      | Throw e => Throw e
      | Normal t =>
          if truthy t then Normal t else
          match toStringCall err with
          | Throw e => Throw e
          | Normal s => if JsString.nonEmpty s then Normal (JStr s)
                        else Normal (JStr fallback)
          end
      end
  end.

(** [`${prefix}${describe(err)}`] *)
Definition describeWith (expr prefix fallback : string) (err : JsValue)
  : Completion string :=
  match describe expr fallback err with
  | Throw e => Throw e
  | Normal m =>
      match interpolate m with
      | Throw e => Throw e
      | Normal s => Normal (prefix ++ s)
      end
  end.

(** StrWhiteSpaceChar: the white space and the line terminators of the
    language, by code unit. *)
Definition isWhite (u : N) : bool :=
  ((u =? 9) || (u =? 10) || (u =? 11) || (u =? 12) || (u =? 13) || (u =? 32) ||
   (u =? 160) || (u =? 5760) || ((8192 <=? u) && (u <=? 8202)) ||
   (u =? 8232) || (u =? 8233) || (u =? 8239) || (u =? 8287) ||
   (u =? 12288) || (u =? 65279))%N.

Definition digitOf (radix : Z) (u : N) : option Z :=
  let n := Z.of_N u in
  let d := if ((48 <=? n) && (n <=? 57))%Z then (n - 48)%Z
           else if ((97 <=? n) && (n <=? 122))%Z then (n - 87)%Z
           else if ((65 <=? n) && (n <=? 90))%Z then (n - 55)%Z
           else 36%Z in
  if (d <? radix)%Z then Some d else None.

Fixpoint skipWhite (l : list N) : list N :=
  match l with
  | u :: r => if isWhite u then skipWhite r else l
  | [] => []
  end.

(** Reads digits onto the accumulator, which is [None] until a digit was
    seen. *)
Fixpoint readDigits (radix : Z) (l : list N) (acc : option Z) : option Z :=
  match l with
  | u :: r =>
      match digitOf radix u with
      | Some d =>
          readDigits radix r
            (Some (radix * match acc with Some a => a | None => 0 end + d)%Z)
      | None => acc
      end
  | [] => acc
  end.

Definition readUnsigned (l : list N) : option Z :=
  match l with
  | 48%N :: 120%N :: r | 48%N :: 88%N :: r => readDigits 16 r None
  | _ => readDigits 10 l None
  end.

(** [parseInt(s)] with no radix argument: leading white space is skipped,
    an optional sign is read, a [0x] or [0X] prefix selects base 16, then
    the longest run of digits of the base is read; no digit gives [NaN].
    The result is the Number value of the integer read: beyond [2^53] the
    nearest double, and an infinity past the largest one. *)
Definition parseInt (s : list N) : Num :=
  let l := skipWhite s in
  let (sign, body) :=
    match l with
    | 45%N :: r => ((-1)%Z, r)
    | 43%N :: r => (1%Z, r)
    | _ => (1%Z, l)
    end in
  match readUnsigned body with
  | Some n => Double.ofZ (sign * n)
  | None => NaN
  end.

End Js.

(* ===================================================================== *)
(** * The helpers of [utils/fileUtils] *)
(* ===================================================================== *)

(** [handleProcess] imports [sanitizeFilename] and [getFileExtension] from
    [utils/fileUtils], whose text is not part of the sources at hand.  The
    orchestrator below takes both as parameters; this module gives the
    functions the specification describes. *)
Module FileUtils.

(** The safe set [[A-Za-z0-9._-]]. *)
Definition isSafeChar (c : ascii) : bool :=
  let n := nat_of_ascii c in
  ((65 <=? n) && (n <=? 90) || (97 <=? n) && (n <=? 122) ||
   (48 <=? n) && (n <=? 57) ||
   (n =? 46) || (n =? 95) || (n =? 45))%nat.

(** White space, as the language has it. *)
Definition isWhiteChar (c : ascii) : bool := Js.isWhite (N_of_ascii c).

(** Modelled from the spec: the pass of [sanitizeFilename] over a part of
    the name.  A character of the safe set is kept, a run of white space
    becomes one underscore, any other character is dropped without ending
    the run it stands in. *)
Fixpoint clean (inWhite : bool) (l : list ascii) : list ascii :=
  match l with
  | [] => []
  | c :: r =>
      if isWhiteChar c
      then (if inWhite then clean true r else "_"%char :: clean true r)
      else if isSafeChar c then c :: clean false r
      else clean inWhite r
  end.

(** Modelled from the spec: section 3 allows no leading dots. *)
Fixpoint dropDots (l : list ascii) : list ascii :=
  match l with
  | "."%char :: r => dropDots r
  | _ => l
  end.

(** The name cut at its final dot: what stands before the dot and what
    stands after it; [None] for a name without a dot. *)
Fixpoint splitLastDot (l : list ascii) : option (list ascii * list ascii) :=
  match l with
  | [] => None
  | c :: r =>
      match splitLastDot r with
      | Some (pre, ext) => Some (c :: pre, ext)
      | None => if Ascii.eqb c "."%char then Some ([], r) else None
      end
  end.

Section Sanitizer.

(** The fixed fallback base name; the specification does not name it. *)
Variable fallback : string.

(** Modelled from the spec: the base of the sanitized name.  What stands
    before the extension is cleaned and loses its leading dots; when nothing
    is left, the fallback base name takes its place. *)
Definition safeBase (l : list ascii) : list ascii :=
  match dropDots (clean false l) with
  | [] => JsString.chars fallback
  | b => b
  end.

(** Modelled from the spec: [sanitizeFilename] of [utils/fileUtils] is
    missing.  Sections 3 and 4.1 ask for this: every character outside the
    safe set is stripped, white space is collapsed and replaced with an
    underscore, the final dot-delimited extension is retained, the result
    has no leading dots, and an empty result is replaced by a fallback base
    name.  The name is cut at its final dot.  The extension is cleaned as
    the rest is, since the result may hold characters of the safe set only,
    so that it stays as it is when it is made of such characters. *)
Definition sanitize (rawName : string) : string :=
  match splitLastDot (JsString.chars rawName) with
  | Some (pre, ext) =>
      JsString.ofChars (safeBase pre ++ "."%char :: clean false ext)
  | None => JsString.ofChars (safeBase (JsString.chars rawName))
  end.

End Sanitizer.

(** Does the name hold a dot? *)
Definition hasExtension (name : string) : bool :=
  (0 <=? JsString.lastIndexOf "."%char name)%Z.

(** Modelled from the spec: [getFileExtension] of [utils/fileUtils] is
    missing.  The extension is the substring after the final dot, and is
    empty when the name has no dot. *)
Definition extensionOf (name : string) : string :=
  let i := JsString.lastIndexOf "."%char name in
  if (0 <=? i)%Z
  then JsString.ofChars (skipn (Z.to_nat i + 1) (JsString.chars name))
  else "".

(** Every character of the string is in the safe set. *)
Definition allSafe (s : string) : bool :=
  forallb isSafeChar (JsString.chars s).

End FileUtils.

(* ===================================================================== *)
(** * The world [handleProcess] runs in *)
(* ===================================================================== *)

Definition bytes := list Byte.byte.

(** The selected [File]: its raw name and its content. *)
Record File := mkFile { fileName : string; fileContent : bytes }.

(** The engine's virtual filesystem: named byte buffers, in listing order. *)
Definition Vfs := list (string * bytes).

(** The archive under construction: entry names with their bytes. *)
Definition Zip := list (string * bytes).

(** The calls issued to the engine, as the engine sees them. *)
Inductive EngineCall : Type :=
| WriteFile (name : string)
| Exec (argv : list string)
| ListDir (path : string)
| ReadFile (name : string)
| DeleteFile (name : string).

(** What the collaborators do during one run.  Each field but the last
    belongs to one call site of [handleProcess]: [Some e] makes the call
    reject with [e].  [execOutputs] are the entries the segmentation command
    has written by the time it settles, whether it resolves or rejects.
    [missingEntry] is what the engine rejects with when it is asked to read
    or to delete an entry that it does not hold. *)
Record Env := mkEnv {
  arrayBufferFault : option JsValue;           (* line 80 *)
  writeFileFault : option JsValue;             (* line 81 *)
  execOutputs : list (string * bytes);         (* line 94 *)
  execFault : option JsValue;                  (* line 94 *)
  listDirFault : option JsValue;               (* line 113 *)
  readFileFault : string -> option JsValue;    (* line 130 *)
  generateFault : option JsValue;              (* line 141 *)
  deleteFileFault : string -> option JsValue;  (* lines 153, 155 *)
  cleanupListDirFault : option JsValue;        (* line 181 *)
  cleanupDeleteFault : string -> option JsValue; (* line 184 *)
  missingEntry : JsValue
}.

(** The component's React state, the hook's values, the engine's filesystem,
    and what an observer of the run can record. *)
Record World := mkWorld {
  file : option File;
  segmentLength : Num;
  isProcessing : bool;
  progress : Q;                       (* a double, as the rational it denotes *)
  status : string;
  error : string;
  isLoaded : bool;
  ffmpeg : bool;                      (* the hook's handle is not null *)
  vfs : Vfs;
  engineCalls : list EngineCall;      (* in order of issue *)
  progressLog : list Q;               (* every [setProgress] value, in order *)
  downloads : list (string * Zip);    (* archives handed to the browser *)
  resetTimers : nat                   (* pending [setTimeout] resets *)
}.

Definition setIsProcessing (b : bool) (w : World) : World :=
  mkWorld (file w) (segmentLength w) b (progress w) (status w) (error w)
          (isLoaded w) (ffmpeg w) (vfs w) (engineCalls w) (progressLog w)
          (downloads w) (resetTimers w).

Definition setProgress (p : Q) (w : World) : World :=
  mkWorld (file w) (segmentLength w) (isProcessing w) p (status w) (error w)
          (isLoaded w) (ffmpeg w) (vfs w) (engineCalls w) (progressLog w ++ [p])
          (downloads w) (resetTimers w).

Definition setStatus (s : string) (w : World) : World :=
  mkWorld (file w) (segmentLength w) (isProcessing w) (progress w) s (error w)
          (isLoaded w) (ffmpeg w) (vfs w) (engineCalls w) (progressLog w)
          (downloads w) (resetTimers w).

Definition setError (s : string) (w : World) : World :=
  mkWorld (file w) (segmentLength w) (isProcessing w) (progress w) (status w) s
          (isLoaded w) (ffmpeg w) (vfs w) (engineCalls w) (progressLog w)
          (downloads w) (resetTimers w).

Definition setSegmentLength (n : Num) (w : World) : World :=
  mkWorld (file w) n (isProcessing w) (progress w) (status w) (error w)
          (isLoaded w) (ffmpeg w) (vfs w) (engineCalls w) (progressLog w)
          (downloads w) (resetTimers w).

Definition withVfs (f : Vfs -> Vfs) (w : World) : World :=
  mkWorld (file w) (segmentLength w) (isProcessing w) (progress w) (status w)
          (error w) (isLoaded w) (ffmpeg w) (f (vfs w)) (engineCalls w)
          (progressLog w) (downloads w) (resetTimers w).

Definition logCall (c : EngineCall) (w : World) : World :=
  mkWorld (file w) (segmentLength w) (isProcessing w) (progress w) (status w)
          (error w) (isLoaded w) (ffmpeg w) (vfs w) (engineCalls w ++ [c])
          (progressLog w) (downloads w) (resetTimers w).

Definition addDownload (name : string) (z : Zip) (w : World) : World :=
  mkWorld (file w) (segmentLength w) (isProcessing w) (progress w) (status w)
          (error w) (isLoaded w) (ffmpeg w) (vfs w) (engineCalls w)
          (progressLog w) (downloads w ++ [(name, z)]) (resetTimers w).

Definition addResetTimer (w : World) : World :=
  mkWorld (file w) (segmentLength w) (isProcessing w) (progress w) (status w)
          (error w) (isLoaded w) (ffmpeg w) (vfs w) (engineCalls w)
          (progressLog w) (downloads w) (S (resetTimers w)).

(* ===================================================================== *)
(** * Asynchronous code as a state and exception monad *)
(* ===================================================================== *)

(** A run is sequential (one continuation, suspended at each [await]), so an
    [async] body is a function of the world that ends in a value or in a
    thrown value. *)
Definition M (A : Type) : Type := World -> Completion A * World.

Definition ret {A} (a : A) : M A := fun w => (Normal a, w).

Definition bind {A B} (m : M A) (k : A -> M B) : M B :=
  fun w => match m w with
           | (Normal a, w') => k a w'
           | (Throw e, w') => (Throw e, w')
           end.

Definition throw {A} (e : JsValue) : M A := fun w => (Throw e, w).

(** A state update that cannot fail. *)
Definition act (f : World -> World) : M unit := fun w => (Normal tt, f w).

(** Lifts the completion of a pure expression. *)
Definition lift {A} (c : Completion A) : M A := fun w => (c, w).

(** [try { m } catch (e) { h e }] *)
Definition tryCatch {A} (m : M A) (h : JsValue -> M A) : M A :=
  fun w => match m w with
           | (Normal a, w') => (Normal a, w')
           | (Throw e, w') => h e w'
           end.

(** [try { m } finally { f }]; a throw of [f] replaces the completion. *)
Definition tryFinally {A} (m : M A) (f : M unit) : M A :=
  fun w => match m w with
           | (c, w') =>
               match f w' with
               | (Normal _, w'') => (c, w'')
               | (Throw e, w'') => (Throw e, w'')
               end
           end.

Declare Scope js_scope.
Delimit Scope js_scope with js.
Notation "x <- m ;; k" := (bind m (fun x => k))
  (at level 61, m at next level, right associativity) : js_scope.
Notation "m ;; k" := (bind m (fun _ => k))
  (at level 61, right associativity) : js_scope.

(** [for (const x of l) { body x }] *)
Fixpoint forEach {X} (l : list X) (body : X -> M unit) : M unit :=
  match l with
  | [] => ret tt
  | x :: r => bind (body x) (fun _ => forEach r body)
  end.

(* ===================================================================== *)
(** * The engine *)
(* ===================================================================== *)

Module Engine.

Definition names (fs : Vfs) : list string := map fst fs.

Definition remove (name : string) (fs : Vfs) : Vfs :=
  filter (fun e => negb (String.eqb (fst e) name)) fs.

Definition put (name : string) (data : bytes) (fs : Vfs) : Vfs :=
  (remove name fs ++ [(name, data)])%list.

Definition putAll (entries : list (string * bytes)) (fs : Vfs) : Vfs :=
  fold_left (fun acc e => put (fst e) (snd e) acc) entries fs.

Fixpoint get (name : string) (fs : Vfs) : option bytes :=
  match fs with
  | [] => None
  | (n, d) :: r => if String.eqb n name then Some d else get name r
  end.

(** A call that rejects leaves the filesystem as it was. *)
Definition call {A} (c : EngineCall) (fault : option JsValue)
           (effect : Vfs -> Vfs) (result : Vfs -> Completion A) : M A :=
  fun w =>
    let w1 := logCall c w in
    match fault with
    | Some e => (Throw e, w1)
    | None => (result (vfs w1), withVfs effect w1)
    end.

Definition writeFile (fault : option JsValue) (name : string) (data : bytes)
  : M unit :=
  call (WriteFile name) fault (put name data) (fun _ => Normal tt).

(** The command may have written entries before it rejects. *)
Definition exec (outputs : list (string * bytes)) (fault : option JsValue)
           (argv : list string) : M unit :=
  fun w =>
    let w1 := withVfs (putAll outputs) (logCall (Exec argv) w) in
    match fault with
    | Some e => (Throw e, w1)
    | None => (Normal tt, w1)
    end.

Definition listDir (fault : option JsValue) (path : string)
  : M (list string) :=
  call (ListDir path) fault (fun fs => fs) (fun fs => Normal (names fs)).

(** [readFile] rejects with [missing] when there is no entry of that
    name. *)
Definition readFile (missing : JsValue) (fault : option JsValue)
           (name : string) : M bytes :=
  call (ReadFile name) fault (fun fs => fs)
       (fun fs => match get name fs with
                  | Some d => Normal d
                  | None => Throw missing
                  end).

(** [deleteFile] rejects, as [readFile] does, when there is no entry of
    that name. *)
Definition deleteFile (missing : JsValue) (fault : option JsValue)
           (name : string) : M unit :=
  call (DeleteFile name) fault (remove name)
       (fun fs => match get name fs with
                  | Some _ => Normal tt
                  | None => Throw missing
                  end).

End Engine.

(** [zip.file(name, data)]: adds the entry, replacing one of the same name. *)
Definition zipFile (name : string) (data : bytes) (z : Zip) : Zip :=
  Engine.put name data z.

(* ===================================================================== *)
(** * [handleProcess] *)
(* ===================================================================== *)

(** The way a call of [handleProcess] returns: from one of the precondition
    checks (lines 51-64), from the end of the [try] block (line 168), or from
    the end of the [catch] block (line 190).  A call that ends with a thrown
    value instead is a rejected promise. *)
Inductive Exit : Type := Rejected | Succeeded | Failed.

Local Open Scope js_scope.

Section Orchestrator.

(** The two helpers imported from [utils/fileUtils]. *)
Variable sanitizeFilename : string -> string.
Variable getFileExtension : string -> string.

(** [a.localeCompare(b)] *)
Variable localeCompare : string -> string -> comparison.

Variable env : Env.

(** [names.sort((a, b) => a.localeCompare(b))], a stable sort. *)
Fixpoint insertByName (x : string) (l : list string) : list string :=
  match l with
  | [] => [x]
  | y :: r =>
      match localeCompare x y with
      | Gt => y :: insertByName x r
      | _ => x :: l
      end
  end.

Definition sortByName (l : list string) : list string :=
  fold_right insertByName [] l.

(** Line 75 *)
Definition baseNameOf (sanitized : string) : string :=
  JsString.orElse
    (JsString.substring0 (JsString.lastIndexOf "."%char sanitized) sanitized)
    sanitized.

(** Lines 74 and 85 *)
Definition outputExtOf (sanitized : string) : string :=
  JsString.orElse (getFileExtension sanitized) "mp4".

(** Line 86 *)
Definition outputPattern (outputExt : string) : string :=
  "out_%02d." ++ outputExt.

(** Lines 94-102 *)
Definition execArgv (sanitized : string) (segLen : Num) (outputExt : string)
  : list string :=
  [ "-i"; sanitized; "-f"; "segment"; "-segment_time"; Double.toString segLen;
    "-c"; "copy"; "-reset_timestamps"; "1"; "-segment_format";
    (if String.eqb outputExt "mp3" || String.eqb outputExt "wav"
     then outputExt else "mp4");
    outputPattern outputExt ].

(** Line 115 *)
Definition isOutputFile (outputExt : string) (name : string) : bool :=
  JsString.startsWith "out_" name && JsString.endsWith ("." ++ outputExt) name.

(** Lines 114-116 *)
Definition outputFilesOf (outputExt : string) (files : list string)
  : list string :=
  sortByName (filter (isOutputFile outputExt) files).

(** Line 131 *)
Definition segmentNumber (i : nat) : string :=
  JsString.padStart 2 "0"%char (JsString.ofNat (i + 1)).

(** Line 132 *)
Definition zipFileName (baseName outputExt : string) (i : nat) : string :=
  baseName ++ "_segment_" ++ segmentNumber i ++ "." ++ outputExt.

(** Line 134: [70 + (i + 1) / outputFiles.length * 20].  The operands are
    doubles and so is the result of each of the three operations, taken
    from left to right as JavaScript groups them: the quotient is rounded,
    then its product with 20, then the sum.  [i + 1] and the length are
    array indices, which are doubles as they stand.  The loop evaluates the
    expression for [i] below [total] only, so never with [total = 0]. *)
Definition archivingProgress (i total : nat) : Q :=
  Double.round
    (70 + Double.round
            (Double.round (inject_Z (Z.of_nat (i + 1)) / inject_Z (Z.of_nat total))
             * 20))%Q.

(** Lines 128-135: the loop from index [i] over the entries still to be
    read. *)
Fixpoint archiveLoop (baseName outputExt : string) (total i : nat)
         (rest : list string) (zip : Zip) : M Zip :=
  match rest with
  | [] => ret zip
  | outputFile :: rest' =>
      data <- Engine.readFile (missingEntry env) (readFileFault env outputFile) outputFile ;;
      let zip' := zipFile (zipFileName baseName outputExt i) data zip in
      act (setProgress (archivingProgress i total)) ;;
      archiveLoop baseName outputExt total (S i) rest' zip'
  end.

Definition noOutputMessage : string :=
  "No output files were created. The file might be too short or there was an error.".

(** Lines 72-168: the [try] block. *)
Definition processBody (f : File) (segLen : Num) : M Exit :=
  let sanitized := sanitizeFilename (fileName f) in
  let baseName := baseNameOf sanitized in
  act (setStatus "Loading file into FFmpeg...") ;;
  fileData <- lift (match arrayBufferFault env with
                    | Some e => Throw e
                    | None => Normal (fileContent f)
                    end) ;;
  Engine.writeFile (writeFileFault env) sanitized fileData ;;
  act (setProgress 10) ;;
  let outputExt := outputExtOf sanitized in
  act (setStatus "Slicing media file...") ;;
  tryCatch
    (Engine.exec (execOutputs env) (execFault env)
                 (execArgv sanitized segLen outputExt))
    (fun execErr =>
       msg <- lift (Js.describeWith "execErr" "FFmpeg processing failed: "
                                    "FFmpeg execution failed" execErr) ;;
       throw (JError "Error" msg)) ;;
  act (setProgress 60) ;;
  act (setStatus "Collecting segments...") ;;
  files <- Engine.listDir (listDirFault env) "/" ;;
  let outputFiles := outputFilesOf outputExt files in
  match outputFiles with
  | [] => throw (JError "Error" noOutputMessage)
  | _ :: _ =>
      let total := List.length outputFiles in
      act (setProgress 70) ;;
      act (setStatus ("Creating ZIP file with " ++ JsString.ofNat total
                      ++ " segments...")) ;;
      zip <- archiveLoop baseName outputExt total 0 outputFiles [] ;;
      act (setProgress 95) ;;
      act (setStatus "Finalizing ZIP file...") ;;
      lift (match generateFault env with
            | Some e => Throw e
            | None => Normal tt
            end) ;;
      act (addDownload (baseName ++ "_segments.zip") zip) ;;
      forEach outputFiles
              (fun outputFile =>
                 Engine.deleteFile (missingEntry env) (deleteFileFault env outputFile) outputFile) ;;
      Engine.deleteFile (missingEntry env) (deleteFileFault env sanitized) sanitized ;;
      act (setProgress 100) ;;
      act (setStatus ("Success! Created " ++ JsString.ofNat total
                      ++ " segments. Download started.")) ;;
      act addResetTimer ;;
      ret Succeeded
  end.

(** Line 183 *)
Definition isResidue (sanitized name : string) : bool :=
  String.eqb name sanitized || JsString.startsWith "out_" name.

(** Lines 178-190: best-effort cleanup; nothing it throws gets out. *)
Definition cleanup (f : File) (handle : bool) : M unit :=
  tryCatch
    (if handle then
       let sanitized := sanitizeFilename (fileName f) in
       files <- Engine.listDir (cleanupListDirFault env) "/" ;;
       forEach files
               (fun name =>
                  if isResidue sanitized name
                  then tryCatch (Engine.deleteFile (missingEntry env) (cleanupDeleteFault env name) name)
                                (fun _ => ret tt)
                  else ret tt)
     else ret tt)
    (fun cleanupErr => ret tt).

(** Lines 170-190: the [catch] block. *)
Definition handleFailure (f : File) (handle : bool) (err : JsValue) : M Exit :=
  shown <- lift (Js.describeWith "err" "Error processing file: "
                                 "Unknown error occurred" err) ;;
  act (setError shown) ;;
  act (setStatus "") ;;
  cleanup f handle ;;
  ret Failed.

(** Lines 50-194 *)
Definition handleProcess : M Exit :=
  fun w =>
    match file w with
    | None =>
        (act (setError "Please select a file and wait for FFmpeg to load.") ;;
         ret Rejected) w
    | Some f =>
        if negb (isLoaded w) then
          (act (setError "Please select a file and wait for FFmpeg to load.") ;;
           ret Rejected) w
        else if negb (ffmpeg w) then
          (act (setError "FFmpeg is not initialized. Please wait for it to load.") ;;
           ret Rejected) w
        else if Double.leZero (segmentLength w) then
          (act (setError "Segment length must be greater than 0.") ;;
           ret Rejected) w
        else
          (act (setIsProcessing true) ;;
           act (setError "") ;;
           act (setProgress 0) ;;
           act (setStatus "Processing... This may take a while for large files.") ;;
           tryFinally
             (tryCatch (processBody f (segmentLength w))
                       (handleFailure f (ffmpeg w)))
             (act (setIsProcessing false))) w
    end.

End Orchestrator.

(** Line 267: [onChange={(e) => setSegmentLength(parseInt(e.target.value) || 30)}];
    the value stored. *)
Definition segmentLengthOf (value : list N) : Num :=
  Double.orElse (Js.parseInt value) (Finite 30).

Definition handleSegmentLengthChange (value : list N) : M unit :=
  act (setSegmentLength (segmentLengthOf value)).

(** The component's state passes the checks of lines 51-64, with [f] the
    selected file. *)
Definition accepted (w : World) (f : File) : Prop :=
  file w = Some f /\ isLoaded w = true /\ ffmpeg w = true /\
  Double.leZero (segmentLength w) = false.

(* ===================================================================== *)
(** * Describing a run *)
(* ===================================================================== *)

(** Reads a decimal numeral, leading zeros allowed. *)
Definition ordinalOf (s : string) : option nat :=
  option_map Nat.of_uint (NilEmpty.uint_of_string s).

(** Where the [try] block of [handleProcess] stopped: at the call that
    rejected, at the check for outputs, or at its end. *)
Inductive Stage : Type :=
| Loading              (* [file.arrayBuffer()] rejected, line 80 *)
| Writing              (* [writeFile] rejected, line 81 *)
| Segmenting           (* [exec] rejected, line 94 *)
| Listing              (* [listDir] rejected, line 113 *)
| Collecting           (* no qualifying output, line 118 *)
| Archiving (j : nat)  (* the read of output [j] (from 0) rejected, line 130 *)
| Finalizing           (* [generateAsync] rejected, line 141 *)
| Releasing            (* a deletion after the download rejected, lines 153-155 *)
| Completed.           (* line 168 *)

(** The progress values of the archiving loop after its first [j] entries. *)
Definition archivingValues (total j : nat) : list Q :=
  map (fun i => archivingProgress i total) (seq 0 j).

(** The progress values the [try] block emits before it stops at a stage. *)
Definition emittedIn (total : nat) (s : Stage) : list Q :=
  match s with
  | Loading | Writing => []
  | Segmenting => [10%Q]
  | Listing | Collecting => [10%Q; 60%Q]
  | Archiving j => [10%Q; 60%Q; 70%Q] ++ archivingValues total j
  | Finalizing | Releasing =>
      [10%Q; 60%Q; 70%Q] ++ archivingValues total total ++ [95%Q]
  | Completed =>
      [10%Q; 60%Q; 70%Q] ++ archivingValues total total ++ [95%Q; 100%Q]
  end%list.

(** The bytes the engine holds under a name. *)
Definition dataOf (fs : Vfs) (name : string) : bytes :=
  match Engine.get name fs with Some d => d | None => [] end.

(** The archive built from the sorted outputs [outs] held in [fs]: entry
    [i] (from 0) is named after [i] and holds the bytes of output [i]. *)
Definition archiveOf (baseName outputExt : string) (fs : Vfs)
           (outs : list string) : Zip :=
  combine (map (zipFileName baseName outputExt) (seq 0 (List.length outs)))
          (map (dataOf fs) outs).

(** The archives handed to the browser by a [try] block that stops at a
    stage. *)
Definition deliveredIn (baseName outputExt : string) (fs : Vfs)
           (outs : list string) (s : Stage) : list (string * Zip) :=
  match s with
  | Releasing | Completed =>
      [(baseName ++ "_segments.zip", archiveOf baseName outputExt fs outs)]
  | _ => []
  end.

(** The value the [catch] of lines 103-107 throws for a rejection [v] of
    [exec]: the wrapping [Error], or what the wrapping itself threw. *)
Definition segmentationError (v : JsValue) : JsValue :=
  match Js.describeWith "execErr" "FFmpeg processing failed: "
                        "FFmpeg execution failed" v with
  | Normal msg => JError "Error" msg
  | Throw e => e
  end.

(** The engine's filesystem once [exec] has settled, in a run started on
    [fs] with the input written under [sanitized]. *)
Definition afterExec (env : Env) (sanitized : string) (f : File) (fs : Vfs) : Vfs :=
  Engine.putAll (execOutputs env) (Engine.put sanitized (fileContent f) fs).

(** The values a template literal can interpolate. *)
Definition interpolable (v : JsValue) : bool :=
  match v with
  | JSymbol _ | JBare _ => false
  | JOther _ _ (InterpolateThrows _) => false
  | _ => true
  end.

(** The thrown values for which the expression of lines 105 and 173 does
    not itself throw: of the named shapes, everything but an object without
    [toString] whose [message] is falsy and an object whose truthy
    [message] cannot be interpolated; of the others, those that are not
    given as throwing. *)
Definition describable (v : JsValue) : bool :=
  match v with
  | JBare m => Js.truthy m && interpolable m
  | JObject m => negb (Js.truthy m) || interpolable m
  | JOther _ (DescribeThrows _) _ => false
  | _ => true
  end.

(** A value of one of the named shapes, with nothing of [JOther] in it. *)
Fixpoint named (v : JsValue) : bool :=
  match v with
  | JObject m | JBare m => named m
  | JOther _ _ _ => false
  | _ => true
  end.

(** The calls before a stage went through. *)
Definition passed (env : Env) (s : Stage) : Prop :=
  match s with
  | Loading => True
  | Writing => arrayBufferFault env = None
  | Segmenting => arrayBufferFault env = None /\ writeFileFault env = None
  | Listing =>
      arrayBufferFault env = None /\ writeFileFault env = None /\
      execFault env = None
  | Collecting | Archiving _ | Finalizing =>
      arrayBufferFault env = None /\ writeFileFault env = None /\
      execFault env = None /\ listDirFault env = None
  | Releasing | Completed =>
      arrayBufferFault env = None /\ writeFileFault env = None /\
      execFault env = None /\ listDirFault env = None /\
      generateFault env = None
  end.

(** How the completion of the [try] block relates to the stage it stopped
    at.  A deletion after the download is rejected by the engine on its own
    account only when the entry is gone already, that is, when the same name
    comes twice among the outputs followed by the input. *)
Definition stoppedAt (env : Env) (sanitized : string) (outs : list string)
           (s : Stage) (c : Completion Exit) : Prop :=
  match s with
  | Loading => exists e, c = Throw e /\ arrayBufferFault env = Some e
  | Writing => exists e, c = Throw e /\ writeFileFault env = Some e
  | Segmenting =>
      exists v, c = Throw (segmentationError v) /\ execFault env = Some v
  | Listing => exists e, c = Throw e /\ listDirFault env = Some e
  | Collecting => c = Throw (JError "Error" noOutputMessage) /\ outs = []
  | Archiving j =>
      exists e o, c = Throw e /\ nth_error outs j = Some o /\
                  readFileFault env o = Some e
  | Finalizing => exists e, c = Throw e /\ generateFault env = Some e /\ outs <> []
  | Releasing =>
      exists e o, c = Throw e /\ (In o outs \/ o = sanitized) /\
                  (deleteFileFault env o = Some e \/
                   e = missingEntry env /\ deleteFileFault env o = None /\
                   ~ NoDup (outs ++ [sanitized])%list) /\
                  outs <> []
  | Completed =>
      c = Normal Succeeded /\ outs <> [] /\ NoDup (outs ++ [sanitized])%list
  end.

(** Code-unit order, which [localeCompare] agrees with on names that differ
    in decimal digits only. *)
Definition codeUnitCompare (a b : string) : comparison := String.compare a b.

(* ===================================================================== *)
(** * The rest of the component *)
(* ===================================================================== *)

(** What [handleFileSelect] reads of the chosen [File]: besides the name and
    the content, its MIME type and its size in bytes. *)
Record Picked := mkPicked {
  pickedFile : File;
  pickedType : string;
  pickedSize : Z
}.

(** Line 40: 500MB. *)
Definition maxSize : Z := 500 * 1024 * 1024.

Definition setFile (f : option File) (w : World) : World :=
  mkWorld f (segmentLength w) (isProcessing w) (progress w) (status w) (error w)
          (isLoaded w) (ffmpeg w) (vfs w) (engineCalls w) (progressLog w)
          (downloads w) (resetTimers w).

Definition dropResetTimer (w : World) : World :=
  mkWorld (file w) (segmentLength w) (isProcessing w) (progress w) (status w)
          (error w) (isLoaded w) (ffmpeg w) (vfs w) (engineCalls w)
          (progressLog w) (downloads w) (Nat.pred (resetTimers w)).

Section FileSelect.

(** [isSupportedMediaFile] of [utils/fileUtils]. *)
Variable isSupportedMediaFile : Picked -> bool.

(** Lines 27-48; [selected] is [e.target.files[0]]. *)
Definition handleFileSelect (selected : option Picked) : M unit :=
  match selected with
  | None => ret tt
  | Some selectedFile =>
      act (setError "") ;;
      if negb (isSupportedMediaFile selectedFile) then
        act (setError "Unsupported file format. Please select a media file (mp4, mp3, mov, wav, etc.)")
      else if (maxSize <? pickedSize selectedFile)%Z then
        act (setError "File size too large. Maximum size is 500MB for browser processing.")
      else
        act (setFile (Some (pickedFile selectedFile))) ;;
        act (setStatus "File selected. Ready to process.")
  end.

End FileSelect.

(** Lines 161-168: the callback scheduled by a run that succeeded. *)
Definition resetAfterSuccess : M unit :=
  act (setFile None) ;;
  act (setProgress 0) ;;
  act (setStatus "").

(** A pending reset fires; nothing happens when none is pending. *)
Definition fireResetTimer : M unit :=
  fun w =>
    match resetTimers w with
    | O => (Normal tt, w)
    | S _ => resetAfterSuccess (dropResetTimer w)
    end.

(** Line 307: [disabled={!file || isProcessing || !isLoaded}]. *)
Definition processDisabled (w : World) : bool :=
  match file w with None => true | Some _ => false end
  || isProcessing w || negb (isLoaded w).

(** Line 298: [Math.round(progress)].  [q] is the rational that the double
    held in [progress] denotes.  [Math.round] gives the integer nearest to
    its argument, the greater one in a tie, which is the floor of
    [q + 1/2] computed exactly; no rounding is involved, since for a double
    this integer is a double itself. *)
Definition roundedProgress (q : Q) : Z := Qfloor (q + (1 # 2))%Q.

(** Line 282: the status alert is rendered when [status && !error]. *)
Definition statusShown (w : World) : bool :=
  JsString.nonEmpty (status w) && negb (JsString.nonEmpty (error w)).

(** What a user can do to the component, and the timer. *)
Inductive Event : Type :=
| PickFile (selected : option Picked)
| TypeLength (value : list N)
| ClickProcess (env : Env)
| ResetTimerFires.

Section Component.

Variable isSupportedMediaFile : Picked -> bool.
Variable sanitizeFilename : string -> string.
Variable getFileExtension : string -> string.
Variable localeCompare : string -> string -> comparison.

(** The state after an event.  A click on a disabled button does nothing; a
    run that ends in a rejected promise leaves the state it reached. *)
Definition react (e : Event) (w : World) : World :=
  match e with
  | PickFile selected => snd (handleFileSelect isSupportedMediaFile selected w)
  | TypeLength value => snd (handleSegmentLengthChange value w)
  | ClickProcess env =>
      if processDisabled w then w
      else snd (handleProcess sanitizeFilename getFileExtension localeCompare env w)
  | ResetTimerFires => snd (fireResetTimer w)
  end.

Definition reactAll (events : list Event) (w : World) : World :=
  fold_left (fun acc e => react e acc) events w.

End Component.

(** What holds between any two events, after [events]. *)
Definition settled (isSupportedMediaFile : Picked -> bool)
           (events : list Event) (w : World) : Prop :=
  segmentLength w <> Finite 0 /\
  isProcessing w = false /\
  forall f, file w = Some f ->
            exists p, In (PickFile (Some p)) events /\ pickedFile p = f /\
                      isSupportedMediaFile p = true /\
                      (pickedSize p <= 524288000)%Z.

(** Lines 14-19: the initial state of the component, on an engine whose
    filesystem holds [fs]. *)
Definition mounted (loaded handle : bool) (fs : Vfs) : World :=
  mkWorld None (Finite 30) false 0 "" "" loaded handle fs [] [] [] 0.

(** A step keeps [R] between the world it starts in and the one it ends
    in, however it completes. *)
Definition preserves {A} (R : World -> World -> Prop) (m : M A) : Prop :=
  forall w c w', m w = (c, w') -> R w w'.

(** The selection, the segment length and the hook's values. *)
Definition sameInputs (w w' : World) : Prop :=
  file w' = file w /\ segmentLength w' = segmentLength w /\
  isLoaded w' = isLoaded w /\ ffmpeg w' = ffmpeg w.

(** The names a run may touch in the engine's filesystem: the sanitized
    input, the names with the output prefix, and what the command writes. *)
Definition touched (env : Env) (sanitized : string) (name : string) : bool :=
  isResidue sanitized name
  || existsb (String.eqb name) (map fst (execOutputs env)).

(** Two filesystems agree on every name outside [touched]. *)
Definition agreeOutside (env : Env) (sanitized : string) (w w' : World) : Prop :=
  forall name, touched env sanitized name = false ->
               Engine.get name (vfs w') = Engine.get name (vfs w).


(** The engine calls the [try] block issues before it stops at a stage;
    [k] counts the deletions that went through before the one that was
    rejected in [Releasing]. *)
Definition issuedIn (sanitized : string) (argv : list string)
           (outs : list string) (s : Stage) (k : nat) : list EngineCall :=
  match s with
  | Loading => []
  | Writing => [WriteFile sanitized]
  | Segmenting => [WriteFile sanitized; Exec argv]
  | Listing | Collecting => [WriteFile sanitized; Exec argv; ListDir "/"]
  | Archiving j =>
      [WriteFile sanitized; Exec argv; ListDir "/"]
      ++ map ReadFile (firstn (S j) outs)
  | Finalizing =>
      [WriteFile sanitized; Exec argv; ListDir "/"] ++ map ReadFile outs
  | Releasing =>
      [WriteFile sanitized; Exec argv; ListDir "/"] ++ map ReadFile outs
      ++ map DeleteFile (firstn (S k) (outs ++ [sanitized]))
  | Completed =>
      [WriteFile sanitized; Exec argv; ListDir "/"] ++ map ReadFile outs
      ++ map DeleteFile (outs ++ [sanitized])
  end%list.

(** The engine calls of the cleanup on a filesystem that lists [files]. *)
Definition cleanupCalls (env : Env) (sanitized : string) (files : list string)
  : list EngineCall :=
  ListDir "/" ::
  match cleanupListDirFault env with
  | Some _ => []
  | None => map DeleteFile (filter (isResidue sanitized) files)
  end.

Definition isExec (c : EngineCall) : bool :=
  match c with Exec _ => true | _ => false end.

Definition isWrite (c : EngineCall) : bool :=
  match c with WriteFile _ => true | _ => false end.

(** The environment a build of [vite.config.js] reads. *)
Record ProcessEnv := mkProcessEnv {
  VITE_BASE_PATH : option string;
  NODE_ENV : option string
}.

(** [getBase] of [vite.config.js]. *)
Definition getBase (e : ProcessEnv) : string :=
  match VITE_BASE_PATH e with
  | Some p =>
      if JsString.nonEmpty p then p
      else match NODE_ENV e with
           | Some mode => if String.eqb mode "production" then "/media-slicer/" else "/"
           | None => "/"
           end
  | None =>
      match NODE_ENV e with
      | Some mode => if String.eqb mode "production" then "/media-slicer/" else "/"
      | None => "/"
      end
  end.

(** The earlier form of the same setting:
    [VITE_BASE_PATH || (NODE_ENV === 'production' ? '/media-slicer/' : '/')]. *)
Definition baseOf (e : ProcessEnv) : string :=
  JsString.orElse
    (match VITE_BASE_PATH e with Some p => p | None => "" end)
    (if match NODE_ENV e with
        | Some mode => String.eqb mode "production"
        | None => false
        end
     then "/media-slicer/" else "/").

(* ===================================================================== *)
(** * Proof machinery *)
(* ===================================================================== *)

(** Projections of a world built by the setters. *)
Ltac wproj :=
  unfold setIsProcessing, setProgress, setStatus, setError, setSegmentLength,
         withVfs, logCall, addDownload, addResetTimer;
  cbn [file segmentLength isProcessing progress status error isLoaded ffmpeg
       vfs engineCalls progressLog downloads resetTimers].

Ltac munfold :=
  unfold bind, ret, throw, act, lift, tryCatch, tryFinally,
         Engine.writeFile, Engine.exec, Engine.listDir, Engine.readFile,
         Engine.deleteFile, Engine.call in *.

(** What a step leaves alone: the fields of the world that only
    [handleProcess] itself writes. *)
Definition sameDisplay (w w' : World) : Prop :=
  file w' = file w /\ segmentLength w' = segmentLength w /\
  isProcessing w' = isProcessing w /\ progress w' = progress w /\
  status w' = status w /\ error w' = error w /\
  isLoaded w' = isLoaded w /\ ffmpeg w' = ffmpeg w /\
  progressLog w' = progressLog w /\ downloads w' = downloads w /\
  resetTimers w' = resetTimers w.

(* ===================================================================== *)
(** * Fixtures for concrete runs *)
(* ===================================================================== *)

Module Fixture.

(** What the fixtures' engine rejects with for an entry it does not hold. *)
Definition fsError : JsValue := JError "ErrnoError" "FS error".

(** Collaborators that never reject; the command writes [outputs]. *)
Definition quiet (outputs : list (string * bytes)) : Env :=
  mkEnv None None outputs None None (fun _ => None) None (fun _ => None)
        None (fun _ => None) fsError.

(** The command rejects with [e] after writing [outputs]. *)
Definition execRejects (e : JsValue) (outputs : list (string * bytes)) : Env :=
  mkEnv None None outputs (Some e) None (fun _ => None) None (fun _ => None)
        None (fun _ => None) fsError.

(** As [execRejects], and during cleanup the deletion of [stuck] rejects. *)
Definition execRejectsCleanupStuck (e : JsValue) (stuck : string)
           (outputs : list (string * bytes)) : Env :=
  mkEnv None None outputs (Some e) None (fun _ => None) None (fun _ => None)
        None (fun n => if String.eqb n stuck then Some (JError "Error" "busy")
                       else None)
        fsError.

(** Nothing rejects, except the cleanup deletion of [stuck]. *)
Definition cleanupStuck (stuck : string) (outputs : list (string * bytes)) : Env :=
  mkEnv None None outputs None None (fun _ => None) None (fun _ => None)
        None (fun n => if String.eqb n stuck then Some (JError "Error" "busy")
                       else None)
        fsError.

(** Nothing rejects, except the deletion of [stuck] after the download. *)
Definition deleteStuck (stuck : string) (outputs : list (string * bytes)) : Env :=
  mkEnv None None outputs None None (fun _ => None) None
        (fun n => if String.eqb n stuck then Some (JError "Error" "busy")
                  else None)
        None (fun _ => None) fsError.

(** A loaded component with [name] selected, an empty engine filesystem and
    nothing observed yet. *)
Definition ready (name : string) (content : bytes) (segLen : Z) : World :=
  mkWorld (Some (mkFile name content)) (Finite segLen) false 0
          "File selected. Ready to process." "" true true [] [] [] [] 0.

Definition seg (n : N) : bytes :=
  match Byte.of_N n with Some b => [b] | None => [] end.

(** The run with the helpers of [FileUtils] and code-unit order. *)
Definition run (env : Env) (w : World) : Completion Exit * World :=
  handleProcess (FileUtils.sanitize "file") FileUtils.extensionOf
                codeUnitCompare env w.

End Fixture.

(* ===================================================================== *)
(** * The primitives at work *)
(* ===================================================================== *)

Example parseInt_examples :
  Js.parseInt (JsString.units "42") = Finite 42 /\
  Js.parseInt (JsString.units "  -7px") = Finite (-7) /\
  Js.parseInt (JsString.units "0x1f") = Finite 31 /\
  Js.parseInt (JsString.units "") = NaN /\
  Js.parseInt (JsString.units ".5") = NaN /\
  Js.parseInt (JsString.units "1e3") = Finite 1 /\
  Js.parseInt (JsString.units "-0") = Finite 0 /\
  Js.parseInt (JsString.units "0x") = NaN /\
  Js.parseInt (JsString.units "+ 5") = NaN /\
  Js.parseInt [160%N; 8195%N; 65279%N; 52%N; 50%N] = Finite 42 /\
  Js.parseInt (JsString.units "9007199254740993") = Finite 9007199254740992.
Proof. vm_compute. repeat split. Qed.

(** Doubles at work: rounding to the nearest with ties to even, the
    overflow to an infinity, and the shortest numeral that reads back. *)
Example double_examples :
  Double.ofZ (2 ^ 53 + 1) = Finite (2 ^ 53) /\
  Double.ofZ (2 ^ 53 + 3) = Finite (2 ^ 53 + 4) /\
  Double.ofZ (2 ^ 1024 - 2 ^ 970 - 1) = Finite (2 ^ 1024 - 2 ^ 971) /\
  Double.ofZ (2 ^ 1024 - 2 ^ 970) = PlusInfinity /\
  Double.ofZ (- 10 ^ 400) = MinusInfinity /\
  map Double.toString
      [Finite 30; Finite (-45); Finite 0; Finite (10 ^ 20); Finite (10 ^ 21);
       Finite (2 ^ 63); Finite (2 ^ 70); Finite (10 ^ 23); Finite (2 ^ 1023);
       Finite (10 ^ 400); NaN]
  = ["30"; "-45"; "0"; "100000000000000000000"; "1e+21";
     "9223372036854776000"; "1.1805916207174113e+21"; "1e+23";
     "8.98846567431158e+307"; "Infinity"; "NaN"] /\
  (Double.round (1 # 10) == 3602879701896397 # 36028797018963968)%Q /\
  (Double.round (230 # 3) == 5394937053620907 # 70368744177664)%Q.
Proof. vm_compute. repeat split. Qed.

Example sanitize_examples :
  FileUtils.sanitize "file" "My Clip (2024).mov" = "My_Clip_2024.mov" /\
  FileUtils.sanitize "file" "(((" = "file" /\
  FileUtils.sanitize "file" "a 	 b.mp3" = "a_b.mp3" /\
  FileUtils.sanitize "file" "../../etc/passwd" = "file.etcpasswd" /\
  FileUtils.sanitize "file" ".mp4" = "file.mp4" /\
  FileUtils.sanitize "file" "..hidden" = "file.hidden" /\
  FileUtils.sanitize "file" "video.mp4 (1)" = "video.mp4_1" /\
  FileUtils.sanitize "file" "archive.tar.gz" = "archive.tar.gz" /\
  FileUtils.sanitize "file" "noext" = "noext" /\
  FileUtils.extensionOf "My_Clip_2024.mov" = "mov" /\
  FileUtils.extensionOf "noext" = "" /\
  FileUtils.extensionOf "a.tar.gz" = "gz".
Proof. repeat split. Qed.

(* ===================================================================== *)
(** * Facts about strings *)
(* ===================================================================== *)

Lemma chars_append (a b : string) :
  JsString.chars (a ++ b) = (JsString.chars a ++ JsString.chars b)%list.
Proof.
  induction a as [|c a IH]; simpl; [reflexivity|].
  unfold JsString.chars in *. simpl. now rewrite IH.
Qed.

Lemma chars_ofChars (l : list ascii) : JsString.chars (JsString.ofChars l) = l.
Proof. apply list_ascii_of_string_of_list_ascii. Qed.

Lemma ofChars_chars (s : string) : JsString.ofChars (JsString.chars s) = s.
Proof. apply string_of_list_ascii_of_string. Qed.

Lemma chars_inj (a b : string) : JsString.chars a = JsString.chars b -> a = b.
Proof.
  intros H. rewrite <- (ofChars_chars a), <- (ofChars_chars b). now rewrite H.
Qed.

Lemma length_chars (s : string) : List.length (JsString.chars s) = String.length s.
Proof.
  induction s as [|c s IH]; simpl; [reflexivity|].
  unfold JsString.chars in *. simpl. now rewrite IH.
Qed.

Lemma length_append (a b : string) :
  String.length (a ++ b) = String.length a + String.length b.
Proof.
  rewrite <- !length_chars, chars_append. apply List.length_app.
Qed.

Lemma append_inv_head (p a b : string) : p ++ a = p ++ b -> a = b.
Proof.
  intros H. apply chars_inj. apply (f_equal JsString.chars) in H.
  rewrite !chars_append in H. now apply app_inv_head in H.
Qed.

Lemma append_inv_tail (a b t : string) : a ++ t = b ++ t -> a = b.
Proof.
  intros H. apply chars_inj. apply (f_equal JsString.chars) in H.
  rewrite !chars_append in H. now apply app_inv_tail in H.
Qed.

Lemma nonEmpty_true (s : string) : JsString.nonEmpty s = true <-> s <> "".
Proof.
  unfold JsString.nonEmpty. rewrite negb_true_iff. apply String.eqb_neq.
Qed.

Lemma nonEmpty_false (s : string) : JsString.nonEmpty s = false <-> s = "".
Proof.
  unfold JsString.nonEmpty. rewrite negb_false_iff. apply String.eqb_eq.
Qed.

(** The last index of [c] in [pre ++ c :: ext] when [c] is not in [ext]. *)
Lemma lastIndexFrom_none c l i found :
  ~ In c l -> JsString.lastIndexFrom c l i found = found.
Proof.
  revert i found. induction l as [|x l IH]; intros i found Hn; simpl; [reflexivity|].
  rewrite IH by (intros Hin; apply Hn; now right).
  destruct (Ascii.eqb_spec x c) as [->|]; [|reflexivity].
  exfalso. apply Hn. now left.
Qed.

Lemma lastIndexFrom_split c pre ext i found :
  ~ In c ext ->
  JsString.lastIndexFrom c (pre ++ c :: ext) i found
  = (i + Z.of_nat (List.length pre))%Z.
Proof.
  revert i found. induction pre as [|x pre IH]; intros i found Hn; simpl.
  - rewrite Ascii.eqb_refl, lastIndexFrom_none by assumption. lia.
  - rewrite IH by assumption. lia.
Qed.

Lemma lastIndexFrom_bounds c l i found :
  (found < i)%Z ->
  JsString.lastIndexFrom c l i found = found /\ ~ In c l \/
  (i <= JsString.lastIndexFrom c l i found < i + Z.of_nat (List.length l))%Z.
Proof.
  revert i found. induction l as [|x l IH]; intros i found Hlt; simpl.
  - left. split; [reflexivity | intros []].
  - destruct (Ascii.eqb_spec x c) as [->|Hne].
    + right. destruct (IH (i + 1)%Z i ltac:(lia)) as [[-> _]|H]; lia.
    + destruct (IH (i + 1)%Z found ltac:(lia)) as [[-> Hn]|H].
      * left. split; [reflexivity|]. intros [E|Hin]; [now apply Hne | now apply Hn].
      * right. lia.
Qed.

(** A name with a dot splits at its last dot. *)
Lemma last_dot_split (c : ascii) (l : list ascii) :
  In c l -> exists pre ext, l = (pre ++ c :: ext)%list /\ ~ In c ext.
Proof.
  induction l as [|x l IH]; intros Hin; [destruct Hin|].
  destruct (in_dec ascii_dec c l) as [Hl|Hl].
  - destruct (IH Hl) as (pre & ext & -> & Hn).
    exists (x :: pre), ext. now split.
  - destruct Hin as [->|Hin]; [|contradiction].
    exists [], l. now split.
Qed.

(* ===================================================================== *)
(** * The filename sanitizer *)
(* ===================================================================== *)

Section SanitizerFacts.

Import FileUtils.

Lemma safe_not_white (c : ascii) :
  isSafeChar c = true -> isWhiteChar c = false.
Proof.
  destruct c as [[] [] [] [] [] [] [] []]; vm_compute; congruence.
Qed.

Lemma underscore_safe : isSafeChar "_"%char = true.
Proof. reflexivity. Qed.

Lemma clean_safe (l : list ascii) :
  forall b, forallb isSafeChar (clean b l) = true.
Proof.
  induction l as [|c l IH]; intros b; simpl; [reflexivity|].
  destruct (isWhiteChar c).
  - destruct b; simpl; now rewrite ?IH.
  - destruct (isSafeChar c) eqn:E; simpl; now rewrite ?E, ?IH.
Qed.

Lemma clean_fixes_safe (l : list ascii) :
  forallb isSafeChar l = true -> forall b, clean b l = l.
Proof.
  induction l as [|c l IH]; simpl; [reflexivity|].
  intros H b. apply andb_true_iff in H as [Hc Hl].
  rewrite (safe_not_white c Hc), Hc. now rewrite IH.
Qed.

Lemma clean_no_dot (ext : list ascii) :
  ~ In "."%char ext -> forall b, ~ In "."%char (clean b ext).
Proof.
  induction ext as [|c ext IH]; intros Hn b; simpl; [tauto|].
  assert (Hc : c <> "."%char) by (intros ->; apply Hn; now left).
  assert (He : ~ In "."%char ext) by (intros H; apply Hn; now right).
  destruct (isWhiteChar c).
  - destruct b; simpl; [now apply IH|].
    intros [E|H]; [discriminate | now apply (IH He true)].
  - destruct (isSafeChar c); simpl; [|now apply IH].
    intros [E|H]; [now apply Hc | now apply (IH He false)].
Qed.

Lemma dropDots_cons (c : ascii) (l : list ascii) :
  dropDots (c :: l) = if Ascii.eqb c "."%char then dropDots l else c :: l.
Proof. destruct c as [[] [] [] [] [] [] [] []]; reflexivity. Qed.

Lemma dropDots_suffix (l : list ascii) :
  exists dots, l = (dots ++ dropDots l)%list /\
               forall c, In c dots -> c = "."%char.
Proof.
  induction l as [|x l (dots & E & Hd)]; [exists []; now split|].
  rewrite dropDots_cons. destruct (Ascii.eqb_spec x "."%char) as [->|Hne].
  - exists ("."%char :: dots). simpl. split; [now rewrite <- E|].
    intros c [<-|Hc]; [reflexivity | now apply Hd].
  - exists []. split; [reflexivity | intros c []].
Qed.

Lemma dropDots_safe (l : list ascii) :
  forallb isSafeChar l = true -> forallb isSafeChar (dropDots l) = true.
Proof.
  intros H. destruct (dropDots_suffix l) as (dots & E & _).
  rewrite E, forallb_app in H. now apply andb_true_iff in H.
Qed.

Lemma dropDots_head (l : list ascii) :
  match dropDots l with
  | c :: _ => c <> "."%char
  | [] => True
  end.
Proof.
  induction l as [|x l IH]; [exact I|].
  rewrite dropDots_cons. destruct (Ascii.eqb_spec x "."%char); assumption.
Qed.

Lemma dropDots_fixed (l : list ascii) :
  match l with c :: _ => c <> "."%char | [] => True end -> dropDots l = l.
Proof.
  destruct l as [|x l]; [reflexivity|]. intros Hne. rewrite dropDots_cons.
  destruct (Ascii.eqb_spec x "."%char); [contradiction | reflexivity].
Qed.

Lemma startsWith_dot (l : list ascii) :
  JsString.startsWith "." (JsString.ofChars l) = true <->
  exists r, l = "."%char :: r.
Proof.
  unfold JsString.startsWith, JsString.ofChars. destruct l as [|c l].
  - split; [discriminate | intros [r H]; discriminate].
  - change (String.prefix "." (string_of_list_ascii (c :: l)))
      with (if ascii_dec "."%char c
            then String.prefix "" (string_of_list_ascii l) else false).
    destruct (ascii_dec "."%char c) as [<-|Hne].
    + split; [intros _; now exists l
             | intros _; now destruct (string_of_list_ascii l)].
    + split; [discriminate | intros [r H]; congruence].
Qed.

Lemma hasExtension_iff (s : string) :
  hasExtension s = true <-> In "."%char (JsString.chars s).
Proof.
  unfold hasExtension, JsString.lastIndexOf. split.
  - intros H. apply Z.leb_le in H.
    destruct (lastIndexFrom_bounds "."%char (JsString.chars s) 0 (-1) ltac:(lia))
      as [[E _]|_]; [lia|].
    destruct (in_dec ascii_dec "."%char (JsString.chars s)) as [Hin|Hn]; [assumption|].
    rewrite lastIndexFrom_none in H by assumption. lia.
  - intros Hin. destruct (last_dot_split _ _ Hin) as (pre & ext & E & Hn).
    rewrite E, lastIndexFrom_split by assumption. apply Z.leb_le. lia.
Qed.

Lemma extensionOf_split (pre ext : list ascii) :
  ~ In "."%char ext ->
  extensionOf (JsString.ofChars (pre ++ "."%char :: ext)) = JsString.ofChars ext.
Proof.
  intros Hn. unfold extensionOf, JsString.lastIndexOf.
  rewrite chars_ofChars, lastIndexFrom_split by assumption.
  replace (0 <=? 0 + Z.of_nat (List.length pre))%Z with true
    by (symmetry; apply Z.leb_le; lia).
  f_equal.
  replace (Z.to_nat (0 + Z.of_nat (List.length pre)) + 1)
    with (List.length pre + 1) by lia.
  rewrite skipn_app.
  replace (List.length pre + 1 - List.length pre) with 1 by lia.
  rewrite skipn_all2 by lia. reflexivity.
Qed.

Lemma extensionOf_safe (s : string) :
  allSafe s = true -> allSafe (extensionOf s) = true.
Proof.
  unfold allSafe, extensionOf. intros H.
  destruct (0 <=? JsString.lastIndexOf "."%char s)%Z; [|reflexivity].
  rewrite chars_ofChars. rewrite forallb_forall in *.
  intros c Hc. apply H.
  rewrite <- (firstn_skipn (Z.to_nat (JsString.lastIndexOf "."%char s) + 1)).
  apply in_or_app. now right.
Qed.

Lemma splitLastDot_none (l : list ascii) :
  ~ In "."%char l -> splitLastDot l = None.
Proof.
  induction l as [|c l IH]; intros Hn; simpl; [reflexivity|].
  rewrite IH by (intros H; apply Hn; now right).
  destruct (Ascii.eqb_spec c "."%char) as [->|]; [|reflexivity].
  exfalso. apply Hn. now left.
Qed.

Lemma splitLastDot_some (pre ext : list ascii) :
  ~ In "."%char ext -> splitLastDot (pre ++ "."%char :: ext) = Some (pre, ext).
Proof.
  intros Hn. induction pre as [|c pre IH]; simpl.
  - now rewrite (splitLastDot_none ext Hn).
  - now rewrite IH.
Qed.

(** A name is cut at its final dot, or has none. *)
Lemma splitLastDot_cases (l : list ascii) :
  (exists pre ext, l = (pre ++ "."%char :: ext)%list /\ ~ In "."%char ext /\
                   splitLastDot l = Some (pre, ext)) \/
  (~ In "."%char l /\ splitLastDot l = None).
Proof.
  destruct (in_dec ascii_dec "."%char l) as [Hin|Hn].
  - left. destruct (last_dot_split _ _ Hin) as (pre & ext & -> & Hn).
    exists pre, ext. split; [reflexivity|]. split; [exact Hn|].
    now apply splitLastDot_some.
  - right. split; [exact Hn | now apply splitLastDot_none].
Qed.

Variable fallback : string.
Hypothesis fallback_nonempty : fallback <> "".
Hypothesis fallback_safe : allSafe fallback = true.
Hypothesis fallback_no_dot : JsString.startsWith "." fallback = false.

(** The base is made of safe characters, is not empty and does not start
    with a dot. *)
Lemma safeBase_safe (l : list ascii) :
  forallb isSafeChar (safeBase fallback l) = true.
Proof.
  unfold safeBase.
  pose proof (dropDots_safe _ (clean_safe l false)) as H.
  destruct (dropDots (clean false l)); [exact fallback_safe | exact H].
Qed.

Lemma safeBase_head (l : list ascii) :
  exists c r, safeBase fallback l = c :: r /\ c <> "."%char.
Proof.
  unfold safeBase. pose proof (dropDots_head (clean false l)) as H.
  destruct (dropDots (clean false l)) as [|c r]; [|now exists c, r].
  destruct (JsString.chars fallback) as [|c r] eqn:E.
  - exfalso. apply fallback_nonempty. apply chars_inj. now rewrite E.
  - exists c, r. split; [reflexivity|]. intros ->.
    assert (Hd : JsString.startsWith "." (JsString.ofChars ("."%char :: r)) = true)
      by (apply startsWith_dot; now exists r).
    rewrite <- E, ofChars_chars in Hd. congruence.
Qed.

Lemma safeBase_fixed (l : list ascii) :
  forallb isSafeChar l = true ->
  (exists c r, l = c :: r /\ c <> "."%char) ->
  safeBase fallback l = l.
Proof.
  intros Hs (c & r & -> & Hc). unfold safeBase.
  rewrite (clean_fixes_safe _ Hs), dropDots_fixed; [reflexivity | exact Hc].
Qed.

(** The result as a list of characters: a base, and after it the dot and
    the cleaned extension when the name has one. *)
Lemma sanitize_shape (s : string) :
  exists c r tail,
    JsString.chars (sanitize fallback s) = (c :: r ++ tail)%list /\
    c <> "."%char /\
    forallb isSafeChar (c :: r ++ tail) = true.
Proof.
  unfold sanitize.
  destruct (splitLastDot (JsString.chars s)) as [[pre ext]|].
  - destruct (safeBase_head pre) as (c & r & E & Hc).
    exists c, r, ("."%char :: clean false ext).
    rewrite chars_ofChars, E. split; [reflexivity|]. split; [exact Hc|].
    rewrite List.app_comm_cons, <- E, forallb_app, safeBase_safe. simpl.
    apply clean_safe.
  - destruct (safeBase_head (JsString.chars s)) as (c & r & E & Hc).
    exists c, r, []. rewrite chars_ofChars, List.app_nil_r, E.
    split; [reflexivity|]. split; [exact Hc|].
    rewrite <- E. apply safeBase_safe.
Qed.

Lemma sanitize_safe (s : string) : allSafe (sanitize fallback s) = true.
Proof.
  unfold allSafe. destruct (sanitize_shape s) as (c & r & tail & -> & _ & H).
  exact H.
Qed.

Lemma sanitize_nonempty (s : string) : sanitize fallback s <> "".
Proof.
  intros E. destruct (sanitize_shape s) as (c & r & tail & H & _).
  rewrite E in H. discriminate H.
Qed.

Lemma sanitize_no_leading_dot (s : string) :
  JsString.startsWith "." (sanitize fallback s) = false.
Proof.
  destruct (JsString.startsWith "." (sanitize fallback s)) eqn:E; [|reflexivity].
  rewrite <- (ofChars_chars (sanitize fallback s)) in E.
  apply startsWith_dot in E as [r' E].
  destruct (sanitize_shape s) as (c & r & tail & H & Hc & _).
  rewrite H in E. injection E as -> _. now elim Hc.
Qed.

(** A non-empty string of safe characters that does not start with a dot
    is left as it is. *)
Lemma sanitize_fixes_safe (s : string) :
  allSafe s = true -> s <> "" -> JsString.startsWith "." s = false ->
  sanitize fallback s = s.
Proof.
  intros Hs Hne Hdot. unfold allSafe in Hs.
  assert (Hhead : exists c r, JsString.chars s = c :: r /\ c <> "."%char).
  { destruct (JsString.chars s) as [|c r] eqn:E.
    - exfalso. apply Hne. apply chars_inj. now rewrite E.
    - exists c, r. split; [reflexivity|]. intros ->.
      assert (Hd : JsString.startsWith "." (JsString.ofChars ("."%char :: r)) = true)
        by (apply startsWith_dot; now exists r).
      rewrite <- E, ofChars_chars in Hd. congruence. }
  unfold sanitize.
  destruct (splitLastDot_cases (JsString.chars s))
    as [(pre & ext & E & Hn & ->)|[Hn ->]].
  - rewrite E, forallb_app in Hs. apply andb_true_iff in Hs as [Hpre Hext].
    simpl in Hext.
    rewrite safeBase_fixed, (clean_fixes_safe ext Hext), <- E, ofChars_chars;
      [reflexivity | exact Hpre |].
    destruct Hhead as (c & r & Ec & Hc). rewrite E in Ec.
    destruct pre as [|x pre]; simpl in Ec.
    + injection Ec as <- _. now elim Hc.
    + injection Ec as -> _. now exists c, pre.
  - rewrite safeBase_fixed, ofChars_chars; [reflexivity | exact Hs | exact Hhead].
Qed.

Lemma sanitize_idempotent (s : string) :
  sanitize fallback (sanitize fallback s) = sanitize fallback s.
Proof.
  apply sanitize_fixes_safe;
    [apply sanitize_safe | apply sanitize_nonempty | apply sanitize_no_leading_dot].
Qed.

(** A name with an extension keeps one: its own, cleaned. *)
Lemma sanitize_extension (s : string) :
  hasExtension s = true ->
  hasExtension (sanitize fallback s) = true /\
  extensionOf (sanitize fallback s)
  = JsString.ofChars (clean false (JsString.chars (extensionOf s))).
Proof.
  intros Hh. apply hasExtension_iff in Hh. unfold sanitize.
  destruct (splitLastDot_cases (JsString.chars s))
    as [(pre & ext & E & Hn & ->)|[Hn _]]; [|contradiction].
  assert (Es : extensionOf s = JsString.ofChars ext).
  { rewrite <- (ofChars_chars s), E. now apply extensionOf_split. }
  rewrite Es, chars_ofChars. split.
  - apply hasExtension_iff. rewrite chars_ofChars. apply in_or_app. right. now left.
  - apply extensionOf_split. now apply clean_no_dot.
Qed.

(** A name without a dot is cleaned as a whole. *)
Lemma sanitize_no_extension (s : string) :
  hasExtension s = false ->
  sanitize fallback s
  = JsString.orElse (JsString.ofChars (clean false (JsString.chars s))) fallback.
Proof.
  intros Hh.
  assert (Hn : ~ In "."%char (JsString.chars s)).
  { intros Hin. apply hasExtension_iff in Hin. congruence. }
  unfold sanitize, safeBase, JsString.orElse.
  rewrite (splitLastDot_none _ Hn).
  pose proof (clean_no_dot _ Hn false) as Hc.
  rewrite dropDots_fixed.
  - destruct (clean false (JsString.chars s)) as [|c r]; [|reflexivity].
    simpl. apply ofChars_chars.
  - destruct (clean false (JsString.chars s)) as [|c r]; [exact I|].
    intros ->. apply Hc. now left.
Qed.

(** An extension with a character outside the safe set is not kept, whatever
    comes before it. *)
Lemma sanitize_drops_unsafe_extension (s : string) :
  allSafe (extensionOf s) = false ->
  extensionOf (sanitize fallback s) <> extensionOf s.
Proof.
  intros Hu E. pose proof (extensionOf_safe _ (sanitize_safe s)) as H.
  rewrite E in H. congruence.
Qed.

End SanitizerFacts.

(** C8, as amended.  With a fallback base name that is not empty, is made
    of safe characters and does not start with a dot, [sanitize] is a total
    function whose result holds only characters of the safe set, is never
    empty, does not start with a dot and is a fixed point of [sanitize].  A
    name with a final dot-delimited extension gives a result with one, which
    is the extension of the name cleaned like the rest: it is the extension
    of the name itself exactly when that one is made of safe characters.  A
    name without a dot gives what is kept of it, or the fallback name when
    nothing is. *)
Theorem sanitize_contract (fallback : string) :
  fallback <> "" ->
  FileUtils.allSafe fallback = true ->
  JsString.startsWith "." fallback = false ->
  forall s : string,
    FileUtils.allSafe (FileUtils.sanitize fallback s) = true /\
    FileUtils.sanitize fallback s <> "" /\
    JsString.startsWith "." (FileUtils.sanitize fallback s) = false /\
    FileUtils.sanitize fallback (FileUtils.sanitize fallback s)
      = FileUtils.sanitize fallback s /\
    (FileUtils.hasExtension s = true ->
     FileUtils.hasExtension (FileUtils.sanitize fallback s) = true /\
     FileUtils.extensionOf (FileUtils.sanitize fallback s)
     = JsString.ofChars
         (FileUtils.clean false (JsString.chars (FileUtils.extensionOf s))) /\
     (FileUtils.extensionOf (FileUtils.sanitize fallback s)
      = FileUtils.extensionOf s
      <-> FileUtils.allSafe (FileUtils.extensionOf s) = true)) /\
    (FileUtils.hasExtension s = false ->
     FileUtils.sanitize fallback s
     = JsString.orElse
         (JsString.ofChars (FileUtils.clean false (JsString.chars s)))
         fallback).
Proof.
  intros Hne Hsafe Hdot s.
  split; [now apply sanitize_safe|].
  split; [now apply sanitize_nonempty|].
  split; [now apply sanitize_no_leading_dot|].
  split; [now apply sanitize_idempotent|].
  split; [|now apply sanitize_no_extension].
  intros Hh. destruct (sanitize_extension fallback s Hh) as [Hk He].
  split; [exact Hk|]. split; [exact He|]. split.
  - intros E. destruct (FileUtils.allSafe (FileUtils.extensionOf s)) eqn:Hs;
      [reflexivity|].
    exfalso. revert E. now apply sanitize_drops_unsafe_extension.
  - intros Hs. rewrite He. unfold FileUtils.allSafe in Hs.
    now rewrite (clean_fixes_safe _ Hs), ofChars_chars.
Qed.

Lemma sanitize_contract_witness :
  FileUtils.sanitize "file" "My Clip (2024).mov" = "My_Clip_2024.mov" /\
  FileUtils.allSafe (FileUtils.sanitize "file" "My Clip (2024).mov") = true /\
  FileUtils.extensionOf (FileUtils.sanitize "file" "My Clip (2024).mov") = "mov" /\
  FileUtils.extensionOf (FileUtils.sanitize "file" ".mp4") = "mp4" /\
  FileUtils.sanitize "file" "((( )))" = "_".
Proof.
  assert (Hne : "file" <> "") by discriminate.
  assert (Hsafe : FileUtils.allSafe "file" = true) by reflexivity.
  assert (Hdot : JsString.startsWith "." "file" = false) by reflexivity.
  destruct (sanitize_contract "file" Hne Hsafe Hdot "My Clip (2024).mov")
    as (Hs & _ & _ & _ & Hext & _).
  destruct (Hext eq_refl) as (_ & _ & He).
  destruct (sanitize_contract "file" Hne Hsafe Hdot ".mp4")
    as (_ & _ & _ & _ & Hext4 & _).
  destruct (Hext4 eq_refl) as (_ & _ & He4).
  destruct (sanitize_contract "file" Hne Hsafe Hdot "((( )))")
    as (_ & _ & _ & _ & _ & Hno).
  split; [reflexivity|]. split; [exact Hs|].
  split; [exact (proj2 He eq_refl)|].
  split; [exact (proj2 He4 eq_refl) | exact (Hno eq_refl)].
Defined.

(** C8, as stated, fails, whatever the sanitizer is: the name
    [video.mp4 (1)] has the final extension [mp4 (1)], with a space and
    parentheses, so that no function can give a result made of safe
    characters that has this extension; the sanitizer of the specification
    gives [video.mp4_1]. *)
Lemma sanitize_extension_counterexample :
  FileUtils.hasExtension "video.mp4 (1)" = true /\
  FileUtils.extensionOf "video.mp4 (1)" = "mp4 (1)" /\
  (forall f : string -> string,
      FileUtils.allSafe (f "video.mp4 (1)") = true ->
      FileUtils.extensionOf (f "video.mp4 (1)")
      <> FileUtils.extensionOf "video.mp4 (1)") /\
  FileUtils.sanitize "file" "video.mp4 (1)" = "video.mp4_1" /\
  FileUtils.extensionOf (FileUtils.sanitize "file" "video.mp4 (1)") = "mp4_1".
Proof.
  split; [reflexivity|]. split; [reflexivity|]. split; [|repeat split].
  intros f Hsafe E. pose proof (extensionOf_safe _ Hsafe) as H.
  rewrite E in H. discriminate H.
Qed.

(** The two halves of the claim exclude each other whatever the sanitizer
    is: a function whose results are all safe cannot preserve every final
    extension. *)
Lemma safe_output_cannot_preserve_every_extension (f : string -> string) :
  (forall s, FileUtils.allSafe (f s) = true) ->
  ~ (forall s, FileUtils.hasExtension s = true ->
               FileUtils.extensionOf (f s) = FileUtils.extensionOf s).
Proof.
  intros Hsafe Hext.
  pose proof (extensionOf_safe _ (Hsafe "a.b c")) as H.
  rewrite (Hext "a.b c" eq_refl) in H. discriminate H.
Qed.

(* ===================================================================== *)
(** * Rounding to a double *)
(* ===================================================================== *)

Section DoubleFacts.

Import Double.
Local Open Scope Q_scope.

Lemma pow2_pos (e : Z) : 0 < pow2 e.
Proof. apply Qpower_0_lt. reflexivity. Qed.

Lemma pow2_add (a b : Z) : pow2 (a + b) == pow2 a * pow2 b.
Proof. apply Qpower_plus. discriminate. Qed.

Lemma pow2_le (a b : Z) : (a <= b)%Z -> pow2 a <= pow2 b.
Proof. intros H. apply Qpower_le_compat_l; [exact H | discriminate]. Qed.

Lemma pow2_lt (a b : Z) : (a < b)%Z -> pow2 a < pow2 b.
Proof. intros H. apply Qpower_lt_compat_l; [exact H | reflexivity]. Qed.

Lemma pow2_lt_inv (a b : Z) : pow2 a < pow2 b -> (a < b)%Z.
Proof. intros H. apply (Qpower_lt_compat_l_inv 2); [exact H | reflexivity]. Qed.

Lemma pow2_Z (n : Z) : (0 <= n)%Z -> pow2 n == inject_Z (2 ^ n).
Proof.
  intros H. unfold pow2. rewrite (Zpower_Qpower 2 n H). reflexivity.
Qed.

Lemma pow2_frac (a b : Z) :
  (0 <= a)%Z -> (0 <= b)%Z -> pow2 (a - b) == inject_Z (2 ^ a) / inject_Z (2 ^ b).
Proof.
  intros Ha Hb. unfold pow2.
  rewrite Qpower_minus by discriminate.
  rewrite (Zpower_Qpower 2 a Ha), (Zpower_Qpower 2 b Hb). reflexivity.
Qed.

Lemma ilog2_rough (n : Z) (d : positive) :
  (0 < n)%Z ->
  let k := (Z.log2 n - Z.log2 (Zpos d))%Z in
  pow2 (k - 1) <= n # d /\ n # d < pow2 (k + 1).
Proof.
  intros Hn k.
  destruct (Z.log2_spec n Hn) as [Ha1 Ha2].
  destruct (Z.log2_spec (Zpos d) eq_refl) as [Hb1 Hb2].
  pose proof (Z.log2_nonneg n) as Ha0.
  pose proof (Z.log2_nonneg (Zpos d)) as Hb0.
  assert (HA : (0 < 2 ^ Z.log2 n)%Z) by (apply Z.pow_pos_nonneg; lia).
  assert (HB : (0 < 2 ^ Z.log2 (Zpos d))%Z) by (apply Z.pow_pos_nonneg; lia).
  rewrite !Z.pow_succ_r in * by assumption.
  split.
  - replace (k - 1)%Z with (Z.log2 n - (Z.log2 (Zpos d) + 1))%Z by (unfold k; lia).
    rewrite pow2_frac by lia.
    rewrite Z.pow_add_r by lia. change (2 ^ 1)%Z with 2%Z.
    apply Qle_shift_div_r.
    + rewrite <- (Zlt_Qlt 0). lia.
    + unfold Qle. cbn [Qnum Qden Qmult inject_Z]. rewrite Pos.mul_1_r. nia.
  - replace (k + 1)%Z with ((Z.log2 n + 1) - Z.log2 (Zpos d))%Z by (unfold k; lia).
    rewrite pow2_frac by lia.
    rewrite Z.pow_add_r by lia. change (2 ^ 1)%Z with 2%Z.
    apply Qlt_shift_div_l.
    + rewrite <- (Zlt_Qlt 0). lia.
    + unfold Qlt. cbn [Qnum Qden Qmult inject_Z]. rewrite Pos.mul_1_r. nia.
Qed.

Lemma ilog2_spec (q : Q) :
  0 < q -> pow2 (ilog2 q) <= q /\ q < pow2 (ilog2 q + 1).
Proof.
  intros Hq. destruct q as [n d].
  assert (Hn : (0 < n)%Z) by (unfold Qlt in Hq; simpl in Hq; lia).
  destruct (ilog2_rough n d Hn) as [Hlo Hhi].
  unfold ilog2. cbn [Qnum Qden].
  set (k := (Z.log2 n - Z.log2 (Zpos d))%Z) in *.
  destruct (Qle_bool (pow2 k) (n # d)) eqn:E.
  - apply Qle_bool_iff in E. now split.
  - split; [exact Hlo|].
    replace (k - 1 + 1)%Z with k by lia.
    apply Qnot_le_lt. intros H. apply Qle_bool_iff in H. congruence.
Qed.

Lemma ilog2_le (q : Q) (k : Z) : 0 < q -> q < pow2 (k + 1) -> (ilog2 q <= k)%Z.
Proof.
  intros Hq H. destruct (ilog2_spec q Hq) as [Hlo _].
  assert (pow2 (ilog2 q) < pow2 (k + 1)) by (eapply Qle_lt_trans; eassumption).
  apply pow2_lt_inv in H0. lia.
Qed.

Lemma ilog2_ge (q : Q) (k : Z) : 0 < q -> pow2 k <= q -> (k <= ilog2 q)%Z.
Proof.
  intros Hq H. destruct (ilog2_spec q Hq) as [_ Hhi].
  assert (pow2 k < pow2 (ilog2 q + 1)) by (eapply Qle_lt_trans; eassumption).
  apply pow2_lt_inv in H0. lia.
Qed.

Lemma ilog2_mono (x y : Q) : 0 < x -> x <= y -> (ilog2 x <= ilog2 y)%Z.
Proof.
  intros Hx Hxy. apply ilog2_ge.
  - eapply Qlt_le_trans; eassumption.
  - eapply Qle_trans; [apply ilog2_spec; exact Hx | exact Hxy].
Qed.

Lemma Qabs_of_pos (q : Q) : 0 < q -> Qabs q = q.
Proof.
  destruct q as [n d]. unfold Qlt. simpl. intros H.
  unfold Qabs. f_equal. lia.
Qed.

Lemma nearestEven_comp (x y : Q) : x == y -> nearestEven x = nearestEven y.
Proof.
  intros H. unfold nearestEven. rewrite (Qfloor_comp _ _ H).
  assert (E : (x - inject_Z (Qfloor y) ?= 1 # 2) = (y - inject_Z (Qfloor y) ?= 1 # 2))
    by (now rewrite H).
  now rewrite E.
Qed.

Lemma nearestEven_cases (x : Q) :
  (nearestEven x = Qfloor x /\ x - inject_Z (Qfloor x) <= 1 # 2) \/
  (nearestEven x = (Qfloor x + 1)%Z /\ 1 # 2 <= x - inject_Z (Qfloor x)).
Proof.
  unfold nearestEven.
  destruct (x - inject_Z (Qfloor x) ?= 1 # 2) eqn:E.
  - apply Qeq_alt in E. destruct (Z.even (Qfloor x)).
    + left. split; [reflexivity|]. rewrite E. apply Qle_refl.
    + right. split; [reflexivity|]. rewrite E. apply Qle_refl.
  - apply Qlt_alt in E. left. split; [reflexivity | now apply Qlt_le_weak].
  - apply Qgt_alt in E. right. split; [reflexivity | now apply Qlt_le_weak].
Qed.

Lemma nearestEven_near (x : Q) : Qabs (inject_Z (nearestEven x) - x) <= 1 # 2.
Proof.
  pose proof (Qfloor_le x) as Hlo. pose proof (Qlt_floor x) as Hhi.
  rewrite inject_Z_plus in Hhi. change (inject_Z 1) with 1 in Hhi.
  apply Qabs_Qle_condition.
  destruct (nearestEven_cases x) as [[-> H]|[-> H]].
  - split; lra.
  - rewrite inject_Z_plus. change (inject_Z 1) with 1. split; lra.
Qed.

Lemma nearestEven_Z (n : Z) : nearestEven (inject_Z n) = n.
Proof.
  unfold nearestEven. rewrite Qfloor_Z.
  assert (E : (inject_Z n - inject_Z n ?= 1 # 2) = Lt).
  { rewrite <- Qlt_alt. lra. }
  now rewrite E.
Qed.

Lemma nearestEven_mono (x y : Q) : x <= y -> (nearestEven x <= nearestEven y)%Z.
Proof.
  intros H. pose proof (Qfloor_resp_le _ _ H) as Hf.
  destruct (nearestEven_cases x) as [[Ex Hx]|[Ex Hx]];
    destruct (nearestEven_cases y) as [[Ey Hy]|[Ey Hy]]; try lia.
  destruct (Z.eq_dec (Qfloor x) (Qfloor y)) as [E|E]; [|lia].
  rewrite E in Hx.
  assert (Hxy : x == y) by (apply Qle_antisym; lra).
  rewrite (nearestEven_comp _ _ Hxy). lia.
Qed.

Lemma nearestEven_nonneg (x : Q) : 0 <= x -> (0 <= nearestEven x)%Z.
Proof.
  intros H. rewrite <- (nearestEven_Z 0). now apply nearestEven_mono.
Qed.

(** [nearest] on positive rationals. *)
Lemma nearest_pos (q : Q) :
  0 < q ->
  nearest q = inject_Z (nearestEven (q / pow2 (Z.max (ilog2 q - 52) (-1074))))
              * pow2 (Z.max (ilog2 q - 52) (-1074)).
Proof.
  intros H. unfold nearest, exponentOf. rewrite (Qabs_of_pos q H).
  destruct (Qeq_bool q 0) eqn:E; [|reflexivity].
  apply Qeq_bool_iff in E. rewrite E in H. discriminate.
Qed.

Lemma nearest_zero (q : Q) : q == 0 -> nearest q = 0.
Proof.
  intros H. unfold nearest. apply Qeq_bool_iff in H. now rewrite H.
Qed.

Lemma nearest_nonneg (q : Q) : 0 <= q -> 0 <= nearest q.
Proof.
  intros H. destruct (Qeq_dec q 0) as [E|E].
  - rewrite (nearest_zero q E). apply Qle_refl.
  - assert (Hq : 0 < q) by (apply Qnot_le_lt; intros H'; apply E; apply Qle_antisym; assumption).
    rewrite (nearest_pos q Hq).
    apply Qmult_le_0_compat; [|apply Qlt_le_weak, pow2_pos].
    rewrite <- (Zle_Qle 0). apply nearestEven_nonneg.
    apply Qle_shift_div_l; [apply pow2_pos|]. lra.
Qed.

Lemma scaled_ge (x : Q) (e n : Z) :
  inject_Z n * pow2 e <= x ->
  inject_Z n * pow2 e <= inject_Z (nearestEven (x / pow2 e)) * pow2 e.
Proof.
  intros H. pose proof (pow2_pos e) as Hp.
  apply Qmult_le_compat_r; [|lra].
  rewrite <- Zle_Qle.
  apply Z.le_trans with (nearestEven (inject_Z n));
    [rewrite nearestEven_Z; lia|].
  apply nearestEven_mono. now apply Qle_shift_div_l.
Qed.

Lemma scaled_le (x : Q) (e n : Z) :
  x <= inject_Z n * pow2 e ->
  inject_Z (nearestEven (x / pow2 e)) * pow2 e <= inject_Z n * pow2 e.
Proof.
  intros H. pose proof (pow2_pos e) as Hp.
  apply Qmult_le_compat_r; [|lra].
  rewrite <- Zle_Qle.
  apply Z.le_trans with (nearestEven (inject_Z n));
    [|rewrite nearestEven_Z; lia].
  apply nearestEven_mono. now apply Qle_shift_div_r.
Qed.

Lemma pow2_scaled (e m : Z) :
  (0 <= m)%Z -> pow2 (e + m) == inject_Z (2 ^ m) * pow2 e.
Proof.
  intros H. rewrite pow2_add, (pow2_Z m H). apply Qmult_comm.
Qed.

Lemma nearest_mono (x y : Q) : 0 <= x -> x <= y -> nearest x <= nearest y.
Proof.
  intros Hx Hxy. destruct (Qeq_dec x 0) as [E|E].
  - rewrite (nearest_zero x E). apply nearest_nonneg. lra.
  - assert (Hx' : 0 < x) by (apply Qnot_le_lt; intros H'; apply E; apply Qle_antisym; assumption).
    assert (Hy' : 0 < y) by lra.
    rewrite (nearest_pos x Hx'), (nearest_pos y Hy').
    pose proof (ilog2_mono x y Hx' Hxy) as Hl.
    destruct (ilog2_spec x Hx') as [_ Hxhi].
    destruct (ilog2_spec y Hy') as [Hylo _].
    set (ex := Z.max (ilog2 x - 52) (-1074)).
    set (ey := Z.max (ilog2 y - 52) (-1074)).
    pose proof (pow2_pos ex) as Hpx. pose proof (pow2_pos ey) as Hpy.
    destruct (Z.eq_dec ex ey) as [Ee|Ee].
    + rewrite Ee. apply Qmult_le_compat_r; [|lra].
      rewrite <- Zle_Qle. apply nearestEven_mono.
      apply Qmult_le_compat_r; [exact Hxy|].
      apply Qlt_le_weak, Qinv_lt_0_compat, Hpy.
    + assert (Hlt : (ex + 53 <= ey + 52)%Z) by (unfold ex, ey in *; lia).
      assert (Hey : (ey + 52)%Z = ilog2 y) by (unfold ex, ey in *; lia).
      assert (Hex : (ilog2 x + 1 <= ex + 53)%Z) by (unfold ex; lia).
      apply Qle_trans with (pow2 (ex + 53)); [|apply Qle_trans with (pow2 (ey + 52))].
      * rewrite (pow2_scaled ex 53) by lia. apply scaled_le.
        rewrite <- (pow2_scaled ex 53) by lia.
        apply Qlt_le_weak. eapply Qlt_le_trans; [exact Hxhi|].
        now apply pow2_le.
      * now apply pow2_le.
      * rewrite (pow2_scaled ey 52) by lia. apply scaled_ge.
        rewrite <- (pow2_scaled ey 52) by lia. now rewrite Hey.
Qed.

Lemma round_comp (x y : Q) : x == y -> round x = round y.
Proof. intros H. unfold round. now rewrite (Qred_complete _ _ H). Qed.

Lemma round_nearest (q : Q) : round q == nearest (Qred q).
Proof. unfold round. apply Qred_correct. Qed.

Lemma round_mono (x y : Q) : 0 <= x -> x <= y -> round x <= round y.
Proof.
  intros Hx Hxy. rewrite !round_nearest.
  apply nearest_mono; rewrite ?Qred_correct; assumption.
Qed.

(** The distance to the nearest double: half a unit in the last place. *)
Lemma nearest_near (q : Q) (k : Z) :
  0 <= q -> q < pow2 (k + 1) -> (-1022 <= k)%Z ->
  Qabs (nearest q - q) <= pow2 (k - 53).
Proof.
  intros Hq Hk Hmin. destruct (Qeq_dec q 0) as [E|E].
  - rewrite (nearest_zero q E).
    setoid_replace (0 - q) with 0 by lra.
    apply Qlt_le_weak, pow2_pos.
  - assert (Hq' : 0 < q) by (apply Qnot_le_lt; intros H'; apply E; apply Qle_antisym; assumption).
    rewrite (nearest_pos q Hq').
    pose proof (ilog2_le q k Hq' Hk) as Hl.
    set (e := Z.max (ilog2 q - 52) (-1074)).
    assert (He : (e <= k - 52)%Z) by (unfold e; lia).
    pose proof (pow2_pos e) as Hp.
    pose proof (nearestEven_near (q / pow2 e)) as Hn.
    set (n := inject_Z (nearestEven (q / pow2 e))) in *.
    setoid_replace (n * pow2 e - q) with ((n - q / pow2 e) * pow2 e)
      by (field; lra).
    rewrite Qabs_Qmult, (Qabs_pos (pow2 e)) by lra.
    apply Qle_trans with ((1 # 2) * pow2 e).
    + apply Qmult_le_compat_r; [exact Hn | lra].
    + apply Qle_trans with ((1 # 2) * pow2 (k - 52)).
      * apply Qmult_le_l; [reflexivity | now apply pow2_le].
      * replace (k - 52)%Z with ((k - 53) + 1)%Z by lia.
        rewrite pow2_add. change (pow2 1) with 2. 
        pose proof (pow2_pos (k - 53)). lra.
Qed.

Lemma round_near (q : Q) (k : Z) :
  0 <= q -> q < pow2 (k + 1) -> (-1022 <= k)%Z ->
  Qabs (round q - q) <= pow2 (k - 53).
Proof.
  intros Hq Hk Hmin. rewrite round_nearest.
  rewrite <- (Qred_correct q) at 2.
  apply nearest_near; rewrite ?Qred_correct; assumption.
Qed.

(** A rational that is an integer number of units in the last place is a
    double. *)
Lemma nearest_exact (q : Q) (m : Z) :
  q == inject_Z m * pow2 (exponentOf q) -> nearest q == q.
Proof.
  intros H. unfold nearest. destruct (Qeq_bool q 0) eqn:E.
  - apply Qeq_bool_iff in E. now rewrite E.
  - cbv zeta. pose proof (pow2_pos (exponentOf q)) as Hp.
    assert (Hm : q / pow2 (exponentOf q) == inject_Z m).
    { rewrite H at 1. field. lra. }
    rewrite (nearestEven_comp _ _ Hm), nearestEven_Z. now rewrite <- H.
Qed.

Lemma Qabs_inject_Z (z : Z) : Qabs (inject_Z z) = inject_Z (Z.abs z).
Proof. reflexivity. Qed.

Lemma exponentOf_Z (z : Z) :
  (0 < Z.abs z <= 2 ^ 53)%Z ->
  (-1074 <= exponentOf (inject_Z z) <= 1)%Z /\
  (exponentOf (inject_Z z) = 1%Z -> Z.abs z = (2 ^ 53)%Z).
Proof.
  intros [H0 H1]. unfold exponentOf. rewrite Qabs_inject_Z.
  assert (Hq : 0 < inject_Z (Z.abs z)) by (rewrite <- (Zlt_Qlt 0); exact H0).
  assert (Hle : (ilog2 (inject_Z (Z.abs z)) <= 53)%Z).
  { apply ilog2_le; [exact Hq|]. rewrite (pow2_Z (53 + 1)) by lia.
    rewrite <- Zlt_Qlt. change (2 ^ (53 + 1))%Z with (2 * 2 ^ 53)%Z. lia. }
  split; [lia|]. intros E.
  assert (E53 : ilog2 (inject_Z (Z.abs z)) = 53%Z) by lia.
  destruct (ilog2_spec _ Hq) as [Hlo _]. rewrite E53, (pow2_Z 53) in Hlo by lia.
  rewrite <- Zle_Qle in Hlo. lia.
Qed.

Lemma nearest_Z (z : Z) :
  (Z.abs z <= 2 ^ 53)%Z -> nearest (inject_Z z) == inject_Z z.
Proof.
  intros H. destruct (Z.eq_dec z 0) as [->|Hz]; [reflexivity|].
  destruct (exponentOf_Z z) as [[Hlo Hhi] H53]; [lia|].
  set (e := exponentOf (inject_Z z)) in *.
  destruct (Z.eq_dec e 1) as [E1|E1].
  - apply (nearest_exact _ (z / 2)). fold e. rewrite E1.
    change (pow2 1) with 2. specialize (H53 E1).
    assert (Hz2 : z = (2 * (z / 2))%Z).
    { assert (Hd : (z = 2 ^ 53 \/ z = - 2 ^ 53)%Z) by lia.
      destruct Hd as [-> | ->]; reflexivity. }
    rewrite Hz2 at 1. rewrite inject_Z_mult. change (inject_Z 2) with 2. ring.
  - apply (nearest_exact _ (z * 2 ^ (- e))). fold e.
    rewrite inject_Z_mult, <- (pow2_Z (- e)) by lia.
    rewrite <- Qmult_assoc, <- pow2_add.
    replace (- e + e)%Z with 0%Z by lia. change (pow2 0) with 1. ring.
Qed.

Lemma Qred_inject_Z (z : Z) : Qred (inject_Z z) = inject_Z z.
Proof.
  unfold Qred, inject_Z.
  pose proof (Z.ggcd_gcd z 1) as Hg.
  pose proof (Z.ggcd_correct_divisors z 1) as Hd.
  destruct (Z.ggcd z 1) as [g [a b]]. simpl in *.
  rewrite Z.gcd_1_r in Hg. subst g. destruct Hd as [Ha Hb].
  replace a with z by lia. replace b with 1%Z by lia. reflexivity.
Qed.

Lemma round_Z (z : Z) :
  (Z.abs z <= 2 ^ 53)%Z -> round (inject_Z z) == inject_Z z.
Proof.
  intros H. rewrite round_nearest, Qred_inject_Z. now apply nearest_Z.
Qed.

(** The integers up to [2^53] in magnitude are doubles. *)
Lemma ofZ_exact (z : Z) : (Z.abs z <= 2 ^ 53)%Z -> ofZ z = Finite z.
Proof.
  intros H. unfold ofZ. pose proof (round_Z z H) as Hr.
  destruct (Qle_bool (pow2 1024) (Qabs (round (inject_Z z)))) eqn:E.
  - exfalso. apply Qle_bool_iff in E. rewrite Hr, Qabs_inject_Z in E.
    rewrite (pow2_Z 1024) in E by lia. rewrite <- Zle_Qle in E.
    assert (2 ^ 53 < 2 ^ 1024)%Z by (apply Z.pow_lt_mono_r; lia). lia.
  - now rewrite (Qfloor_comp _ _ Hr), Qfloor_Z.
Qed.

End DoubleFacts.

(* ===================================================================== *)
(** * Reading a numeral *)
(* ===================================================================== *)

Lemma readDigits_cons (radix : Z) (u : N) (r : list N) (acc : option Z) :
  Js.readDigits radix (u :: r) acc
  = match Js.digitOf radix u with
    | Some d =>
        Js.readDigits radix r
          (Some (radix * match acc with Some a => a | None => 0 end + d)%Z)
    | None => acc
    end.
Proof. reflexivity. Qed.

Ltac read_digit :=
  unfold JsString.units, JsString.chars;
  cbn [NilEmpty.string_of_uint list_ascii_of_string map];
  rewrite ?readDigits_cons;
  repeat match goal with
         | |- context [Js.digitOf 10 (N_of_ascii ?c)] =>
             let v := eval vm_compute in (Js.digitOf 10 (N_of_ascii c)) in
             change (Js.digitOf 10 (N_of_ascii c)) with v
         end;
  cbv iota beta.

Lemma readDigits_uint_acc (d : uint) : forall p : positive,
  Js.readDigits 10 (JsString.units (NilEmpty.string_of_uint d)) (Some (Zpos p))
  = Some (Zpos (Pos.of_uint_acc d p)).
Proof.
  induction d; intros p; read_digit; [reflexivity|..];
    cbn [Pos.of_uint_acc]; unfold JsString.units, JsString.chars in IHd;
    rewrite <- IHd; do 2 f_equal; lia.
Qed.

Lemma readDigits_uint_zero (d : uint) :
  Js.readDigits 10 (JsString.units (NilEmpty.string_of_uint d)) (Some 0%Z)
  = Some (Z.of_N (Pos.of_uint d)).
Proof.
  induction d; read_digit; [reflexivity|..]; cbn [Pos.of_uint];
    first [exact IHd | apply (readDigits_uint_acc d)].
Qed.

Lemma readDigits_uint (d : uint) :
  d <> Nil ->
  Js.readDigits 10 (JsString.units (NilEmpty.string_of_uint d)) None
  = Some (Z.of_N (Pos.of_uint d)).
Proof.
  intros Hd. destruct d; [congruence|..]; read_digit; cbn [Pos.of_uint];
    first [apply (readDigits_uint_zero d) | apply (readDigits_uint_acc d)].
Qed.

(** A decimal numeral is not taken for a hexadecimal one. *)
Lemma readUnsigned_uint (d : uint) :
  Js.readUnsigned (JsString.units (NilEmpty.string_of_uint d))
  = Js.readDigits 10 (JsString.units (NilEmpty.string_of_uint d)) None.
Proof.
  destruct d as [|d|d|d|d|d|d|d|d|d|d]; try reflexivity.
  destruct d; reflexivity.
Qed.

Lemma skipWhite_uint (d : uint) :
  Js.skipWhite (JsString.units (NilEmpty.string_of_uint d))
  = JsString.units (NilEmpty.string_of_uint d).
Proof. destruct d; reflexivity. Qed.

Lemma parseInt_positive (p : positive) :
  Js.parseInt (JsString.units (NilEmpty.string_of_uint (Pos.to_uint p)))
  = Double.ofZ (Zpos p).
Proof.
  unfold Js.parseInt. rewrite skipWhite_uint.
  assert (Hsign : match JsString.units (NilEmpty.string_of_uint (Pos.to_uint p)) with
                  | 45%N :: r => ((-1)%Z, r)
                  | 43%N :: r => (1%Z, r)
                  | _ => (1%Z, JsString.units (NilEmpty.string_of_uint (Pos.to_uint p)))
                  end
                  = (1%Z, JsString.units (NilEmpty.string_of_uint (Pos.to_uint p)))).
  { destruct (Pos.to_uint p); reflexivity. }
  rewrite Hsign, readUnsigned_uint, readDigits_uint
    by apply DecimalPos.Unsigned.to_uint_nonnil.
  rewrite DecimalPos.Unsigned.of_to. reflexivity.
Qed.

(** [parseInt] reads the decimal numeral of an integer as the double nearest
    to that integer. *)
Lemma parseInt_numeral (z : Z) :
  Js.parseInt (JsString.units (JsString.ofZ z)) = Double.ofZ z.
Proof.
  destruct z as [|p|p].
  - reflexivity.
  - unfold JsString.ofZ, NilZero.string_of_int. simpl Z.to_int.
    unfold NilZero.string_of_uint.
    pose proof (DecimalPos.Unsigned.to_uint_nonnil p) as Hn.
    destruct (Pos.to_uint p) eqn:E; try congruence; rewrite <- E;
      apply parseInt_positive.
  - unfold JsString.ofZ, NilZero.string_of_int. simpl Z.to_int.
    unfold NilZero.string_of_uint.
    pose proof (DecimalPos.Unsigned.to_uint_nonnil p) as Hn.
    assert (E : JsString.units
                  (String "-" match Pos.to_uint p with
                              | Nil => "0"
                              | _ => NilEmpty.string_of_uint (Pos.to_uint p)
                              end)
                = (45%N :: JsString.units (NilEmpty.string_of_uint (Pos.to_uint p)))%list).
    { destruct (Pos.to_uint p); try congruence; reflexivity. }
    rewrite E. unfold Js.parseInt.
    change (Js.skipWhite (45%N :: ?l)) with (45%N :: l).
    cbv iota beta.
    rewrite readUnsigned_uint, readDigits_uint by exact Hn.
    rewrite DecimalPos.Unsigned.of_to. reflexivity.
Qed.


(* ===================================================================== *)
(** * The segment-length input and the precondition checks *)
(* ===================================================================== *)

Lemma segmentLengthOf_spec (v : list N) :
  segmentLengthOf v
  = match Js.parseInt v with
    | NaN | Finite Z0 => Finite 30
    | n => n
    end.
Proof.
  unfold segmentLengthOf, Double.orElse.
  destruct (Js.parseInt v) as [[|p|p]| | |]; reflexivity.
Qed.

Lemma segmentLengthOf_nonzero (v : list N) :
  segmentLengthOf v <> Finite 0 /\ segmentLengthOf v <> NaN.
Proof.
  rewrite segmentLengthOf_spec.
  destruct (Js.parseInt v) as [[|p|p]| | |]; split; discriminate.
Qed.

(** Leading white space does not count. *)
Lemma parseInt_skips_white (ws v : list N) :
  forallb Js.isWhite ws = true -> Js.parseInt (ws ++ v) = Js.parseInt v.
Proof.
  intros H. unfold Js.parseInt. f_equal.
  induction ws as [|u ws IH]; [reflexivity|].
  simpl in H. apply andb_true_iff in H as [Hu Hws].
  simpl. rewrite Hu. now apply IH.
Qed.

Section Preconditions.

Variable sanitizeFilename : string -> string.
Variable getFileExtension : string -> string.
Variable localeCompare : string -> string -> comparison.
Variable env : Env.

Lemma rejected_run (w : World) :
  file w = None \/ isLoaded w = false \/ ffmpeg w = false \/
  Double.leZero (segmentLength w) = true ->
  exists msg,
    msg <> "" /\
    handleProcess sanitizeFilename getFileExtension localeCompare env w
    = (Normal Rejected, setError msg w).
Proof.
  intros H. unfold handleProcess.
  destruct (file w) as [f|].
  2:{ eexists; split; [|reflexivity]; discriminate. }
  destruct (isLoaded w).
  2:{ eexists; split; [|reflexivity]; discriminate. }
  destruct (ffmpeg w).
  2:{ eexists; split; [|reflexivity]; discriminate. }
  destruct (Double.leZero (segmentLength w)).
  { eexists; split; [|reflexivity]; discriminate. }
  simpl in H. destruct H as [H|[H|[H|H]]]; discriminate.
Qed.

Lemma negative_length_rejected (w : World) (f : File) :
  file w = Some f -> isLoaded w = true -> ffmpeg w = true ->
  Double.leZero (segmentLength w) = true ->
  handleProcess sanitizeFilename getFileExtension localeCompare env w = (Normal Rejected,
           setError "Segment length must be greater than 0." w).
Proof.
  intros Hf Hl Hh Hs. unfold handleProcess.
  rewrite Hf, Hl, Hh. simpl. now rewrite Hs.
Qed.

Lemma accepted_run (w : World) (f : File) :
  accepted w f ->
  handleProcess sanitizeFilename getFileExtension localeCompare env w =
  tryFinally
    (tryCatch (processBody sanitizeFilename getFileExtension localeCompare env
                           f (segmentLength w))
              (handleFailure sanitizeFilename env f true))
    (act (setIsProcessing false))
    (setStatus "Processing... This may take a while for large files."
       (setProgress 0 (setError "" (setIsProcessing true w)))).
Proof.
  intros (Hf & Hl & Hh & Hs). unfold handleProcess.
  rewrite Hf, Hl, Hh. simpl. now rewrite Hs.
Qed.

End Preconditions.

(** C6.  When no file is selected, or the engine is not loaded, or the
    segment length is not greater than 0, [handleProcess] returns from a
    precondition check: it reports a non-empty error message and changes
    nothing else.  The processing flag, the progress, the status, the
    selection and the segment length keep their values, no progress value is
    emitted, no archive is delivered, no engine call is issued and the
    engine's filesystem is untouched. *)
Theorem precondition_failure_is_rejected
        (sanitizeFilename getFileExtension : string -> string)
        (localeCompare : string -> string -> comparison)
        (env : Env) (w : World) :
  file w = None \/ isLoaded w = false \/ ffmpeg w = false \/
  Double.leZero (segmentLength w) = true ->
  exists (msg : string) (w' : World),
    handleProcess sanitizeFilename getFileExtension localeCompare env w
      = (Normal Rejected, w') /\
    error w' = msg /\ msg <> "" /\
    isProcessing w' = isProcessing w /\
    progress w' = progress w /\
    status w' = status w /\
    file w' = file w /\
    segmentLength w' = segmentLength w /\
    progressLog w' = progressLog w /\
    downloads w' = downloads w /\
    resetTimers w' = resetTimers w /\
    engineCalls w' = engineCalls w /\
    vfs w' = vfs w.
Proof.
  intros H.
  destruct (rejected_run sanitizeFilename getFileExtension localeCompare env w H)
    as (msg & Hne & E).
  exists msg, (setError msg w). rewrite E. repeat split. exact Hne.
Qed.

Lemma precondition_failure_is_rejected_witness :
  exists (msg : string) (w' : World),
    Fixture.run (Fixture.quiet []) (Fixture.ready "clip.mp4" [] 0)
      = (Normal Rejected, w') /\
    error w' = msg /\ msg <> "" /\
    isProcessing w' = false /\ engineCalls w' = [] /\ vfs w' = [].
Proof.
  destruct (precondition_failure_is_rejected
              (FileUtils.sanitize "file") FileUtils.extensionOf codeUnitCompare
              (Fixture.quiet []) (Fixture.ready "clip.mp4" [] 0))
    as (msg & w' & E & He & Hne & Hp & _ & _ & _ & _ & _ & _ & _ & Hc & Hv).
  - right. right. right. reflexivity.
  - exists msg, w'. repeat split; assumption.
Defined.

(** C10.  The value stored by the segment-length input is the parse of the
    entered text when that parse is a number other than 0, and 30 otherwise,
    that is when the parse is [NaN] or 0; so it is never 0 and never [NaN].
    The parse is a double: white space before the numeral does not count;
    for the decimal numeral of an integer [z] the value stored is the double
    nearest to [z], which is [z] itself up to [2^53] in magnitude, or 30 when
    [z] is 0; an integer beyond [2^53] is stored as the nearest double, and
    a numeral past the largest double is stored as [Infinity].  A negative
    number is stored as it is, and a run started with a stored length that
    is not greater than 0 returns from the precondition check of line 61
    without calling the engine; [Infinity] passes that check and is handed
    to the command as the text [Infinity]. *)
Theorem segment_length_input :
  (forall (v : list N) (w : World),
      segmentLength (snd (handleSegmentLengthChange v w))
      = match Js.parseInt v with
        | NaN | Finite Z0 => Finite 30
        | n => n
        end) /\
  (forall v : list N, segmentLengthOf v <> Finite 0 /\ segmentLengthOf v <> NaN) /\
  (forall ws v : list N,
      forallb Js.isWhite ws = true ->
      segmentLengthOf (ws ++ v)%list = segmentLengthOf v) /\
  (forall (ws : list N) (z : Z),
      forallb Js.isWhite ws = true ->
      segmentLengthOf (ws ++ JsString.units (JsString.ofZ z))%list
      = Double.orElse (Double.ofZ z) (Finite 30)) /\
  (forall (ws : list N) (z : Z),
      forallb Js.isWhite ws = true ->
      z <> 0%Z -> (Z.abs z <= 2 ^ 53)%Z ->
      segmentLengthOf (ws ++ JsString.units (JsString.ofZ z))%list = Finite z) /\
  segmentLengthOf (JsString.units "0") = Finite 30 /\
  segmentLengthOf (JsString.units "abc") = Finite 30 /\
  segmentLengthOf (JsString.units "") = Finite 30 /\
  segmentLengthOf (JsString.units "45") = Finite 45 /\
  segmentLengthOf (JsString.units "-5") = Finite (-5) /\
  segmentLengthOf (JsString.units "1.5e3") = Finite 1 /\
  segmentLengthOf (160%N :: JsString.units "42") = Finite 42 /\
  segmentLengthOf (JsString.units "9007199254740993") = Finite 9007199254740992 /\
  segmentLengthOf (JsString.units "1" ++ repeat 48%N 400)%list = PlusInfinity /\
  (forall (sanitizeFilename getFileExtension : string -> string)
          (localeCompare : string -> string -> comparison)
          (env : Env) (v : list N) (w : World) (f : File),
      file w = Some f -> isLoaded w = true -> ffmpeg w = true ->
      let w1 := snd (handleSegmentLengthChange v w) in
      (Double.leZero (segmentLengthOf v) = true ->
       handleProcess sanitizeFilename getFileExtension localeCompare env w1
       = (Normal Rejected, setError "Segment length must be greater than 0." w1)) /\
      (segmentLengthOf v = PlusInfinity ->
       accepted w1 f /\
       nth_error (execArgv (sanitizeFilename (fileName f)) (segmentLength w1)
                           (outputExtOf getFileExtension
                                        (sanitizeFilename (fileName f)))) 5
       = Some "Infinity")).
Proof.
  split; [intros v w; apply segmentLengthOf_spec|].
  split; [exact segmentLengthOf_nonzero|].
  split; [intros ws v H; unfold segmentLengthOf; now rewrite parseInt_skips_white|].
  split.
  { intros ws z H. unfold segmentLengthOf.
    now rewrite parseInt_skips_white, parseInt_numeral. }
  split.
  { intros ws z H Hz Hb. unfold segmentLengthOf.
    rewrite parseInt_skips_white, parseInt_numeral, ofZ_exact by assumption.
    unfold Double.orElse, Double.truthy.
    destruct (Z.eqb_spec z 0); [contradiction | reflexivity]. }
  do 9 (split; [vm_compute; reflexivity|]).
  intros sf ge lc env v w f Hf Hl Hh w1. split.
  - intros Hneg. now apply (negative_length_rejected sf ge lc env w1 f).
  - intros Hinf. split.
    + unfold accepted. subst w1. simpl.
      rewrite Hinf. now repeat split.
    + subst w1. simpl. now rewrite Hinf.
Qed.

(* ===================================================================== *)
(** * Running the monad *)
(* ===================================================================== *)

Lemma sameDisplay_refl w : sameDisplay w w.
Proof. repeat split. Qed.

Lemma sameDisplay_trans w1 w2 w3 :
  sameDisplay w1 w2 -> sameDisplay w2 w3 -> sameDisplay w1 w3.
Proof.
  unfold sameDisplay. intros H1 H2.
  repeat match goal with H : _ /\ _ |- _ => destruct H end.
  repeat split; congruence.
Qed.

(** ** Engine calls *)

Lemma names_remove name fs n :
  In n (Engine.names (Engine.remove name fs)) <->
  In n (Engine.names fs) /\ n <> name.
Proof.
  unfold Engine.names, Engine.remove. rewrite !in_map_iff. split.
  - intros ((a, d) & E & Hin). apply filter_In in Hin as [Hin Hb]. simpl in *.
    subst a. apply negb_true_iff, String.eqb_neq in Hb.
    split; [exists (n, d); now split | assumption].
  - intros [((a, d) & E & Hin) Hne]. simpl in *. subst a.
    exists (n, d). split; [reflexivity|]. apply filter_In. split; [assumption|].
    simpl. now apply negb_true_iff, String.eqb_neq.
Qed.

Lemma remove_absent name fs :
  ~ In name (Engine.names fs) -> Engine.remove name fs = fs.
Proof.
  unfold Engine.names, Engine.remove. induction fs as [|[a d] fs IH]; simpl;
    [reflexivity|].
  intros Hn. destruct (String.eqb_spec a name) as [->|Hne]; simpl.
  - exfalso. apply Hn. now left.
  - f_equal. apply IH. intros Hin. apply Hn. now right.
Qed.

Lemma names_put name data fs :
  Engine.names (Engine.put name data fs)
  = (Engine.names (Engine.remove name fs) ++ [name])%list.
Proof. unfold Engine.put, Engine.names. now rewrite map_app. Qed.

Lemma names_put_keeps (n o : string) (d : bytes) (fs : Vfs) :
  In n (Engine.names fs) -> In n (Engine.names (Engine.put o d fs)).
Proof.
  intros Hin. rewrite names_put. apply in_or_app.
  destruct (string_dec n o) as [->|Hne]; [right; now left|].
  left. now apply names_remove.
Qed.

Lemma names_putAll_keeps (n : string) (entries : list (string * bytes)) :
  forall fs, In n (Engine.names fs) ->
             In n (Engine.names (Engine.putAll entries fs)).
Proof.
  unfold Engine.putAll.
  induction entries as [|[o d] entries IH]; intros fs Hin; simpl; [exact Hin|].
  now apply IH, names_put_keeps.
Qed.

Lemma names_put_self (o : string) (d : bytes) (fs : Vfs) :
  In o (Engine.names (Engine.put o d fs)).
Proof. rewrite names_put. apply in_or_app. right. now left. Qed.

(** The written input is listed once the command has settled. *)
Lemma afterExec_lists_input (env : Env) (sanitized : string) (f : File) (fs : Vfs) :
  In sanitized (Engine.names (afterExec env sanitized f fs)).
Proof. unfold afterExec. apply names_putAll_keeps, names_put_self. Qed.

Lemma NoDup_snoc {A} (l : list A) (x : A) :
  NoDup (l ++ [x]) <-> NoDup l /\ ~ In x l.
Proof.
  induction l as [|y l IH]; simpl.
  - split; [intros _; split; [constructor | tauto] | intros _; repeat constructor; tauto].
  - split.
    + intros H. inversion H as [|? ? Hy Hl]; subst. apply IH in Hl as [Hl Hx].
      split.
      * constructor; [|exact Hl]. intros Hin. apply Hy, in_or_app. now left.
      * intros [->|Hin]; [|contradiction]. apply Hy, in_or_app. right. now left.
    + intros [H Hx]. inversion H as [|? ? Hy Hl]; subst.
      constructor.
      * intros Hin. apply in_app_or in Hin as [Hin|[->|[]]]; [contradiction|].
        apply Hx. now left.
      * apply IH. split; [exact Hl|]. intros Hin. apply Hx. now right.
Qed.

Lemma get_some_listed (name : string) (fs : Vfs) (d : bytes) :
  Engine.get name fs = Some d -> In name (Engine.names fs).
Proof.
  unfold Engine.names. induction fs as [|[a x] fs IH]; simpl; [discriminate|].
  destruct (String.eqb_spec a name) as [->|Hne]; [now left | right; now apply IH].
Qed.

Lemma get_none_unlisted (name : string) (fs : Vfs) :
  Engine.get name fs = None -> ~ In name (Engine.names fs).
Proof.
  unfold Engine.names. induction fs as [|[a x] fs IH]; simpl; [tauto|].
  destruct (String.eqb_spec a name) as [->|Hne]; [discriminate|].
  intros H [E|Hin]; [now apply Hne | now apply IH].
Qed.

(** A deletion goes through exactly when it is not made to reject and the
    entry is there; a rejected one leaves the filesystem as it was. *)
Lemma deleteFile_run missing fault name w c w' :
  Engine.deleteFile missing fault name w = (c, w') ->
  sameDisplay w w' /\
  match c with
  | Normal _ =>
      fault = None /\ In name (Engine.names (vfs w)) /\
      vfs w' = Engine.remove name (vfs w)
  | Throw e =>
      vfs w' = vfs w /\
      (fault = Some e \/
       fault = None /\ e = missing /\ ~ In name (Engine.names (vfs w)))
  end.
Proof.
  munfold. destruct fault as [e0|]; intros H.
  - inversion H; subst; clear H. split; [repeat split|]. split; [reflexivity | now left].
  - simpl in H. destruct (Engine.get name (vfs w)) as [d|] eqn:Eg;
      inversion H; subst; clear H; (split; [repeat split|]).
    + split; [reflexivity|]. split; [eapply get_some_listed; eassumption | reflexivity].
    + apply get_none_unlisted in Eg. wproj.
      split; [now apply remove_absent | right; now repeat split].
Qed.

Lemma readFile_run missing fault name w c w' :
  Engine.readFile missing fault name w = (c, w') ->
  sameDisplay w w' /\ vfs w' = vfs w.
Proof.
  munfold. destruct fault; intros H; inversion H; subst; clear H;
    (split; [repeat split | reflexivity]).
Qed.

(** ** The deletions after the download (lines 152-154) *)

Section Loops.

Variable sanitizeFilename : string -> string.
Variable env : Env.

(** The deletions of lines 152-154 over the names [l].  They all go through
    only if the names are pairwise distinct and listed; the first that is
    rejected is so by the collaborator, or because its entry is not there:
    it never was, or an earlier deletion of the same name took it. *)
Lemma delete_outputs_run (l : list string) : forall w c w',
  forEach l (fun o => Engine.deleteFile (missingEntry env) (deleteFileFault env o) o) w = (c, w') ->
  sameDisplay w w' /\
  (forall n, In n (Engine.names (vfs w')) -> In n (Engine.names (vfs w))) /\
  match c with
  | Normal _ =>
      (forall n, In n (Engine.names (vfs w')) -> ~ In n l) /\
      (forall n, In n (Engine.names (vfs w)) -> ~ In n l ->
                 In n (Engine.names (vfs w'))) /\
      NoDup l /\
      (forall o, In o l -> In o (Engine.names (vfs w)))
  | Throw e =>
      exists o, In o l /\
                (deleteFileFault env o = Some e \/
                 e = missingEntry env /\ deleteFileFault env o = None /\
                 (~ In o (Engine.names (vfs w)) \/ ~ NoDup l))
  end.
Proof.
  induction l as [|o l IH]; intros w c w' H; simpl in H.
  - munfold. inversion H; subst. split; [apply sameDisplay_refl|].
    split; [auto|]. split; [intros n _ []|]. split; [auto|].
    split; [constructor | intros o []].
  - unfold bind in H.
    destruct (Engine.deleteFile (missingEntry env) (deleteFileFault env o) o w) as [c1 w1] eqn:E1.
    apply deleteFile_run in E1 as [Hd Hc]. destruct c1 as [[]|e].
    + destruct Hc as (_ & Hpresent & Hv). apply IH in H as (Hd' & Hsub & Hdone).
      split; [eapply sameDisplay_trans; eassumption|]. split.
      * intros n Hn. apply Hsub in Hn. rewrite Hv in Hn.
        now apply names_remove in Hn.
      * destruct c as [u|e].
        -- destruct Hdone as (Hgone & Hkept & Hnd & Hlisted).
           split; [|split; [|split]].
           ++ intros n Hn [<-|Hin].
              ** apply Hsub in Hn. rewrite Hv in Hn. apply names_remove in Hn.
                 now destruct Hn.
              ** now apply (Hgone n).
           ++ intros n Hn Hnot. apply Hkept.
              ** rewrite Hv. apply names_remove. split; [exact Hn|].
                 intros ->. apply Hnot. now left.
              ** intros Hin. apply Hnot. now right.
           ++ constructor; [|exact Hnd]. intros Hin.
              apply Hlisted in Hin. rewrite Hv in Hin.
              apply names_remove in Hin. now destruct Hin.
           ++ intros o' [<-|Hin]; [exact Hpresent|].
              apply Hlisted in Hin. rewrite Hv in Hin.
              now apply names_remove in Hin.
        -- destruct Hdone as (o' & Hin & Hf). exists o'. split; [now right|].
           destruct Hf as [Hf|(He & Hf & Hwhy)]; [now left|].
           right. split; [exact He|]. split; [exact Hf|].
           destruct Hwhy as [Habs|Hdup].
           ++ destruct (string_dec o' o) as [->|Hne].
              ** right. intros Hnd. inversion Hnd; subst. contradiction.
              ** left. intros Hl. apply Habs. rewrite Hv.
                 apply names_remove. now split.
           ++ right. intros Hnd. inversion Hnd; subst. contradiction.
    + destruct Hc as [Hv Hf]. inversion H; subst.
      split; [assumption|]. split; [now rewrite Hv|].
      exists o. split; [now left|].
      destruct Hf as [Hf|(Hf & He & Habs)]; [now left|].
      right. split; [exact He|]. split; [exact Hf|]. now left.
Qed.

(** ** The cleanup of the [catch] block (lines 178-190) *)

Lemma cleanup_loop_run (sanitized : string) (l : list string) : forall w,
  exists w',
    forEach l
      (fun name =>
         if isResidue sanitized name
         then tryCatch (Engine.deleteFile (missingEntry env) (cleanupDeleteFault env name) name)
                       (fun _ => ret tt)
         else ret tt) w = (Normal tt, w') /\
    sameDisplay w w' /\
    (forall n, In n (Engine.names (vfs w')) -> In n (Engine.names (vfs w))) /\
    (forall n, In n (Engine.names (vfs w')) -> In n l ->
               isResidue sanitized n = true ->
               cleanupDeleteFault env n <> None).
Proof.
  induction l as [|o l IH]; intros w; simpl.
  - exists w. split; [reflexivity|]. split; [apply sameDisplay_refl|].
    split; [auto|]. intros n _ [].
  - unfold bind at 1. destruct (isResidue sanitized o) eqn:Eres.
    + unfold tryCatch at 1.
      destruct (Engine.deleteFile (missingEntry env) (cleanupDeleteFault env o) o w) as [c1 w1] eqn:E1.
      apply deleteFile_run in E1 as [Hd Hc].
      destruct (IH w1) as (w' & Erun & Hd' & Hsub & Hclr).
      exists w'.
      destruct c1 as [[]|e];
        [| change (ret tt w1) with (@Normal unit tt, w1); cbv beta iota ];
        rewrite Erun;
        (split; [reflexivity|]);
        (split; [eapply sameDisplay_trans; eassumption|]).
      * destruct Hc as (_ & _ & Hv). split.
        -- intros n Hn. apply Hsub in Hn. rewrite Hv in Hn.
           now apply names_remove in Hn.
        -- intros n Hn [<-|Hin]; [|now apply Hclr].
           apply Hsub in Hn. rewrite Hv in Hn. apply names_remove in Hn.
           now destruct Hn.
      * destruct Hc as [Hv Hf]. split.
        -- intros n Hn. apply Hsub in Hn. now rewrite Hv in Hn.
        -- intros n Hn [<-|Hin]; [|now apply Hclr].
           intros _. destruct Hf as [Hf|(_ & _ & Habs)].
           ++ rewrite Hf. discriminate.
           ++ exfalso. apply Habs. rewrite <- Hv. now apply Hsub.
    + change (ret tt w) with (@Normal unit tt, w). cbv beta iota.
      destruct (IH w) as (w' & Erun & Hd' & Hsub & Hclr).
      exists w'. rewrite Erun. split; [reflexivity|]. split; [assumption|].
      split; [assumption|].
      intros n Hn [<-|Hin]; [congruence | now apply Hclr].
Qed.

(** The cleanup never throws, touches only the engine and never adds an
    entry.  When its listing goes through, an entry that is the written
    input or has the output prefix is left behind only if its deletion was
    rejected. *)
Lemma cleanup_run (f : File) (w : World) :
  exists w',
    cleanup sanitizeFilename env f true w = (Normal tt, w') /\
    sameDisplay w w' /\
    (forall n, In n (Engine.names (vfs w')) -> In n (Engine.names (vfs w))) /\
    (cleanupListDirFault env = None ->
     forall n, In n (Engine.names (vfs w')) ->
               isResidue (sanitizeFilename (fileName f)) n = true ->
               cleanupDeleteFault env n <> None).
Proof.
  unfold cleanup, tryCatch at 1, bind at 1, Engine.listDir, Engine.call.
  destruct (cleanupListDirFault env) as [e|] eqn:El.
  - eexists. split; [reflexivity|]. split; [repeat split|].
    split; [auto | discriminate].
  - match goal with
    | |- context [forEach ?l ?b ?w0] =>
        destruct (cleanup_loop_run (sanitizeFilename (fileName f)) l w0)
          as (w' & Erun & Hd & Hsub & Hclr)
    end.
    exists w'. rewrite Erun. split; [reflexivity|].
    split; [eapply sameDisplay_trans; [|exact Hd]; repeat split|].
    split; [exact Hsub|].
    intros _ n Hn. apply (Hclr n Hn). now apply Hsub.
Qed.

(** The [catch] block: unless the derivation of the message itself throws,
    it shows the message, clears the status and runs the cleanup. *)
Lemma handleFailure_run (f : File) (err : JsValue) (w : World) :
  match Js.describeWith "err" "Error processing file: " "Unknown error occurred" err with
  | Throw e => handleFailure sanitizeFilename env f true err w = (Throw e, w)
  | Normal shown =>
      exists w',
        handleFailure sanitizeFilename env f true err w = (Normal Failed, w') /\
        error w' = shown /\ status w' = "" /\
        isProcessing w' = isProcessing w /\
        progressLog w' = progressLog w /\ downloads w' = downloads w /\
        (forall n, In n (Engine.names (vfs w')) -> In n (Engine.names (vfs w))) /\
        (cleanupListDirFault env = None ->
         forall n, In n (Engine.names (vfs w')) ->
                   isResidue (sanitizeFilename (fileName f)) n = true ->
                   cleanupDeleteFault env n <> None)
  end.
Proof.
  unfold handleFailure, bind at 1, lift.
  destruct (Js.describeWith _ _ _ err) as [shown|e]; [|reflexivity].
  unfold bind at 1, act at 1, bind at 1, act at 1, bind at 1.
  destruct (cleanup_run f (setStatus "" (setError shown w)))
    as (w' & -> & Hd & Hsub & Hclr).
  exists w'. unfold ret. split; [reflexivity|].
  unfold sameDisplay in Hd. simpl in Hd.
  repeat match goal with H : _ /\ _ |- _ => destruct H end.
  repeat split; assumption.
Qed.

End Loops.

(* ===================================================================== *)
(** * Segment numbers and archive entry names *)
(* ===================================================================== *)

Lemma ofChars_zeros_decode (k : nat) (s : string) (d : uint) :
  NilEmpty.uint_of_string s = Some d ->
  exists d', NilEmpty.uint_of_string (JsString.ofChars (repeat "0"%char k) ++ s)
             = Some d' /\ Nat.of_uint d' = Nat.of_uint d.
Proof.
  intros Hs. induction k as [|k (d' & E & Hd)]; simpl.
  - now exists d.
  - exists (D0 d'). rewrite E. now split.
Qed.

(** The segment number of index [i] reads back as [i + 1]. *)
Lemma segmentNumber_decode (i : nat) : ordinalOf (segmentNumber i) = Some (i + 1).
Proof.
  unfold ordinalOf, segmentNumber, JsString.padStart, JsString.ofNat.
  destruct (ofChars_zeros_decode
              (2 - String.length (NilEmpty.string_of_uint (Nat.to_uint (i + 1))))
              _ _ (NilEmpty.usu (Nat.to_uint (i + 1)))) as (d' & -> & Hd).
  simpl. now rewrite Hd, DecimalNat.Unsigned.of_to.
Qed.

Lemma segmentNumber_inj (i k : nat) : segmentNumber i = segmentNumber k -> i = k.
Proof.
  intros H. pose proof (segmentNumber_decode i) as Hi.
  rewrite H, segmentNumber_decode in Hi. injection Hi. lia.
Qed.


Lemma segmentNumber_two_digits (i : nat) :
  i + 1 <= 99 -> String.length (segmentNumber i) = 2.
Proof.
  intros H.
  assert (Hall : forallb (fun k => (String.length (segmentNumber k) =? 2)%nat)
                         (seq 0 99) = true) by (vm_compute; reflexivity).
  rewrite forallb_forall in Hall. apply Nat.eqb_eq, Hall, in_seq. lia.
Qed.

Lemma zipFileName_inj (baseName outputExt : string) (i k : nat) :
  zipFileName baseName outputExt i = zipFileName baseName outputExt k -> i = k.
Proof.
  unfold zipFileName. intros H.
  apply append_inv_head, append_inv_head, append_inv_tail in H.
  now apply segmentNumber_inj.
Qed.

Lemma get_present (name : string) (fs : Vfs) :
  In name (Engine.names fs) -> exists d, Engine.get name fs = Some d.
Proof.
  unfold Engine.names. induction fs as [|[a d] fs IH]; simpl; [intros []|].
  intros [->|Hin].
  - rewrite String.eqb_refl. now exists d.
  - destruct (String.eqb a name); [now exists d | now apply IH].
Qed.

(* ===================================================================== *)
(** * The [try] block, stage by stage *)
(* ===================================================================== *)

Section Sorting.

Variable localeCompare : string -> string -> comparison.

Lemma insertByName_in (x n : string) (l : list string) :
  In n (insertByName localeCompare x l) <-> n = x \/ In n l.
Proof.
  induction l as [|y l IH]; simpl; [intuition|].
  destruct (localeCompare x y); simpl; rewrite ?IH; intuition.
Qed.

Lemma sortByName_in (n : string) (l : list string) :
  In n (sortByName localeCompare l) <-> In n l.
Proof.
  induction l as [|x l IH]; simpl; [reflexivity|].
  rewrite insertByName_in, IH. intuition.
Qed.

Lemma insertByName_length (x : string) (l : list string) :
  List.length (insertByName localeCompare x l) = S (List.length l).
Proof.
  induction l as [|y l IH]; simpl; [reflexivity|].
  destruct (localeCompare x y); simpl; now rewrite ?IH.
Qed.

Lemma sortByName_length (l : list string) :
  List.length (sortByName localeCompare l) = List.length l.
Proof.
  induction l as [|x l IH]; simpl; [reflexivity|].
  now rewrite insertByName_length, IH.
Qed.

(** The sorted outputs are the listed names that pass the filter. *)
Lemma outputFilesOf_in (outputExt n : string) (files : list string) :
  In n (outputFilesOf localeCompare outputExt files) <->
  In n files /\ isOutputFile outputExt n = true.
Proof. unfold outputFilesOf. now rewrite sortByName_in, filter_In. Qed.

Lemma outputFilesOf_length (outputExt : string) (files : list string) :
  List.length (outputFilesOf localeCompare outputExt files)
  = List.length (filter (isOutputFile outputExt) files).
Proof. unfold outputFilesOf. apply sortByName_length. Qed.

End Sorting.

Section SortFacts.

Variable localeCompare : string -> string -> comparison.

Lemma insertByName_perm (x : string) (l : list string) :
  Permutation (x :: l) (insertByName localeCompare x l).
Proof.
  induction l as [|y l IH]; simpl; [apply Permutation_refl|].
  destruct (localeCompare x y); try apply Permutation_refl.
  eapply perm_trans; [apply perm_swap | now apply perm_skip].
Qed.

Lemma sortByName_perm (l : list string) :
  Permutation l (sortByName localeCompare l).
Proof.
  unfold sortByName. induction l as [|x l IH]; simpl; [constructor|].
  eapply perm_trans; [apply perm_skip, IH | apply insertByName_perm].
Qed.

Hypothesis antisymmetric :
  forall a b, localeCompare a b = Gt -> localeCompare b a <> Gt.

Lemma insertByName_sorted (x : string) (l : list string) :
  Sorted (fun a b => localeCompare a b <> Gt) l ->
  Sorted (fun a b => localeCompare a b <> Gt) (insertByName localeCompare x l).
Proof.
  induction l as [|y l IH]; intros Hs; simpl.
  - constructor; constructor.
  - destruct (localeCompare x y) eqn:E.
    + constructor; [exact Hs|]. constructor. congruence.
    + constructor; [exact Hs|]. constructor. congruence.
    + inversion Hs as [|? ? Hl Hhd]; subst.
      constructor; [now apply IH|].
      destruct l as [|z l]; simpl.
      * constructor. now apply antisymmetric.
      * destruct (localeCompare x z);
          constructor; try (now apply antisymmetric);
          now inversion Hhd.
Qed.

Lemma sortByName_sorted (l : list string) :
  Sorted (fun a b => localeCompare a b <> Gt) (sortByName localeCompare l).
Proof.
  unfold sortByName. induction l as [|x l IH]; simpl; [constructor|].
  now apply insertByName_sorted.
Qed.

End SortFacts.

(** ** Names are listed once *)

Lemma names_remove_filter (name : string) (fs : Vfs) :
  Engine.names (Engine.remove name fs)
  = filter (fun n => negb (String.eqb n name)) (Engine.names fs).
Proof.
  unfold Engine.names, Engine.remove.
  induction fs as [|[a d] fs IH]; simpl; [reflexivity|].
  destruct (String.eqb a name); simpl; now rewrite IH.
Qed.

Lemma NoDup_names_put (o : string) (d : bytes) (fs : Vfs) :
  NoDup (Engine.names fs) -> NoDup (Engine.names (Engine.put o d fs)).
Proof.
  intros H. rewrite names_put. apply NoDup_snoc. split.
  - rewrite names_remove_filter. now apply NoDup_filter.
  - intros Hin. apply names_remove in Hin. now destruct Hin.
Qed.

Lemma NoDup_names_putAll (entries : list (string * bytes)) :
  forall fs, NoDup (Engine.names fs) ->
             NoDup (Engine.names (Engine.putAll entries fs)).
Proof.
  unfold Engine.putAll.
  induction entries as [|[o d] entries IH]; intros fs H; simpl; [exact H|].
  now apply IH, NoDup_names_put.
Qed.

Lemma NoDup_outputFilesOf (localeCompare : string -> string -> comparison)
      (outputExt : string) (files : list string) :
  NoDup files -> NoDup (outputFilesOf localeCompare outputExt files).
Proof.
  intros H. unfold outputFilesOf.
  eapply Permutation_NoDup; [apply sortByName_perm|]. now apply NoDup_filter.
Qed.

Section ArchiveLoop.

Variable env : Env.

Lemma archiveLoop_run (baseName outputExt : string) (total : nat) :
  forall (rest : list string) (i : nat) (zip : Zip) (w : World) c w',
    (forall o, In o rest -> In o (Engine.names (vfs w))) ->
    (forall k, i <= k -> ~ In (zipFileName baseName outputExt k) (map fst zip)) ->
    archiveLoop env baseName outputExt total i rest zip w = (c, w') ->
    vfs w' = vfs w /\ downloads w' = downloads w /\
    match c with
    | Normal z =>
        progressLog w'
        = (progressLog w
           ++ map (fun k => archivingProgress k total) (seq i (List.length rest)))%list /\
        z = (zip ++ combine (map (zipFileName baseName outputExt)
                                 (seq i (List.length rest)))
                            (map (dataOf (vfs w)) rest))%list
    | Throw e =>
        exists j o, nth_error rest j = Some o /\ readFileFault env o = Some e /\
                    progressLog w'
                    = (progressLog w
                       ++ map (fun k => archivingProgress k total) (seq i j))%list
    end.
Proof.
  induction rest as [|o rest IH]; intros i zip w c w' Hin Hfresh H; simpl in H.
  - munfold. inversion H; subst. simpl. now rewrite !List.app_nil_r.
  - unfold bind at 1, Engine.readFile, Engine.call in H.
    destruct (readFileFault env o) as [e|] eqn:Ef.
    + inversion H; subst. simpl. repeat split.
      exists 0, o. simpl. now rewrite List.app_nil_r.
    + destruct (get_present o (vfs w) (Hin o (or_introl eq_refl))) as (d & Ed).
      simpl in H. rewrite Ed in H. unfold bind at 1, act at 1 in H.
      apply IH in H.
      * destruct H as (Hv & Hdl & Hc). simpl in Hv, Hdl.
        split; [exact Hv|]. split; [exact Hdl|].
        destruct c as [z|e].
        -- destruct Hc as [Hp Hz]. simpl in Hp, Hz. split.
           ++ rewrite Hp, <- List.app_assoc. reflexivity.
           ++ rewrite Hz. unfold zipFile, Engine.put.
              rewrite remove_absent by (apply Hfresh; lia).
              rewrite <- List.app_assoc. simpl. unfold dataOf at 2. now rewrite Ed.
        -- destruct Hc as (j & o' & Hn & Hf & Hp). exists (S j), o'.
           simpl in *. repeat split; try assumption.
           rewrite Hp, <- List.app_assoc. reflexivity.
      * simpl. intros o' Ho'. apply Hin. now right.
      * intros k Hk. unfold zipFile, Engine.put.
        rewrite remove_absent by (apply Hfresh; lia).
        rewrite map_app, in_app_iff. simpl. intros [Hz|[Hz|[]]].
        -- apply (Hfresh k); [lia | assumption].
        -- apply zipFileName_inj in Hz. lia.
Qed.

End ArchiveLoop.

Section BodyRun.

Variable sanitizeFilename : string -> string.
Variable getFileExtension : string -> string.
Variable localeCompare : string -> string -> comparison.
Variable env : Env.

Lemma processBody_run (f : File) (segLen : Num) (w : World) c w' :
  processBody sanitizeFilename getFileExtension localeCompare env f segLen w
    = (c, w') ->
  let sanitized := sanitizeFilename (fileName f) in
  let outputExt := outputExtOf getFileExtension sanitized in
  let baseName := baseNameOf sanitized in
  let fs := afterExec env sanitized f (vfs w) in
  let outs := outputFilesOf localeCompare outputExt (Engine.names fs) in
  exists s : Stage,
    passed env s /\
    stoppedAt env sanitized outs s c /\
    progressLog w' = (progressLog w ++ emittedIn (List.length outs) s)%list /\
    downloads w' = (downloads w ++ deliveredIn baseName outputExt fs outs s)%list /\
    (s = Completed ->
     forall n, In n (Engine.names (vfs w')) ->
               In n (Engine.names fs) /\ n <> sanitized /\ ~ In n outs).
Proof.
  intros H sanitized outputExt baseName fs outs.
  unfold processBody in H. cbv zeta in H.
  fold sanitized in H. fold outputExt in H. fold baseName in H.
  unfold bind, act, lift, tryCatch, throw, ret, Engine.writeFile, Engine.exec,
    Engine.listDir, Engine.call in H.
  destruct (arrayBufferFault env) as [e|] eqn:Eab.
  { inversion H; subst. exists Loading. split; [repeat split; assumption|]. simpl.
    rewrite !List.app_nil_r. repeat split; eauto; discriminate. }
  destruct (writeFileFault env) as [e|] eqn:Ewf.
  { inversion H; subst. exists Writing. split; [repeat split; assumption|]. simpl.
    rewrite !List.app_nil_r. repeat split; eauto; discriminate. }
  destruct (execFault env) as [v|] eqn:Eex.
  { exists Segmenting. split; [repeat split; assumption|]. simpl.
    assert (Hc : c = Throw (segmentationError v)).
    { unfold segmentationError.
      destruct (Js.describeWith _ _ _ v); inversion H; reflexivity. }
    subst c.
    assert (Hw : progressLog w' = (progressLog w ++ [10%Q])%list /\
                 downloads w' = downloads w).
    { destruct (Js.describeWith _ _ _ v); inversion H; subst; now split. }
    destruct Hw as [-> ->]. rewrite List.app_nil_r.
    repeat split; eauto; discriminate. }
  destruct (listDirFault env) as [e|] eqn:Eld.
  { inversion H; subst. exists Listing. split; [repeat split; assumption|]. simpl.
    rewrite !List.app_nil_r, <- List.app_assoc.
    repeat split; eauto; discriminate. }
  match type of H with
  | context [Engine.names (vfs ?W)] => change (vfs W) with fs in H
  end.
  pose proof (eq_refl : outs = outputFilesOf localeCompare outputExt
                                             (Engine.names fs)) as Houts.
  assert (Hin : forall o, In o outs -> In o (Engine.names fs)).
  { intros o Ho. now apply outputFilesOf_in in Ho. }
  clearbody outs. rewrite <- Houts in H.
  destruct outs as [|o1 rest].
  { inversion H; subst. exists Collecting. split; [repeat split; assumption|]. simpl.
    rewrite !List.app_nil_r, <- List.app_assoc.
    repeat split; eauto; discriminate. }
  match type of H with
  | context [archiveLoop _ _ _ _ _ _ _ ?W0] => set (W := W0) in H
  end.
  assert (HW : progressLog W = (progressLog w ++ [10%Q; 60%Q; 70%Q])%list /\
               vfs W = fs /\ downloads W = downloads w).
  { subst W. simpl. rewrite <- !List.app_assoc. now repeat split. }
  destruct HW as (HWp & HWv & HWd). clearbody W.
  destruct (archiveLoop env baseName outputExt (List.length (o1 :: rest)) 0
                        (o1 :: rest) [] W) as [c1 w1] eqn:Eloop.
  apply archiveLoop_run in Eloop;
    [| now rewrite HWv | intros k _ [] ].
  destruct Eloop as (Hv1 & Hd1 & Hc1).
  rewrite HWv in Hv1. rewrite HWd in Hd1. rewrite HWp, HWv in Hc1.
  destruct c1 as [z|e].
  2:{ destruct Hc1 as (j & o & Hn & Hf & Hp). inversion H; subst.
      exists (Archiving j). split; [repeat split; assumption|].
      unfold stoppedAt, emittedIn, deliveredIn, archivingValues.
      rewrite Hp, Hd1, List.app_nil_r, <- List.app_assoc.
      split; [exists e, o; repeat split; assumption|].
      repeat split; discriminate. }
  destruct Hc1 as [Hp1 Hz].
  destruct (generateFault env) as [e|] eqn:Egen.
  { inversion H; subst. exists Finalizing. split; [repeat split; assumption|].
    unfold stoppedAt, emittedIn, deliveredIn, archivingValues. wproj.
    rewrite Hp1, Hd1, List.app_nil_r, <- !List.app_assoc.
    split; [exists e; repeat split; auto; discriminate|].
    repeat split; discriminate. }
  match type of H with
  | context [forEach _ _ ?W0] => set (W2 := W0) in H
  end.
  assert (HW2 : progressLog W2 = (progressLog w1 ++ [95%Q])%list /\
                vfs W2 = vfs w1 /\
                downloads W2
                = (downloads w1 ++ [((baseName ++ "_segments.zip")%string, z)])%list).
  { subst W2. now repeat split. }
  destruct HW2 as (HW2p & HW2v & HW2d). clearbody W2.
  destruct (forEach (o1 :: rest)
                    (fun outputFile =>
                       Engine.deleteFile (missingEntry env) (deleteFileFault env outputFile) outputFile)
                    W2) as [c2 w2] eqn:Edel.
  apply delete_outputs_run in Edel as (Hs2 & Hsub2 & Hc2).
  rewrite HW2v, Hv1 in Hsub2, Hc2.
  assert (Hp2 : progressLog w2 = progressLog W2 /\ downloads w2 = downloads W2).
  { unfold sameDisplay in Hs2. tauto. }
  destruct Hp2 as [Hp2 Hd2].
  assert (Epd : progressLog w2
                = (progressLog w ++ emittedIn (List.length (o1 :: rest)) Releasing)%list /\
                downloads w2
                = (downloads w ++ deliveredIn baseName outputExt fs (o1 :: rest)
                                             Releasing)%list).
  { rewrite Hp2, Hd2, HW2p, HW2d, Hp1, Hd1, Hz. unfold emittedIn, archivingValues.
    rewrite <- !List.app_assoc. now split. }
  destruct Epd as [Ep Ed].
  destruct c2 as [u|e].
  2:{ destruct Hc2 as (o & Ho & Hf). inversion H; subst.
      exists Releasing. split; [repeat split; assumption|].
      split; [|split; [exact Ep | split; [exact Ed | intros HC; discriminate HC]]].
      exists e, o. split; [reflexivity|]. split; [now left|].
      split; [|discriminate].
      destruct Hf as [Hf|(He & Hf & Hwhy)]; [now left|].
      right. split; [exact He|]. split; [exact Hf|].
      intros Hnd. apply NoDup_snoc in Hnd as [Hnd _].
      destruct Hwhy as [Habs|Hdup]; [apply Habs; now apply Hin | now apply Hdup]. }
  destruct Hc2 as (Hgone2 & Hkept2 & Hnd2 & _).
  destruct (Engine.deleteFile (missingEntry env) (deleteFileFault env sanitized) sanitized w2)
    as [c3 w3] eqn:Edel3.
  apply deleteFile_run in Edel3 as (Hs3 & Hc3).
  assert (Hp3 : progressLog w3 = progressLog w2 /\ downloads w3 = downloads w2).
  { unfold sameDisplay in Hs3. tauto. }
  destruct Hp3 as [Hp3 Hd3].
  destruct c3 as [u3|e].
  2:{ destruct Hc3 as [_ Hf]. inversion H; subst.
      exists Releasing. split; [repeat split; assumption|]. rewrite Hp3, Hd3.
      split; [|split; [exact Ep | split; [exact Ed | intros HC; discriminate HC]]].
      exists e, sanitized. split; [reflexivity|]. split; [now right|].
      split; [|discriminate].
      destruct Hf as [Hf|(Hf & He & Habs)]; [now left|].
      right. split; [exact He|]. split; [exact Hf|].
      intros Hnd. apply NoDup_snoc in Hnd as [_ Hnot].
      apply Habs, Hkept2; [apply afterExec_lists_input | exact Hnot]. }
  destruct Hc3 as (_ & Hpresent3 & Hv3). inversion H; subst c w'. clear H.
  exists Completed. split; [repeat split; assumption|].
  split.
  { split; [reflexivity|]. split; [discriminate|].
    apply NoDup_snoc. split; [exact Hnd2|]. intros Hino.
    now apply (Hgone2 sanitized Hpresent3). }
  split; [|split].
  - simpl. rewrite Hp3, Ep. unfold emittedIn. rewrite <- !List.app_assoc. reflexivity.
  - simpl. rewrite Hd3, Ed. reflexivity.
  - intros _ n Hn. simpl in Hn. rewrite Hv3 in Hn.
    apply names_remove in Hn as [Hn Hne].
    split; [|split; [exact Hne | now apply Hgone2]].
    now apply Hsub2 in Hn.
Qed.

Lemma stoppedAt_normal (sanitized : string) (outs : list string) (s : Stage)
      (x : Exit) :
  stoppedAt env sanitized outs s (Normal x) -> s = Completed /\ x = Succeeded.
Proof.
  destruct s; simpl; intros H;
    repeat match goal with
           | H : exists _, _ |- _ => destruct H
           | H : _ /\ _ |- _ => destruct H
           end; try discriminate.
  split; [reflexivity | congruence].
Qed.

(** A run that passes the precondition checks, as a whole: the stage its
    [try] block stopped at fixes the progress values emitted and the
    archive delivered; the [finally] clause clears the processing flag; the
    [catch] block turns a thrown value into the [Failed] exit unless the
    derivation of the message throws. *)
Lemma handleProcess_run (w : World) (f : File) c w' :
  accepted w f ->
  handleProcess sanitizeFilename getFileExtension localeCompare env w = (c, w') ->
  let sanitized := sanitizeFilename (fileName f) in
  let outputExt := outputExtOf getFileExtension sanitized in
  let baseName := baseNameOf sanitized in
  let fs := afterExec env sanitized f (vfs w) in
  let outs := outputFilesOf localeCompare outputExt (Engine.names fs) in
  exists (s : Stage) (cb : Completion Exit),
    passed env s /\
    stoppedAt env sanitized outs s cb /\
    progressLog w' = (progressLog w ++ 0%Q :: emittedIn (List.length outs) s)%list /\
    downloads w' = (downloads w ++ deliveredIn baseName outputExt fs outs s)%list /\
    isProcessing w' = false /\
    match cb with
    | Normal _ =>
        c = Normal Succeeded /\ s = Completed /\
        (forall n, In n (Engine.names (vfs w')) ->
                   In n (Engine.names fs) /\ n <> sanitized /\ ~ In n outs)
    | Throw err =>
        match Js.describeWith "err" "Error processing file: "
                              "Unknown error occurred" err with
        | Throw e => c = Throw e
        | Normal shown =>
            c = Normal Failed /\ error w' = shown /\ status w' = "" /\
            (cleanupListDirFault env = None ->
             forall n, In n (Engine.names (vfs w')) ->
                       isResidue sanitized n = true ->
                       cleanupDeleteFault env n <> None)
        end
    end.
Proof.
  intros Hacc H sanitized outputExt baseName fs outs.
  rewrite (accepted_run _ _ _ _ _ _ Hacc) in H.
  unfold tryFinally, tryCatch in H.
  match type of H with
  | context [processBody _ _ _ _ _ _ ?W0] => set (W := W0) in H
  end.
  assert (HW : progressLog W = (progressLog w ++ [0%Q])%list /\
               vfs W = vfs w /\ downloads W = downloads w).
  { subst W. now repeat split. }
  destruct HW as (HWp & HWv & HWd).
  destruct (processBody sanitizeFilename getFileExtension localeCompare env f
                        (segmentLength w) W) as [cb wb] eqn:Eb.
  apply processBody_run in Eb. cbv zeta in Eb. rewrite HWv, HWp, HWd in Eb.
  fold sanitized outputExt baseName fs outs in Eb.
  destruct Eb as (s & Hpass & Hs & Hp & Hd & Hv).
  rewrite <- List.app_assoc in Hp. simpl in Hp.
  exists s, cb. split; [exact Hpass|]. split; [exact Hs|].
  destruct cb as [x|err].
  - destruct (stoppedAt_normal _ _ _ _ Hs) as [-> ->].
    unfold act in H. inversion H; subst c w'. clear H. wproj.
    repeat split; try assumption; now apply Hv.
  - pose proof (handleFailure_run sanitizeFilename env f err wb) as Hf.
    destruct (Js.describeWith "err" "Error processing file: "
                              "Unknown error occurred" err) as [shown|e].
    + destruct Hf as (w2 & E2 & He & Hst & Hip & Hp2 & Hd2 & Hsub & Hclr).
      rewrite E2 in H. unfold act in H. inversion H; subst c w'. clear H. wproj.
      rewrite Hp2, Hd2. repeat split; assumption.
    + rewrite Hf in H. unfold act in H. inversion H; subst c w'. clear H. wproj.
      repeat split; assumption.
Qed.

End BodyRun.

(* ===================================================================== *)
(** * Deriving a message from a thrown value *)
(* ===================================================================== *)

Lemma interpolable_total (v : JsValue) :
  interpolable v = true -> exists s, Js.interpolate v = Normal s.
Proof.
  destruct v as [| |[]|n|s|d|n m|m|m|t d [s|e]];
    simpl; intros H; try discriminate; eauto.
Qed.

Lemma not_interpolable_throws (v : JsValue) :
  interpolable v = false -> exists e, Js.interpolate v = Throw e.
Proof.
  destruct v as [| |[]|n|s|d|n m|m|m|t d [s|e]];
    simpl; intros H; try discriminate; eauto.
Qed.

(** The chain of line 105 and 173 on a value of a named shape whose
    [message] is not truthy: it throws only for want of a [toString]. *)
Lemma describe_without_message (expr fallback : string) (v : JsValue) :
  Js.truthy (Js.optMessage v) = false ->
  match v with
  | JBare _ =>
      Js.describe expr fallback v
      = Throw (JError "TypeError" (expr ++ "?.toString is not a function"))
  | JOther _ _ _ => True
  | _ => exists s, Js.describe expr fallback v = Normal (JStr s)
  end.
Proof.
  intros Hm. unfold Js.describe.
  destruct v as [| |[]|n|s|d|n m|m|m|t d i]; try exact I;
    rewrite ?Hm; simpl in *;
    repeat match goal with
           | |- context [if ?b then _ else _] => destruct b eqn:?; simpl
           end; eauto; try discriminate.
Qed.

(** On a describable value the derivation yields the prefix followed by a
    text; on any other value it throws. *)
Lemma describeWith_cases (expr prefix fallback : string) (v : JsValue) :
  if describable v
  then exists s, Js.describeWith expr prefix fallback v = Normal (prefix ++ s)
  else exists e, Js.describeWith expr prefix fallback v = Throw e.
Proof.
  unfold Js.describeWith.
  destruct (Js.truthy (Js.optMessage v)) eqn:Hm.
  - (* a truthy [message] is what gets interpolated *)
    assert (Hd : forall m, v = JObject m \/ v = JBare m ->
                           describable v = interpolable m /\
                           Js.describe expr fallback v = Normal m).
    { intros m [->| ->]; simpl in Hm; unfold Js.describe; simpl;
        rewrite Hm; now split. }
    destruct v as [| |[]|n|s|d|n m|m|m|t d i]; simpl in Hm; try discriminate.
    + unfold Js.describe. simpl. rewrite Hm. simpl. eauto.
    + destruct (Hd m (or_introl eq_refl)) as [-> ->].
      destruct (interpolable m) eqn:Ei.
      * destruct (interpolable_total m Ei) as [t ->]. eauto.
      * destruct (not_interpolable_throws m Ei) as [e ->]. eauto.
    + destruct (Hd m (or_intror eq_refl)) as [-> ->].
      destruct (interpolable m) eqn:Ei.
      * destruct (interpolable_total m Ei) as [t ->]. eauto.
      * destruct (not_interpolable_throws m Ei) as [e ->]. eauto.
  - pose proof (describe_without_message expr fallback v Hm) as H.
    destruct v as [| |[]|n|s|d|n m|m|m|t [s| |e] i];
      try (lazymatch type of H with
           | ex _ => destruct H as [t ->]; simpl; eauto
           end; fail).
    + simpl in Hm. destruct H as [t ->]. simpl. rewrite Hm. simpl. eauto.
    + rewrite H. simpl in Hm. simpl. rewrite Hm. simpl. eauto.
    + simpl. eauto.
    + simpl. eauto.
    + simpl. eauto.
Qed.

Lemma describeWith_total (expr prefix fallback : string) (v : JsValue) :
  describable v = true ->
  exists s, Js.describeWith expr prefix fallback v = Normal (prefix ++ s).
Proof.
  intros H. pose proof (describeWith_cases expr prefix fallback v) as Hc.
  now rewrite H in Hc.
Qed.


(** On a value of a named shape the derivation throws nothing but one of
    three [TypeError]s. *)
Lemma describeWith_throws_named (expr prefix fallback : string) (v e : JsValue) :
  named v = true ->
  Js.describeWith expr prefix fallback v = Throw e ->
  e = JError "TypeError" (expr ++ "?.toString is not a function") \/
  e = JError "TypeError" "Cannot convert object to primitive value" \/
  e = JError "TypeError" "Cannot convert a Symbol value to a string".
Proof.
  intros Hn. unfold Js.describeWith, Js.describe.
  destruct v as [| |[]|n|s|d|n m|m|m|t d i]; simpl in *;
    repeat match goal with
           | |- context [if ?b then _ else _] => destruct b eqn:?; simpl
           end; try discriminate;
    try (destruct m as [| |[]|n|s|d|n m'|m'|m'|t d i]; simpl in *;
         try discriminate);
    intros [= <-]; auto.
Qed.

(** What the [catch] of lines 103-107 throws for a rejection value that
    line 105 can describe: the wrapping [Error], which the [catch] block of
    line 170 shows as it is. *)
Lemma segmentationError_wrapped (v : JsValue) :
  describable v = true ->
  exists s,
    segmentationError v = JError "Error" ("FFmpeg processing failed: " ++ s) /\
    Js.describeWith "err" "Error processing file: " "Unknown error occurred"
                    (segmentationError v)
    = Normal ("Error processing file: " ++ "FFmpeg processing failed: " ++ s).
Proof.
  intros Hd. unfold segmentationError.
  destruct (describeWith_total "execErr" "FFmpeg processing failed: "
                               "FFmpeg execution failed" v Hd) as [s ->].
  exists s. split; reflexivity.
Qed.

(** The values of the named shapes: whatever line 105 makes of one, the
    [catch] block of line 170 can show it. *)
Lemma segmentationError_describable (v : JsValue) :
  named v = true -> describable (segmentationError v) = true.
Proof.
  intros Hn. unfold segmentationError.
  destruct (Js.describeWith _ _ _ v) as [msg|e] eqn:E; [reflexivity|].
  destruct (describeWith_throws_named _ _ _ _ _ Hn E) as [->|[->| ->]];
    reflexivity.
Qed.

(* ===================================================================== *)
(** * Cleanup of the engine's filesystem *)
(* ===================================================================== *)

Lemma isOutputFile_prefix (outputExt n : string) :
  isOutputFile outputExt n = true -> JsString.startsWith "out_" n = true.
Proof. unfold isOutputFile. intros H. now apply andb_true_iff in H. Qed.

(** C1, as amended.  In a run that passes the precondition checks:
    - if it ends in the [catch] block ([Failed]), whatever threw, and the
      cleanup's listing and deletions are not rejected, the engine's
      filesystem holds no entry named as the sanitized input and no entry
      whose name starts with [out_];
    - if it ends at the end of the [try] block ([Succeeded]), the filesystem
      holds no entry named as the sanitized input and no qualifying output;
    - in both cases, when the command wrote its outputs under names of the
      requested pattern, no entry written by the run is left. *)
Theorem settled_run_leaves_no_residue
        (sanitizeFilename getFileExtension : string -> string)
        (localeCompare : string -> string -> comparison)
        (env : Env) (w : World) (f : File) (c : Completion Exit) (w' : World) :
  accepted w f ->
  handleProcess sanitizeFilename getFileExtension localeCompare env w = (c, w') ->
  let sanitized := sanitizeFilename (fileName f) in
  let outputExt := outputExtOf getFileExtension sanitized in
  let cleanupGoesThrough :=
    cleanupListDirFault env = None /\ forall n, cleanupDeleteFault env n = None in
  (c = Normal Failed -> cleanupGoesThrough ->
   forall n, In n (Engine.names (vfs w')) ->
             n <> sanitized /\ JsString.startsWith "out_" n = false) /\
  (c = Normal Succeeded ->
   forall n, In n (Engine.names (vfs w')) ->
             n <> sanitized /\ isOutputFile outputExt n = false) /\
  (c = Normal Succeeded \/ c = Normal Failed /\ cleanupGoesThrough ->
   (forall o, In o (map fst (execOutputs env)) -> isOutputFile outputExt o = true) ->
   forall n, In n (sanitized :: map fst (execOutputs env)) ->
             ~ In n (Engine.names (vfs w'))).
Proof.
  intros Hacc Hrun sanitized outputExt cleanupGoesThrough.
  destruct (handleProcess_run _ _ _ _ _ _ _ _ Hacc Hrun)
    as (s & cb & _ & _ & _ & _ & _ & Hout).
  fold sanitized outputExt in Hout.
  assert (Hfailed : c = Normal Failed -> cleanupGoesThrough ->
                    forall n, In n (Engine.names (vfs w')) ->
                              isResidue sanitized n = false).
  { intros Hc [Hl Hd] n Hn. destruct cb as [x|err].
    - destruct Hout as [Hc' _]. congruence.
    - destruct (Js.describeWith _ _ _ err); [|congruence].
      destruct Hout as (_ & _ & _ & Hclr).
      destruct (isResidue sanitized n) eqn:Er; [|reflexivity].
      exfalso. now apply (Hclr Hl n Hn Er). }
  assert (Hsucc : c = Normal Succeeded ->
                  forall n, In n (Engine.names (vfs w')) ->
                            n <> sanitized /\ isOutputFile outputExt n = false).
  { intros Hc n Hn. destruct cb as [x|err].
    - destruct Hout as (_ & _ & Hclean).
      destruct (Hclean n Hn) as (Hfs & Hne & Hno). split; [exact Hne|].
      destruct (isOutputFile outputExt n) eqn:Eo; [|reflexivity].
      exfalso. apply Hno. apply outputFilesOf_in. split; assumption.
    - destruct (Js.describeWith _ _ _ err); [destruct Hout|]; congruence. }
  split; [|split].
  - intros Hc Hgo n Hn. pose proof (Hfailed Hc Hgo n Hn) as Hr.
    unfold isResidue in Hr. apply orb_false_iff in Hr as [Hr1 Hr2].
    split; [now apply String.eqb_neq | exact Hr2].
  - exact Hsucc.
  - intros Hsettled Hpattern n Hwritten Hn.
    assert (Hres : isResidue sanitized n = true
                   /\ (n = sanitized \/ isOutputFile outputExt n = true)).
    { unfold isResidue. destruct Hwritten as [<-|Ho].
      - rewrite String.eqb_refl. split; [reflexivity | now left].
      - pose proof (Hpattern n Ho) as Hp.
        rewrite (isOutputFile_prefix _ _ Hp), orb_true_r. split; [reflexivity | now right]. }
    destruct Hres as [Hres Hkind].
    destruct Hsettled as [Hc|[Hc Hgo]].
    + destruct (Hsucc Hc n Hn) as [Hne Hno].
      destruct Hkind as [->|Hp]; [now apply Hne | congruence].
    + rewrite (Hfailed Hc Hgo n Hn) in Hres. discriminate.
Qed.

Lemma settled_run_leaves_no_residue_witness :
  exists w',
    Fixture.run (Fixture.execRejects (JStr "Conversion failed!")
                                     [("out_00.mp4", Fixture.seg 1)])
                (Fixture.ready "clip.mp4" (Fixture.seg 7) 30)
      = (Normal Failed, w') /\
    forall n, In n ["clip.mp4"; "out_00.mp4"] -> ~ In n (Engine.names (vfs w')).
Proof.
  eexists. split; [vm_compute; reflexivity|].
  assert (Hacc : accepted (Fixture.ready "clip.mp4" (Fixture.seg 7) 30)
                          (mkFile "clip.mp4" (Fixture.seg 7)))
    by (repeat split).
  assert (Hrun : handleProcess (FileUtils.sanitize "file") FileUtils.extensionOf
                   codeUnitCompare
                   (Fixture.execRejects (JStr "Conversion failed!")
                                        [("out_00.mp4", Fixture.seg 1)])
                   (Fixture.ready "clip.mp4" (Fixture.seg 7) 30)
                 = (Normal Failed,
                    snd (Fixture.run (Fixture.execRejects (JStr "Conversion failed!")
                                        [("out_00.mp4", Fixture.seg 1)])
                                     (Fixture.ready "clip.mp4" (Fixture.seg 7) 30))))
    by (vm_compute; reflexivity).
  destruct (settled_run_leaves_no_residue _ _ _ _ _ _ _ _ Hacc Hrun) as (_ & _ & H).
  intros n Hn. refine (H _ _ n Hn).
  - right. split; [reflexivity|]. split; [reflexivity | intros m; reflexivity].
  - intros o [<-|[]]. vm_compute. reflexivity.
Defined.

(** C1, as stated, fails: [exec] rejects after writing one output, the run
    ends in [Failed], and the deletion of the written input is rejected
    during cleanup; the rejection is swallowed and the entry stays. *)
Lemma cleanup_residue_counterexample :
  let env := Fixture.execRejectsCleanupStuck (JStr "Conversion failed!") "clip.mp4"
                                             [("out_00.mp4", Fixture.seg 1)] in
  let r := Fixture.run env (Fixture.ready "clip.mp4" (Fixture.seg 7) 30) in
  fst r = Normal Failed /\
  FileUtils.sanitize "file" "clip.mp4" = "clip.mp4" /\
  In "clip.mp4" (Engine.names (vfs (snd r))).
Proof. vm_compute. repeat split. now left. Qed.

(* ===================================================================== *)
(** * A command that produces nothing *)
(* ===================================================================== *)

(** C5, as amended.  When the input is loaded and written, the command
    resolves, the listing goes through and no listed name qualifies, the run
    ends in [Failed] with the message of line 119; that message differs from
    the one shown after a rejection of [exec] with any value that line 105
    can describe, and with any value of the named shapes; nothing is
    delivered; and the written input is gone from the engine's filesystem
    provided the cleanup's listing and the deletion of that entry are not
    rejected. *)
Theorem no_output_fails_the_run
        (sanitizeFilename getFileExtension : string -> string)
        (localeCompare : string -> string -> comparison)
        (env : Env) (w : World) (f : File) :
  accepted w f ->
  arrayBufferFault env = None ->
  writeFileFault env = None ->
  execFault env = None ->
  listDirFault env = None ->
  let sanitized := sanitizeFilename (fileName f) in
  let outputExt := outputExtOf getFileExtension sanitized in
  filter (isOutputFile outputExt)
         (Engine.names (afterExec env sanitized f (vfs w))) = [] ->
  exists w',
    handleProcess sanitizeFilename getFileExtension localeCompare env w
      = (Normal Failed, w') /\
    error w' = "Error processing file: " ++ noOutputMessage /\
    (forall v shown,
        describable v = true \/ named v = true ->
        Js.describeWith "err" "Error processing file: " "Unknown error occurred"
                        (segmentationError v) = Normal shown ->
        shown <> error w') /\
    isProcessing w' = false /\
    downloads w' = downloads w /\
    (cleanupListDirFault env = None ->
     cleanupDeleteFault env sanitized = None ->
     ~ In sanitized (Engine.names (vfs w'))).
Proof.
  intros Hacc Hab Hwf Hex Hld sanitized outputExt Hnone.
  destruct (handleProcess sanitizeFilename getFileExtension localeCompare env w)
    as [c w'] eqn:Hrun.
  destruct (handleProcess_run _ _ _ _ _ _ _ _ Hacc Hrun)
    as (s & cb & _ & Hs & _ & Hd & Hip & Hout).
  fold sanitized outputExt in Hs, Hd, Hout.
  unfold outputFilesOf in Hs, Hd. rewrite Hnone in Hs, Hd. simpl in Hs.
  assert (Es : s = Collecting /\ cb = Throw (JError "Error" noOutputMessage)).
  { destruct s; simpl in Hs;
      repeat match goal with
             | H : exists _, _ |- _ => destruct H
             | H : _ /\ _ |- _ => destruct H
             end; try congruence.
    - now split.
    - destruct j; discriminate. }
  destruct Es as [-> ->].
  change (Js.describeWith "err" "Error processing file: " "Unknown error occurred"
                          (JError "Error" noOutputMessage))
    with (@Normal string ("Error processing file: " ++ noOutputMessage)) in Hout.
  destruct Hout as (-> & He & _ & Hclr).
  exists w'. split; [reflexivity|]. split; [exact He|].
  split; [|split; [exact Hip|split]].
  - intros v shown Hkind Hv. rewrite He.
    destruct (describable v) eqn:Hdv.
    + destruct (segmentationError_wrapped v Hdv) as (s & _ & E).
      rewrite E in Hv. injection Hv as <-. discriminate.
    + destruct Hkind as [Hk|Hn]; [discriminate|].
      revert Hv. unfold segmentationError.
      pose proof (describeWith_cases "execErr" "FFmpeg processing failed: "
                                     "FFmpeg execution failed" v) as Hc.
      rewrite Hdv in Hc. destruct Hc as [e He'].
      rewrite He'.
      destruct (describeWith_throws_named _ _ _ _ _ Hn He') as [->|[->| ->]];
        intros [= <-]; discriminate.
  - rewrite Hd. simpl. apply List.app_nil_r.
  - intros Hl Hdel Hin. apply (Hclr Hl sanitized Hin); [|exact Hdel].
    unfold isResidue. now rewrite String.eqb_refl.
Qed.

Lemma no_output_fails_the_run_witness :
  exists w',
    Fixture.run (Fixture.quiet []) (Fixture.ready "clip.mp4" (Fixture.seg 7) 30)
      = (Normal Failed, w') /\
    error w' = "Error processing file: " ++ noOutputMessage /\
    ~ In "clip.mp4" (Engine.names (vfs w')).
Proof.
  destruct (no_output_fails_the_run
              (FileUtils.sanitize "file") FileUtils.extensionOf codeUnitCompare
              (Fixture.quiet []) (Fixture.ready "clip.mp4" (Fixture.seg 7) 30)
              (mkFile "clip.mp4" (Fixture.seg 7)))
    as (w' & Hrun & He & _ & _ & _ & Hgone); try reflexivity.
  - repeat split.
  - exists w'. split; [exact Hrun|]. split; [exact He|].
    apply Hgone; reflexivity.
Defined.

(** C5, as stated, fails: the command resolves and produces nothing, the run
    ends in [Failed] with the message of line 119, but the deletion of the
    written input is rejected during cleanup and the entry stays. *)
Lemma no_output_input_stays_counterexample :
  let r := Fixture.run (Fixture.cleanupStuck "clip.mp4" [])
                       (Fixture.ready "clip.mp4" (Fixture.seg 7) 30) in
  fst r = Normal Failed /\
  error (snd r) = "Error processing file: " ++ noOutputMessage /\
  In "clip.mp4" (Engine.names (vfs (snd r))).
Proof. vm_compute. repeat split. now left. Qed.

(* ===================================================================== *)
(** * A command that rejects *)
(* ===================================================================== *)

(** When [exec] rejects with a value that line 105 can describe, the run
    ends in [Failed] showing the wrapped segmentation message, with the
    processing flag cleared. *)
Lemma exec_rejection_settles_failed
      (sanitizeFilename getFileExtension : string -> string)
      (localeCompare : string -> string -> comparison)
      (env : Env) (w : World) (f : File) (v : JsValue) :
  accepted w f ->
  arrayBufferFault env = None ->
  writeFileFault env = None ->
  execFault env = Some v ->
  describable v = true ->
  exists w' s,
    handleProcess sanitizeFilename getFileExtension localeCompare env w
      = (Normal Failed, w') /\
    isProcessing w' = false /\
    error w' = "Error processing file: " ++ "FFmpeg processing failed: " ++ s.
Proof.
  intros Hacc Hab Hwf Hex Hd.
  destruct (handleProcess sanitizeFilename getFileExtension localeCompare env w)
    as [c w'] eqn:Hrun.
  destruct (handleProcess_run _ _ _ _ _ _ _ _ Hacc Hrun)
    as (s & cb & Hpass & Hs & _ & _ & Hip & Hout).
  assert (Ecb : cb = Throw (segmentationError v)).
  { destruct s; simpl in Hs, Hpass;
      repeat match goal with
             | H : exists _, _ |- _ => destruct H
             | H : _ /\ _ |- _ => destruct H
             end; congruence. }
  subst cb.
  destruct (segmentationError_wrapped v Hd) as (t & _ & Eshown).
  rewrite Eshown in Hout. destruct Hout as (-> & He & _).
  exists w', t. repeat split; assumption.
Qed.

(** A rejection value with accessors of its own can make line 105 throw
    anything, also an [Error] with the text of line 119; the run then shows
    the same message as one whose command produced nothing. *)
Example rejection_shown_as_no_output :
  let v := JOther true (DescribeThrows (JError "Error" noOutputMessage))
                  (Interpolates "") in
  let r := Fixture.run (Fixture.execRejects v [])
                       (Fixture.ready "clip.mp4" (Fixture.seg 7) 30) in
  describable v = false /\
  fst r = Normal Failed /\
  error (snd r) = "Error processing file: " ++ noOutputMessage.
Proof. vm_compute. repeat split. Qed.

(** C9 fails on an object without [toString], such as [Object.create(null)]:
    the expression of line 105 throws a [TypeError] instead of yielding a
    text, and the run ends in [Failed] showing that [TypeError] and not a
    segmentation message. *)
Theorem exec_rejection_with_bare_object :
  describable (JBare JUndefined) = false /\
  Js.describeWith "execErr" "FFmpeg processing failed: " "FFmpeg execution failed"
                  (JBare JUndefined)
    = Throw (JError "TypeError" "execErr?.toString is not a function") /\
  exists w',
    Fixture.run (Fixture.execRejects (JBare JUndefined) [])
                (Fixture.ready "clip.mp4" (Fixture.seg 7) 30)
      = (Normal Failed, w') /\
    error w' = "Error processing file: execErr?.toString is not a function".
Proof.
  split; [reflexivity|]. split; [reflexivity|].
  eexists. split; [vm_compute; reflexivity|]. reflexivity.
Qed.

(* ===================================================================== *)
(** * A deletion that rejects *)
(* ===================================================================== *)

(** Once the [catch] block has derived its message, what the cleanup meets
    does not change the exit or the message shown. *)
Lemma cleanup_faults_are_swallowed
      (sanitizeFilename : string -> string) (env : Env)
      (f : File) (err : JsValue) (w : World) (shown : string) :
  Js.describeWith "err" "Error processing file: " "Unknown error occurred" err
    = Normal shown ->
  exists w',
    handleFailure sanitizeFilename env f true err w = (Normal Failed, w') /\
    error w' = shown.
Proof.
  intros E. pose proof (handleFailure_run sanitizeFilename env f err w) as H.
  rewrite E in H. destruct H as (w' & Hrun & He & _). now exists w'.
Qed.

(** C4 fails on the success path: nothing rejects but the deletion of the
    first output after the archive was delivered (line 153); the rejection
    reaches the [catch] block and the run ends in [Failed], with the archive
    already handed to the browser. *)
Theorem delete_rejection_after_download_fails_the_run :
  exists w',
    Fixture.run (Fixture.deleteStuck "out_00.mp4"
                   [("out_00.mp4", Fixture.seg 1); ("out_01.mp4", Fixture.seg 2)])
                (Fixture.ready "clip.mp4" (Fixture.seg 7) 30)
      = (Normal Failed, w') /\
    error w' = "Error processing file: busy" /\
    downloads w' = [("clip_segments.zip",
                     [("clip_segment_01.mp4", Fixture.seg 1);
                      ("clip_segment_02.mp4", Fixture.seg 2)])].
Proof. eexists. split; [vm_compute; reflexivity|]. repeat split. Qed.

(* ===================================================================== *)
(** * Scenario A *)
(* ===================================================================== *)

(** C3, as amended.  For the input [My Clip (2024).mov] with segment length
    30, the command is asked for [out_%02d.mov]; when the engine produces
    [out_01.mov] to [out_03.mov], the archive [My_Clip_2024_segments.zip]
    holds [My_Clip_2024_segment_01.mov] to [My_Clip_2024_segment_03.mov] and
    the final status reports 3 segments. *)
Theorem scenario_A :
  exists w',
    Fixture.run (Fixture.quiet [("out_01.mov", Fixture.seg 1);
                                ("out_02.mov", Fixture.seg 2);
                                ("out_03.mov", Fixture.seg 3)])
                (Fixture.ready "My Clip (2024).mov" (Fixture.seg 7) 30)
      = (Normal Succeeded, w') /\
    nth_error (engineCalls w') 1
      = Some (Exec ["-i"; "My_Clip_2024.mov"; "-f"; "segment"; "-segment_time";
                    "30"; "-c"; "copy"; "-reset_timestamps"; "1";
                    "-segment_format"; "mp4"; "out_%02d.mov"]) /\
    downloads w' = [("My_Clip_2024_segments.zip",
                     [("My_Clip_2024_segment_01.mov", Fixture.seg 1);
                      ("My_Clip_2024_segment_02.mov", Fixture.seg 2);
                      ("My_Clip_2024_segment_03.mov", Fixture.seg 3)])] /\
    status w' = "Success! Created 3 segments. Download started." /\
    error w' = "" /\
    vfs w' = [].
Proof. eexists. split; [vm_compute; reflexivity|]. repeat split. Qed.

(** C3, as stated, fails: with the engine producing [out_01.mp4] to
    [out_03.mp4] no listed name ends in [.mov], so the run ends in [Failed]
    with the message of line 119 and delivers no archive. *)
Lemma scenario_A_counterexample :
  exists w',
    Fixture.run (Fixture.quiet [("out_01.mp4", Fixture.seg 1);
                                ("out_02.mp4", Fixture.seg 2);
                                ("out_03.mp4", Fixture.seg 3)])
                (Fixture.ready "My Clip (2024).mov" (Fixture.seg 7) 30)
      = (Normal Failed, w') /\
    error w' = "Error processing file: " ++ noOutputMessage /\
    status w' = "" /\
    downloads w' = [].
Proof. eexists. split; [vm_compute; reflexivity|]. repeat split. Qed.

(* ===================================================================== *)
(** * The archive *)
(* ===================================================================== *)




Lemma combine_names_nth (baseName outputExt : string) (fs : Vfs) :
  forall (outs : list string) (a i : nat) (o : string),
    nth_error outs i = Some o ->
    nth_error (combine (map (zipFileName baseName outputExt)
                            (seq a (List.length outs)))
                       (map (dataOf fs) outs)) i
    = Some (zipFileName baseName outputExt (a + i), dataOf fs o).
Proof.
  induction outs as [|x outs IH]; intros a i o Ho; destruct i as [|i];
    simpl in *; try discriminate.
  - injection Ho as ->. now rewrite Nat.add_0_r.
  - rewrite (IH (S a) i o Ho). do 3 f_equal. lia.
Qed.

(** The bytes of the archive: entry [i] holds what the engine holds under
    the [i]-th output in sorted order. *)
Lemma archiveOf_bytes (baseName outputExt : string) (fs : Vfs)
      (outs : list string) (i : nat) (o : string) :
  nth_error outs i = Some o ->
  nth_error (archiveOf baseName outputExt fs outs) i
  = Some (zipFileName baseName outputExt i, dataOf fs o).
Proof.
  intros Ho. unfold archiveOf.
  now rewrite (combine_names_nth baseName outputExt fs outs 0 i o Ho).
Qed.

(** ** The qualifying names after the command *)











(* ===================================================================== *)
(** * Progress *)
(* ===================================================================== *)

Section ProgressFacts.

Local Open Scope Q_scope.

Lemma ratio_nonneg (a b : nat) :
  (0 <= inject_Z (Z.of_nat a) / inject_Z (Z.of_nat b))%Q.
Proof.
  unfold Qdiv. apply Qmult_le_0_compat.
  - rewrite <- (Zle_Qle 0). lia.
  - apply Qinv_le_0_compat. rewrite <- (Zle_Qle 0). lia.
Qed.

Lemma ratio_le_1 (a b : nat) :
  (a <= b)%nat -> inject_Z (Z.of_nat a) / inject_Z (Z.of_nat b) <= 1.
Proof.
  intros H. destruct b as [|b].
  - replace a with 0%nat by lia. discriminate.
  - apply Qle_shift_div_r.
    + rewrite <- (Zlt_Qlt 0). lia.
    + rewrite Qmult_1_l, <- Zle_Qle. lia.
Qed.

Lemma ratio_mono (a b total : nat) :
  (a <= b)%nat ->
  inject_Z (Z.of_nat a) / inject_Z (Z.of_nat total)
  <= inject_Z (Z.of_nat b) / inject_Z (Z.of_nat total).
Proof.
  intros H. unfold Qdiv. apply Qmult_le_compat_r.
  - rewrite <- Zle_Qle. lia.
  - apply Qinv_le_0_compat. rewrite <- (Zle_Qle 0). lia.
Qed.

Lemma round_nonneg (q : Q) : 0 <= q -> 0 <= Double.round q.
Proof.
  intros H. change 0 with (Double.round 0) at 1.
  apply round_mono; [apply Qle_refl | exact H].
Qed.

Lemma round_le (q c : Q) :
  0 <= q -> Double.round c = c -> q <= c -> Double.round q <= c.
Proof. intros H0 E H. rewrite <- E. now apply round_mono. Qed.

Lemma round_ge (q c : Q) :
  0 <= c -> Double.round c = c -> c <= q -> c <= Double.round q.
Proof. intros H0 E H. rewrite <- E at 1. now apply round_mono. Qed.

(** The three roundings of line 134, with the bounds of their operands. *)
Lemma archivingProgress_steps (i total : nat) :
  (i < total)%nat ->
  let r := inject_Z (Z.of_nat (i + 1)) / inject_Z (Z.of_nat total) in
  let a := Double.round r in
  let b := Double.round (a * 20) in
  0 <= r /\ r <= 1 /\ 0 <= a /\ a <= 1 /\ 0 <= b /\ b <= 20.
Proof.
  intros H r a b.
  assert (Hr0 : 0 <= r) by apply ratio_nonneg.
  assert (Hr1 : r <= 1) by (apply ratio_le_1; lia).
  assert (Ha0 : 0 <= a) by now apply round_nonneg.
  assert (Ha1 : a <= 1) by (apply (round_le r 1); [exact Hr0 | reflexivity | exact Hr1]).
  assert (Hb0 : 0 <= b) by (apply round_nonneg; lra).
  assert (Hb1 : b <= 20) by (apply (round_le (a * 20) 20); [lra | reflexivity | lra]).
  tauto.
Qed.

Lemma archivingProgress_mono (i k total : nat) :
  (i <= k)%nat -> archivingProgress i total <= archivingProgress k total.
Proof.
  intros H. unfold archivingProgress.
  pose proof (ratio_nonneg (i + 1) total) as Hr.
  pose proof (ratio_mono (i + 1) (k + 1) total ltac:(lia)) as Hrk.
  set (ri := inject_Z (Z.of_nat (i + 1)) / inject_Z (Z.of_nat total)) in *.
  set (rk := inject_Z (Z.of_nat (k + 1)) / inject_Z (Z.of_nat total)) in *.
  assert (Ha : Double.round ri <= Double.round rk) by now apply round_mono.
  pose proof (round_nonneg _ Hr) as Ha0.
  assert (Hb : Double.round (Double.round ri * 20)
               <= Double.round (Double.round rk * 20))
    by (apply round_mono; lra).
  assert (Hb0 : 0 <= Double.round (Double.round ri * 20))
    by (apply round_nonneg; lra).
  apply round_mono; lra.
Qed.

Lemma archivingProgress_ge_70 (i total : nat) :
  70 <= archivingProgress i total.
Proof.
  unfold archivingProgress.
  pose proof (round_nonneg _ (ratio_nonneg (i + 1) total)) as Ha0.
  set (a := Double.round (inject_Z (Z.of_nat (i + 1)) / inject_Z (Z.of_nat total))) in *.
  assert (Hb0 : 0 <= Double.round (a * 20)) by (apply round_nonneg; lra).
  apply (round_ge _ 70); [discriminate | reflexivity | lra].
Qed.

Lemma archivingProgress_le_90 (i total : nat) :
  (i < total)%nat -> archivingProgress i total <= 90.
Proof.
  intros H. destruct (archivingProgress_steps i total H) as (_ & _ & _ & _ & Hb0 & Hb1).
  unfold archivingProgress.
  apply (round_le _ 90); [lra | reflexivity | lra].
Qed.

(** The value emitted after the last entry. *)
Lemma archivingProgress_last (total : nat) :
  (1 <= total)%nat -> archivingProgress (total - 1) total = 90.
Proof.
  intros H. unfold archivingProgress.
  replace (total - 1 + 1)%nat with total by lia.
  rewrite (round_comp (inject_Z (Z.of_nat total) / inject_Z (Z.of_nat total)) 1).
  - reflexivity.
  - apply Qmult_inv_r. intros E. unfold Qeq in E. simpl in E. lia.
Qed.

(** The distance between the double emitted and the rational of the
    formula. *)
Lemma archivingProgress_near (i total : nat) :
  (i < total)%nat ->
  Qabs (archivingProgress i total
        - (70 + inject_Z (Z.of_nat (i + 1)) / inject_Z (Z.of_nat total) * 20))
  <= 1 # 70368744177664.
Proof.
  intros H. destruct (archivingProgress_steps i total H) as (Hr0 & Hr1 & Ha0 & Ha1 & Hb0 & Hb1).
  unfold archivingProgress.
  set (r := inject_Z (Z.of_nat (i + 1)) / inject_Z (Z.of_nat total)) in *.
  set (a := Double.round r) in *.
  set (b := Double.round (a * 20)) in *.
  assert (Ea : Qabs (a - r) <= Double.pow2 (-53)).
  { apply (round_near r 0); [exact Hr0 | | lia].
    change (Double.pow2 (0 + 1)) with 2. lra. }
  assert (Eb : Qabs (b - a * 20) <= Double.pow2 (-49)).
  { apply (round_near (a * 20) 4); [lra | | lia].
    change (Double.pow2 (4 + 1)) with 32. lra. }
  assert (Ev : Qabs (Double.round (70 + b) - (70 + b)) <= Double.pow2 (-47)).
  { apply (round_near (70 + b) 6); [lra | | lia].
    change (Double.pow2 (6 + 1)) with 128. lra. }
  apply Qabs_Qle_condition in Ea, Eb, Ev.
  change (Double.pow2 (-53)) with (1 # 9007199254740992) in Ea.
  change (Double.pow2 (-49)) with (1 # 562949953421312) in Eb.
  change (Double.pow2 (-47)) with (1 # 140737488355328) in Ev.
  apply Qabs_Qle_condition. split; lra.
Qed.

End ProgressFacts.

Lemma StronglySorted_app_Qle (l1 l2 : list Q) :
  StronglySorted Qle l1 -> StronglySorted Qle l2 ->
  (forall x y, In x l1 -> In y l2 -> (x <= y)%Q) ->
  StronglySorted Qle (l1 ++ l2).
Proof.
  intros H1 H2 H. induction H1 as [|x l1 Hs IH Hx]; simpl; [assumption|].
  constructor.
  - apply IH. intros a b Ha Hb. apply H; [now right | assumption].
  - apply Forall_forall. intros y Hy. apply in_app_or in Hy as [Hy|Hy].
    + rewrite Forall_forall in Hx. now apply Hx.
    + apply H; [now left | assumption].
Qed.

Lemma archivingValues_sorted (total j : nat) :
  StronglySorted Qle (archivingValues total j).
Proof.
  unfold archivingValues. generalize 0.
  induction j as [|j IH]; intros a; simpl; constructor; [apply IH|].
  apply Forall_forall. intros y Hy. apply in_map_iff in Hy as (k & <- & Hk).
  apply in_seq in Hk. apply archivingProgress_mono. lia.
Qed.

Lemma archivingValues_bounds (total j : nat) (y : Q) :
  In y (archivingValues total j) ->
  (70 <= y)%Q /\ (j <= total -> (y <= 90)%Q).
Proof.
  unfold archivingValues. intros Hy.
  apply in_map_iff in Hy as (k & <- & Hk). apply in_seq in Hk. split.
  - apply archivingProgress_ge_70.
  - intros Hj. apply archivingProgress_le_90. lia.
Qed.

(** The values after the initial 0: sorted, when the loop values are
    followed by values of at least 90 only if the loop has run to its end. *)
Lemma emitted_shape_sorted (total j : nat) (tail : list Q) :
  j <= total \/ tail = [] ->
  StronglySorted Qle tail ->
  (forall y, In y tail -> (90 <= y)%Q) ->
  StronglySorted Qle
    (0%Q :: ([10%Q; 60%Q; 70%Q] ++ archivingValues total j ++ tail))%list.
Proof.
  intros Hj Ht Hb.
  assert (Hrest : StronglySorted Qle (archivingValues total j ++ tail)).
  { apply StronglySorted_app_Qle; [apply archivingValues_sorted | exact Ht |].
    intros x y Hx Hy. destruct Hj as [Hj| ->]; [|destruct Hy].
    apply Qle_trans with 90%Q.
    - now apply (archivingValues_bounds total j x Hx).
    - now apply Hb. }
  assert (Hge : forall y, In y (archivingValues total j ++ tail) -> (70 <= y)%Q).
  { intros y Hy. apply in_app_or in Hy as [Hy|Hy].
    - now apply (archivingValues_bounds total j y Hy).
    - apply Qle_trans with 90%Q; [discriminate | now apply Hb]. }
  simpl. repeat constructor; try assumption;
    try (apply Forall_forall; intros y Hy;
         apply Qle_trans with 70%Q; [discriminate | now apply Hge]);
    try discriminate.
Qed.

Lemma emitted_sorted (total : nat) (s : Stage) :
  StronglySorted Qle (0%Q :: emittedIn total s).
Proof.
  assert (H95 : StronglySorted Qle [95%Q])
    by (repeat constructor).
  assert (H100 : StronglySorted Qle [95%Q; 100%Q])
    by (repeat constructor; discriminate).
  destruct s; unfold emittedIn;
    try (repeat constructor; discriminate).
  - rewrite <- (List.app_nil_r (archivingValues total j)).
    apply emitted_shape_sorted; [now right | constructor | intros y []].
  - apply emitted_shape_sorted; [now left | exact H95 |].
    intros y [<-|[]]. discriminate.
  - apply emitted_shape_sorted; [now left | exact H95 |].
    intros y [<-|[]]. discriminate.
  - apply emitted_shape_sorted; [now left | exact H100 |].
    intros y [<-|[<-|[]]]; discriminate.
Qed.

(** The value after the [k]-th entry, for [k] from 1. *)
Lemma archivingValues_nth (total j k : nat) :
  1 <= k <= j ->
  exists v,
    nth_error (archivingValues total j) (k - 1) = Some v /\
    v = Double.round
          (70 + Double.round
                  (Double.round (inject_Z (Z.of_nat k) / inject_Z (Z.of_nat total))
                   * 20))%Q /\
    (k <= total ->
     (Qabs (v - (70 + inject_Z (Z.of_nat k) / inject_Z (Z.of_nat total) * 20))
      <= 1 # 70368744177664)%Q).
Proof.
  intros Hk. exists (archivingProgress (k - 1) total). split; [|split].
  - unfold archivingValues. rewrite nth_error_map, nth_error_seq.
    replace (k - 1 <? j)%nat with true by (symmetry; apply Nat.ltb_lt; lia).
    reflexivity.
  - unfold archivingProgress. replace (k - 1 + 1) with k by lia. reflexivity.
  - intros Hle. pose proof (archivingProgress_near (k - 1) total) as H.
    replace (k - 1 + 1) with k in H by lia. apply H. lia.
Qed.

Lemma archivingValues_last (total : nat) :
  1 <= total ->
  exists v,
    archivingValues total total
    = (archivingValues total (total - 1) ++ [v])%list /\ v = 90%Q.
Proof.
  intros H. exists (archivingProgress (total - 1) total). split.
  - unfold archivingValues. destruct total as [|n]; [lia|].
    replace (S n - 1) with n by lia.
    rewrite seq_S, map_app. reflexivity.
  - now apply archivingProgress_last.
Qed.

(** C7.  In a run that passes the precondition checks, with [N] the number
    of qualifying outputs: the progress values emitted are 0 followed by the
    values of the stage the run stopped at; this sequence is non-decreasing;
    the value emitted after the [k]-th entry of the archiving loop is the
    double that line 134 computes, [70 + (k / N) * 20] with the quotient,
    the product and the sum each rounded to binary64, and for [k <= N] it
    lies within [2^-46] of the rational [70 + (k / N) * 20]; and when the
    loop has run to its end, which requires [N >= 1], the value emitted
    just before 95 is 90 itself, with no rounding error. *)
Theorem progress_is_monotone
        (sanitizeFilename getFileExtension : string -> string)
        (localeCompare : string -> string -> comparison)
        (env : Env) (w : World) (f : File) (c : Completion Exit) (w' : World) :
  accepted w f ->
  handleProcess sanitizeFilename getFileExtension localeCompare env w = (c, w') ->
  let sanitized := sanitizeFilename (fileName f) in
  let outputExt := outputExtOf getFileExtension sanitized in
  let fs := afterExec env sanitized f (vfs w) in
  let N := List.length (filter (isOutputFile outputExt) (Engine.names fs)) in
  exists s : Stage,
    progressLog w' = (progressLog w ++ 0%Q :: emittedIn N s)%list /\
    StronglySorted Qle (0%Q :: emittedIn N s) /\
    (forall j k, 1 <= k <= j ->
       exists v,
         nth_error (archivingValues N j) (k - 1) = Some v /\
         v = Double.round
               (70 + Double.round
                       (Double.round (inject_Z (Z.of_nat k) / inject_Z (Z.of_nat N))
                        * 20))%Q /\
         (k <= N ->
          (Qabs (v - (70 + inject_Z (Z.of_nat k) / inject_Z (Z.of_nat N) * 20))
           <= 1 # 70368744177664)%Q)) /\
    (forall j, s = Archiving j -> j < N) /\
    (c = Normal Succeeded -> s = Completed) /\
    (s = Finalizing \/ s = Releasing \/ s = Completed ->
     1 <= N /\
     exists v post,
       emittedIn N s
       = ([10%Q; 60%Q; 70%Q] ++ archivingValues N (N - 1) ++ v :: 95%Q :: post)%list /\
       v = 90%Q /\ (post = [] \/ post = [100%Q])).
Proof.
  intros Hacc Hrun sanitized outputExt fs N.
  destruct (handleProcess_run _ _ _ _ _ _ _ _ Hacc Hrun)
    as (s & cb & _ & Hs & Hp & _ & _ & Hout).
  fold sanitized outputExt fs in Hs, Hp.
  rewrite outputFilesOf_length in Hp. fold N in Hp.
  exists s. split; [exact Hp|]. split; [apply emitted_sorted|].
  split; [intros j k Hk; now apply archivingValues_nth|]. split; [|split].
  - intros j ->. simpl in Hs. destruct Hs as (e & o & _ & Hn & _).
    unfold N. rewrite <- outputFilesOf_length with (localeCompare := localeCompare).
    apply nth_error_Some. congruence.
  - intros Hc. destruct cb as [x|err].
    + now destruct Hout as (_ & -> & _).
    + destruct (Js.describeWith _ _ _ err); [destruct Hout|]; congruence.
  - intros Hst.
    assert (HN : 1 <= N).
    { assert (Hne : outputFilesOf localeCompare outputExt (Engine.names fs) <> []).
      { destruct Hst as [->|[->| ->]]; simpl in Hs;
          repeat match goal with
                 | H : exists _, _ |- _ => destruct H
                 | H : _ /\ _ |- _ => destruct H
                 end; assumption. }
      unfold N. rewrite <- outputFilesOf_length with (localeCompare := localeCompare).
      destruct (outputFilesOf localeCompare outputExt (Engine.names fs));
        [congruence | simpl; lia]. }
    split; [exact HN|].
    destruct (archivingValues_last N HN) as (v & Ev & Hv).
    destruct Hst as [->|[->| ->]]; unfold emittedIn; rewrite Ev, <- List.app_assoc;
      [exists v, [] | exists v, [] | exists v, [100%Q]];
      (split; [reflexivity|]); (split; [exact Hv|]); auto.
Qed.

Lemma progress_is_monotone_witness :
  progressLog
    (snd (Fixture.run (Fixture.quiet [("out_00.mp4", Fixture.seg 1);
                                      ("out_01.mp4", Fixture.seg 2);
                                      ("out_02.mp4", Fixture.seg 3)])
                      (Fixture.ready "clip.mp4" (Fixture.seg 7) 30)))
  = [0; 10; 60; 70;
     5394937053620907 # 70368744177664;
     5864062014805333 # 70368744177664;
     90; 95; 100]%Q /\
  StronglySorted Qle (0%Q :: emittedIn 3 Completed) /\
  ~ (5394937053620907 # 70368744177664 == 70 + (1 # 3) * 20)%Q.
Proof.
  assert (Hacc : accepted (Fixture.ready "clip.mp4" (Fixture.seg 7) 30)
                          (mkFile "clip.mp4" (Fixture.seg 7)))
    by (repeat split).
  assert (Hrun :
            handleProcess (FileUtils.sanitize "file") FileUtils.extensionOf
              codeUnitCompare
              (Fixture.quiet [("out_00.mp4", Fixture.seg 1);
                              ("out_01.mp4", Fixture.seg 2);
                              ("out_02.mp4", Fixture.seg 3)])
              (Fixture.ready "clip.mp4" (Fixture.seg 7) 30)
            = (Normal Succeeded,
               snd (Fixture.run (Fixture.quiet [("out_00.mp4", Fixture.seg 1);
                                                ("out_01.mp4", Fixture.seg 2);
                                                ("out_02.mp4", Fixture.seg 3)])
                                (Fixture.ready "clip.mp4" (Fixture.seg 7) 30))))
    by (vm_compute; reflexivity).
  destruct (progress_is_monotone _ _ _ _ _ _ _ _ Hacc Hrun)
    as (s & Hp & Hsorted & _ & _ & Hc & _).
  rewrite (Hc eq_refl) in Hp, Hsorted.
  split; [|split; [exact Hsorted | discriminate]].
  etransitivity; [exact Hp | vm_compute; reflexivity].
Defined.

(* ===================================================================== *)
(** * What a run keeps *)
(* ===================================================================== *)

Section Preserving.

Variable R : World -> World -> Prop.
Hypothesis R_refl : forall w, R w w.
Hypothesis R_trans : forall w1 w2 w3, R w1 w2 -> R w2 w3 -> R w1 w3.

Lemma preserves_ret {A} (a : A) : preserves R (ret a).
Proof. intros w c w' H. inversion H; subst. apply R_refl. Qed.

Lemma preserves_throw {A} (e : JsValue) : preserves R (@throw A e).
Proof. intros w c w' H. inversion H; subst. apply R_refl. Qed.

Lemma preserves_lift {A} (x : Completion A) : preserves R (lift x).
Proof. intros w c w' H. inversion H; subst. apply R_refl. Qed.

Lemma preserves_act (g : World -> World) :
  (forall w, R w (g w)) -> preserves R (act g).
Proof. intros Hg w c w' H. inversion H; subst. apply Hg. Qed.

Lemma preserves_bind {A B} (m : M A) (k : A -> M B) :
  preserves R m -> (forall a, preserves R (k a)) -> preserves R (bind m k).
Proof.
  intros Hm Hk w c w' H. unfold bind in H.
  destruct (m w) as [[a|e] w1] eqn:E.
  - eapply R_trans; [eapply Hm; exact E | eapply Hk; exact H].
  - inversion H; subst. eapply Hm; exact E.
Qed.

Lemma preserves_tryCatch {A} (m : M A) (h : JsValue -> M A) :
  preserves R m -> (forall e, preserves R (h e)) -> preserves R (tryCatch m h).
Proof.
  intros Hm Hh w c w' H. unfold tryCatch in H.
  destruct (m w) as [[a|e] w1] eqn:E.
  - inversion H; subst. eapply Hm; exact E.
  - eapply R_trans; [eapply Hm; exact E | eapply Hh; exact H].
Qed.

Lemma preserves_tryFinally {A} (m : M A) (g : M unit) :
  preserves R m -> preserves R g -> preserves R (tryFinally m g).
Proof.
  intros Hm Hg w c w' H. unfold tryFinally in H.
  destruct (m w) as [c1 w1] eqn:E. destruct (g w1) as [[u|e] w2] eqn:E2;
    inversion H; subst;
    (eapply R_trans; [eapply Hm; exact E | eapply Hg; exact E2]).
Qed.

Lemma preserves_forEach {X} (l : list X) (body : X -> M unit) :
  (forall x, In x l -> preserves R (body x)) -> preserves R (forEach l body).
Proof.
  induction l as [|x l IH]; intros Hb; simpl.
  - apply preserves_ret.
  - apply preserves_bind.
    + apply Hb. now left.
    + intros _. apply IH. intros y Hy. apply Hb. now right.
Qed.

Lemma preserves_call {A} (c : EngineCall) (fault : option JsValue)
      (effect : Vfs -> Vfs) (result : Vfs -> Completion A) :
  (forall w, R w (logCall c w)) ->
  (forall w, R w (withVfs effect w)) ->
  preserves R (Engine.call c fault effect result).
Proof.
  intros Hl He w c0 w' H. unfold Engine.call in H.
  destruct fault; inversion H; subst; [apply Hl|].
  eapply R_trans; [apply Hl | apply He].
Qed.

Lemma preserves_exec (outputs : list (string * bytes)) (fault : option JsValue)
      (argv : list string) :
  (forall w, R w (logCall (Exec argv) w)) ->
  (forall w, R w (withVfs (Engine.putAll outputs) w)) ->
  preserves R (Engine.exec outputs fault argv).
Proof.
  intros Hl He w c0 w' H. unfold Engine.exec in H.
  destruct fault; inversion H; subst;
    (eapply R_trans; [apply Hl | apply He]).
Qed.

(** ** The steps of [handleProcess] *)

Variable sanitizeFilename : string -> string.
Variable getFileExtension : string -> string.
Variable localeCompare : string -> string -> comparison.
Variable env : Env.
Variable f : File.

Hypothesis R_status : forall s w, R w (setStatus s w).
Hypothesis R_progress : forall p w, R w (setProgress p w).
Hypothesis R_call : forall c w, R w (logCall c w).
Hypothesis R_download : forall n z w, R w (addDownload n z w).
Hypothesis R_timer : forall w, R w (addResetTimer w).
Hypothesis R_same : forall w, R w (withVfs (fun fs => fs) w).
Hypothesis R_put :
  forall d w, R w (withVfs (Engine.put (sanitizeFilename (fileName f)) d) w).
Hypothesis R_putAll : forall w, R w (withVfs (Engine.putAll (execOutputs env)) w).
Hypothesis R_remove :
  forall o w, isResidue (sanitizeFilename (fileName f)) o = true ->
              R w (withVfs (Engine.remove o) w).

Lemma preserves_archiveLoop (baseName outputExt : string) (total : nat)
      (rest : list string) :
  forall i zip, preserves R (archiveLoop env baseName outputExt total i rest zip).
Proof.
  induction rest as [|o rest IH]; intros i zip; simpl.
  - apply preserves_ret.
  - apply preserves_bind.
    + apply preserves_call; [apply R_call | apply R_same].
    + intros d. apply preserves_bind; [apply preserves_act, R_progress|].
      intros _. apply IH.
Qed.

Lemma residue_of_output (outputExt o : string) (files : list string) :
  In o (outputFilesOf localeCompare outputExt files) ->
  isResidue (sanitizeFilename (fileName f)) o = true.
Proof.
  intros H. apply outputFilesOf_in in H as [_ H].
  unfold isResidue. rewrite (isOutputFile_prefix _ _ H). apply orb_true_r.
Qed.

Lemma residue_of_input :
  isResidue (sanitizeFilename (fileName f)) (sanitizeFilename (fileName f)) = true.
Proof. unfold isResidue. now rewrite String.eqb_refl. Qed.

Lemma preserves_processBody (segLen : Num) :
  preserves R (processBody sanitizeFilename getFileExtension localeCompare env
                           f segLen).
Proof.
  unfold processBody. cbv zeta.
  apply preserves_bind; [apply preserves_act, R_status|]. intros _.
  apply preserves_bind; [apply preserves_lift|]. intros fileData.
  apply preserves_bind;
    [apply preserves_call; [apply R_call | apply R_put]|]. intros _.
  apply preserves_bind; [apply preserves_act, R_progress|]. intros _.
  apply preserves_bind; [apply preserves_act, R_status|]. intros _.
  apply preserves_bind.
  { apply preserves_tryCatch; [apply preserves_exec; [apply R_call | apply R_putAll]|].
    intros e. apply preserves_bind; [apply preserves_lift|].
    intros msg. apply preserves_throw. }
  intros _.
  apply preserves_bind; [apply preserves_act, R_progress|]. intros _.
  apply preserves_bind; [apply preserves_act, R_status|]. intros _.
  apply preserves_bind;
    [apply preserves_call; [apply R_call | apply R_same]|]. intros files.
  destruct (outputFilesOf localeCompare _ files) as [|o1 rest] eqn:Eouts;
    [apply preserves_throw|].
  apply preserves_bind; [apply preserves_act, R_progress|]. intros _.
  apply preserves_bind; [apply preserves_act, R_status|]. intros _.
  apply preserves_bind; [apply preserves_archiveLoop|]. intros zip.
  apply preserves_bind; [apply preserves_act, R_progress|]. intros _.
  apply preserves_bind; [apply preserves_act, R_status|]. intros _.
  apply preserves_bind; [apply preserves_lift|]. intros _.
  apply preserves_bind; [apply preserves_act, R_download|]. intros _.
  apply preserves_bind.
  { apply preserves_forEach. intros o Ho.
    apply preserves_call; [apply R_call|]. intros w. apply R_remove.
    rewrite <- Eouts in Ho. now apply residue_of_output in Ho. }
  intros _.
  apply preserves_bind.
  { apply preserves_call; [apply R_call|]. intros w.
    apply R_remove, residue_of_input. }
  intros _.
  apply preserves_bind; [apply preserves_act, R_progress|]. intros _.
  apply preserves_bind; [apply preserves_act, R_status|]. intros _.
  apply preserves_bind; [apply preserves_act, R_timer|]. intros _.
  apply preserves_ret.
Qed.

Hypothesis R_error : forall s w, R w (setError s w).
Hypothesis R_processing : forall b w, R w (setIsProcessing b w).

Lemma preserves_cleanup (handle : bool) :
  preserves R (cleanup sanitizeFilename env f handle).
Proof.
  unfold cleanup. apply preserves_tryCatch; [|intros e; apply preserves_ret].
  destruct handle; [|apply preserves_ret].
  apply preserves_bind;
    [apply preserves_call; [apply R_call | apply R_same]|]. intros files.
  apply preserves_forEach. intros name _.
  destruct (isResidue (sanitizeFilename (fileName f)) name) eqn:Er;
    [|apply preserves_ret].
  apply preserves_tryCatch; [|intros e; apply preserves_ret].
  apply preserves_call; [apply R_call|]. intros w. now apply R_remove.
Qed.

Lemma preserves_handleFailure (handle : bool) (err : JsValue) :
  preserves R (handleFailure sanitizeFilename env f handle err).
Proof.
  unfold handleFailure.
  apply preserves_bind; [apply preserves_lift|]. intros shown.
  apply preserves_bind; [apply preserves_act, R_error|]. intros _.
  apply preserves_bind; [apply preserves_act, R_status|]. intros _.
  apply preserves_bind; [apply preserves_cleanup|]. intros _.
  apply preserves_ret.
Qed.

Lemma preserves_handleProcess (w : World) c w' :
  file w = Some f \/ file w = None ->
  handleProcess sanitizeFilename getFileExtension localeCompare env w = (c, w') ->
  R w w'.
Proof.
  intros Hf H. unfold handleProcess in H.
  assert (Hrej : forall msg, preserves R (bind (act (setError msg))
                                               (fun _ => ret Rejected))).
  { intros msg. apply preserves_bind; [apply preserves_act, R_error|].
    intros _. apply preserves_ret. }
  destruct (file w) as [f0|] eqn:Ef; [|now apply (Hrej _ _ _ _ H)].
  destruct Hf as [Hf|Hf]; [|discriminate]. injection Hf as ->.
  destruct (negb (isLoaded w)); [now apply (Hrej _ _ _ _ H)|].
  destruct (negb (ffmpeg w)); [now apply (Hrej _ _ _ _ H)|].
  destruct (Double.leZero (segmentLength w)); [now apply (Hrej _ _ _ _ H)|].
  assert (Hm : preserves R
            (bind (act (setIsProcessing true))
               (fun _ => bind (act (setError ""))
                  (fun _ => bind (act (setProgress 0))
                     (fun _ => bind (act (setStatus
                        "Processing... This may take a while for large files."))
                        (fun _ => tryFinally
                           (tryCatch
                              (processBody sanitizeFilename getFileExtension
                                           localeCompare env f (segmentLength w))
                              (handleFailure sanitizeFilename env f (ffmpeg w)))
                           (act (setIsProcessing false)))))))).
  { apply preserves_bind; [apply preserves_act, R_processing|]. intros _.
    apply preserves_bind; [apply preserves_act, R_error|]. intros _.
    apply preserves_bind; [apply preserves_act, R_progress|]. intros _.
    apply preserves_bind; [apply preserves_act, R_status|]. intros _.
    apply preserves_tryFinally; [|apply preserves_act, R_processing].
    apply preserves_tryCatch; [apply preserves_processBody|].
    intros e. apply preserves_handleFailure. }
  exact (Hm w c w' H).
Qed.

End Preserving.

(* ===================================================================== *)
(** * The engine calls of a run *)
(* ===================================================================== *)

Section Calls.

Variable sanitizeFilename : string -> string.
Variable getFileExtension : string -> string.
Variable localeCompare : string -> string -> comparison.
Variable env : Env.

Lemma archiveLoop_calls (baseName outputExt : string) (total : nat) :
  forall (rest : list string) (i : nat) (zip : Zip) (w : World) c w',
    (forall o, In o rest -> In o (Engine.names (vfs w))) ->
    archiveLoop env baseName outputExt total i rest zip w = (c, w') ->
    resetTimers w' = resetTimers w /\
    match c with
    | Normal _ =>
        engineCalls w' = (engineCalls w ++ map ReadFile rest)%list /\
        forall o, In o rest -> readFileFault env o = None
    | Throw e =>
        exists j o, nth_error rest j = Some o /\ readFileFault env o = Some e /\
                    engineCalls w'
                    = (engineCalls w ++ map ReadFile (firstn (S j) rest))%list
    end.
Proof.
  induction rest as [|o rest IH]; intros i zip w c w' Hin H; simpl in H.
  - munfold. inversion H; subst. simpl. rewrite List.app_nil_r.
    repeat split. intros o [].
  - unfold bind at 1, Engine.readFile, Engine.call in H.
    destruct (readFileFault env o) as [e|] eqn:Ef.
    + inversion H; subst. split; [reflexivity|]. exists 0, o. now repeat split.
    + destruct (get_present o (vfs w) (Hin o (or_introl eq_refl))) as (d & Ed).
      simpl in H. rewrite Ed in H. unfold bind at 1, act at 1 in H.
      apply IH in H; [|simpl; intros o' Ho'; apply Hin; now right].
      destruct H as (Ht & Hc). simpl in Ht. split; [exact Ht|].
      destruct c as [z|e].
      * destruct Hc as [Hc Hok]. simpl in Hc. split.
        -- rewrite Hc, <- List.app_assoc. reflexivity.
        -- intros o' [<-|Ho']; [exact Ef | now apply Hok].
      * destruct Hc as (j & o' & Hn & Hf & Hc). exists (S j), o'. simpl in Hc.
        repeat split; try assumption.
        rewrite Hc, <- List.app_assoc. reflexivity.
Qed.

Lemma deleteFile_calls (missing : JsValue) (fault : option JsValue)
      (name : string) (w : World) c w' :
  Engine.deleteFile missing fault name w = (c, w') ->
  engineCalls w' = (engineCalls w ++ [DeleteFile name])%list.
Proof.
  unfold Engine.deleteFile, Engine.call.
  destruct fault; intros H; inversion H; subst; reflexivity.
Qed.

Lemma delete_outputs_calls (l : list string) : forall w c w',
  forEach l (fun o => Engine.deleteFile (missingEntry env) (deleteFileFault env o) o) w = (c, w') ->
  match c with
  | Normal _ =>
      engineCalls w' = (engineCalls w ++ map DeleteFile l)%list /\
      forall o, In o l -> deleteFileFault env o = None
  | Throw e =>
      exists k o, nth_error l k = Some o /\
                  engineCalls w'
                  = (engineCalls w ++ map DeleteFile (firstn (S k) l))%list
  end.
Proof.
  induction l as [|o l IH]; intros w c w' H; simpl in H.
  - munfold. inversion H; subst. simpl. rewrite List.app_nil_r.
    split; [reflexivity | intros o []].
  - unfold bind at 1 in H.
    destruct (Engine.deleteFile (missingEntry env) (deleteFileFault env o) o w) as [c1 w1] eqn:E1.
    pose proof (deleteFile_calls _ _ _ _ _ _ E1) as Hcall.
    apply deleteFile_run in E1 as [_ Hc1]. destruct c1 as [[]|e1].
    + destruct Hc1 as (Ef & _). apply IH in H. destruct c as [u|e].
      * destruct H as [Hc Hok]. split.
        -- rewrite Hc, Hcall, <- List.app_assoc. reflexivity.
        -- intros o' [<-|Ho']; [exact Ef | now apply Hok].
      * destruct H as (k & o' & Hn & Hc). exists (S k), o'.
        split; [exact Hn|].
        rewrite Hc, Hcall, <- List.app_assoc. reflexivity.
    + inversion H; subst. exists 0, o. split; [reflexivity | exact Hcall].
Qed.

(** The cleanup asks for the listing and then for the deletion of every
    listed residue, in listing order and whatever each deletion answers. *)
Lemma cleanup_loop_calls (sanitized : string) (l : list string) : forall w,
  exists w',
    forEach l
      (fun name =>
         if isResidue sanitized name
         then tryCatch (Engine.deleteFile (missingEntry env) (cleanupDeleteFault env name) name)
                       (fun _ => ret tt)
         else ret tt) w = (Normal tt, w') /\
    engineCalls w'
    = (engineCalls w ++ map DeleteFile (filter (isResidue sanitized) l))%list.
Proof.
  induction l as [|o l IH]; intros w; simpl.
  - exists w. now rewrite List.app_nil_r.
  - unfold bind at 1. destruct (isResidue sanitized o) eqn:Eres.
    + unfold tryCatch at 1.
      destruct (Engine.deleteFile (missingEntry env) (cleanupDeleteFault env o) o w) as [c1 w1] eqn:E1.
      apply deleteFile_calls in E1.
      destruct (IH w1) as (w' & Erun & Hc).
      exists w'.
      destruct c1 as [[]|e];
        [| change (ret tt w1) with (@Normal unit tt, w1); cbv beta iota ];
        rewrite Erun; (split; [reflexivity|]);
        rewrite Hc, E1; simpl; rewrite <- List.app_assoc; reflexivity.
    + change (ret tt w) with (@Normal unit tt, w). cbv beta iota.
      destruct (IH w) as (w' & -> & Hc). exists w'. now split.
Qed.

Lemma cleanup_calls (f : File) (w : World) :
  exists w',
    cleanup sanitizeFilename env f true w = (Normal tt, w') /\
    engineCalls w'
    = (engineCalls w
       ++ cleanupCalls env (sanitizeFilename (fileName f))
                       (Engine.names (vfs w)))%list.
Proof.
  unfold cleanup, cleanupCalls, tryCatch at 1, bind at 1, Engine.listDir, Engine.call.
  destruct (cleanupListDirFault env) as [e|].
  - eexists. split; reflexivity.
  - match goal with
    | |- context [forEach ?l ?b ?w0] =>
        destruct (cleanup_loop_calls (sanitizeFilename (fileName f)) l w0)
          as (w' & Erun & Hc)
    end.
    exists w'. rewrite Erun. split; [reflexivity|].
    rewrite Hc. simpl. rewrite <- List.app_assoc. reflexivity.
Qed.

End Calls.

Section BodyCalls.

Variable sanitizeFilename : string -> string.
Variable getFileExtension : string -> string.
Variable localeCompare : string -> string -> comparison.
Variable env : Env.

(** The [try] block again, for the engine calls it issues, the timer it
    schedules and the status it ends with. *)
Lemma processBody_calls (f : File) (segLen : Num) (w : World) c w' :
  processBody sanitizeFilename getFileExtension localeCompare env f segLen w
    = (c, w') ->
  let sanitized := sanitizeFilename (fileName f) in
  let outputExt := outputExtOf getFileExtension sanitized in
  let fs := afterExec env sanitized f (vfs w) in
  let outs := outputFilesOf localeCompare outputExt (Engine.names fs) in
  exists (s : Stage) (k : nat),
    passed env s /\
    stoppedAt env sanitized outs s c /\
    engineCalls w'
    = (engineCalls w
       ++ issuedIn sanitized (execArgv sanitized segLen outputExt) outs s k)%list /\
    (s <> Completed -> resetTimers w' = resetTimers w) /\
    (s = Completed ->
     resetTimers w' = S (resetTimers w) /\
     progress w' = 100%Q /\
     status w' = "Success! Created " ++ JsString.ofNat (List.length outs)
                 ++ " segments. Download started." /\
     (forall o, In o outs -> readFileFault env o = None) /\
     (forall o, In o (outs ++ [sanitized])%list -> deleteFileFault env o = None)).
Proof.
  intros H sanitized outputExt fs outs.
  unfold processBody in H. cbv zeta in H.
  fold sanitized in H. fold outputExt in H.
  unfold bind, act, lift, tryCatch, throw, ret, Engine.writeFile, Engine.exec,
    Engine.listDir, Engine.call in H.
  destruct (arrayBufferFault env) as [e|] eqn:Eab.
  { inversion H; subst. exists Loading, 0. simpl. rewrite List.app_nil_r.
    repeat split; eauto; discriminate. }
  destruct (writeFileFault env) as [e|] eqn:Ewf.
  { inversion H; subst. exists Writing, 0. simpl.
    repeat split; eauto; discriminate. }
  destruct (execFault env) as [v|] eqn:Eex.
  { exists Segmenting, 0.
    assert (Hc : c = Throw (segmentationError v)).
    { unfold segmentationError.
      destruct (Js.describeWith _ _ _ v); inversion H; reflexivity. }
    assert (Hw : engineCalls w'
                 = (engineCalls w
                    ++ [WriteFile sanitized;
                        Exec (execArgv sanitized segLen outputExt)])%list /\
                 resetTimers w' = resetTimers w).
    { destruct (Js.describeWith _ _ _ v); inversion H; subst; simpl;
        rewrite <- List.app_assoc; now split. }
    destruct Hw as [Hw1 Hw2]. subst c. simpl.
    repeat split; eauto; discriminate. }
  destruct (listDirFault env) as [e|] eqn:Eld.
  { inversion H; subst. exists Listing, 0. simpl.
    rewrite <- !List.app_assoc. repeat split; eauto; discriminate. }
  match type of H with
  | context [Engine.names (vfs ?W)] => change (vfs W) with fs in H
  end.
  pose proof (eq_refl : outs = outputFilesOf localeCompare outputExt
                                             (Engine.names fs)) as Houts.
  assert (Hin : forall o, In o outs -> In o (Engine.names fs)).
  { intros o Ho. now apply outputFilesOf_in in Ho. }
  clearbody outs. rewrite <- Houts in H.
  destruct outs as [|o1 rest].
  { inversion H; subst. exists Collecting, 0. simpl.
    rewrite <- !List.app_assoc. repeat split; eauto; discriminate. }
  match type of H with
  | context [archiveLoop _ _ _ _ _ _ _ ?W0] => set (W := W0) in H
  end.
  assert (HW : engineCalls W
               = (engineCalls w
                  ++ [WriteFile sanitized;
                      Exec (execArgv sanitized segLen outputExt);
                      ListDir "/"])%list /\
               vfs W = fs /\ resetTimers W = resetTimers w).
  { subst W. simpl. rewrite <- !List.app_assoc. now repeat split. }
  destruct HW as (HWc & HWv & HWt). clearbody W.
  destruct (archiveLoop env (baseNameOf sanitized) outputExt
                        (List.length (o1 :: rest)) 0 (o1 :: rest) [] W)
    as [c1 w1] eqn:Eloop.
  pose proof Eloop as Eloop0.
  apply archiveLoop_calls in Eloop; [| now rewrite HWv ].
  destruct Eloop as (Ht1 & Hc1). rewrite HWt in Ht1. rewrite HWc in Hc1.
  destruct c1 as [z|e].
  2:{ destruct Hc1 as (j & o & Hn & Hf & Hc). inversion H; subst.
      exists (Archiving j), 0. unfold stoppedAt, issuedIn, passed.
      rewrite Hc, <- List.app_assoc.
      split; [repeat split; assumption|].
      split; [exists e, o; repeat split; assumption|].
      split; [reflexivity|].
      split; [intros _; assumption | intros HC; discriminate HC]. }
  destruct Hc1 as [Hc1 Hreads].
  destruct (generateFault env) as [e|] eqn:Egen.
  { inversion H; subst. exists Finalizing, 0. unfold stoppedAt, issuedIn, passed.
    wproj. rewrite Hc1, <- List.app_assoc.
    split; [repeat split; assumption|].
    split; [exists e; repeat split; auto; discriminate|].
    split; [reflexivity|].
    split; [intros _; assumption | intros HC; discriminate HC]. }
  match type of H with
  | context [forEach _ _ ?W0] => set (W2 := W0) in H
  end.
  assert (HW2 : engineCalls W2 = engineCalls w1 /\ resetTimers W2 = resetTimers w1 /\
                vfs W2 = vfs w1).
  { subst W2. now repeat split. }
  destruct HW2 as (HW2c & HW2t & HW2v). clearbody W2.
  destruct (forEach (o1 :: rest)
                    (fun outputFile =>
                       Engine.deleteFile (missingEntry env) (deleteFileFault env outputFile) outputFile)
                    W2) as [c2 w2] eqn:Edel.
  pose proof (delete_outputs_run _ _ _ _ _ Edel) as (Hs2 & _ & Hrun2).
  assert (HW2v' : vfs W2 = fs).
  { rewrite HW2v. apply archiveLoop_run in Eloop0;
      [| now rewrite HWv | intros k0 _ []].
    destruct Eloop0 as (Hv1 & _). now rewrite Hv1. }
  rewrite HW2v' in Hrun2.
  assert (Ht2 : resetTimers w2 = resetTimers W2) by (unfold sameDisplay in Hs2; tauto).
  apply delete_outputs_calls in Edel.
  destruct c2 as [u|e].
  2:{ destruct Edel as (k & o & Hn & Hc). inversion H; subst.
      exists Releasing, k. unfold stoppedAt, issuedIn, passed.
      rewrite Hc, HW2c, Hc1, <- !List.app_assoc.
      split; [repeat split; assumption|].
      split.
      { destruct Hrun2 as (o' & Ho' & Hf).
        exists e, o'. split; [reflexivity|]. split; [now left|].
        split; [|discriminate].
        destruct Hf as [Hf|(He & Hf & Hwhy)]; [now left|].
        right. split; [exact He|]. split; [exact Hf|].
        intros Hnd. apply NoDup_snoc in Hnd as [Hnd _].
        destruct Hwhy as [Habs|Hdup]; [apply Habs; now apply Hin | now apply Hdup]. }
      split.
      { do 2 f_equal. f_equal. f_equal.
        rewrite firstn_app.
        assert (Hk : k < List.length (o1 :: rest))
          by (apply nth_error_Some; congruence).
        replace (S k - List.length (o1 :: rest)) with 0 by lia.
        simpl. now rewrite List.app_nil_r. }
      split; [intros _; congruence | discriminate]. }
  destruct Edel as [Hc2 Hdels].
  destruct Hrun2 as (Hgone2 & Hkept2 & Hnd2 & _).
  destruct (Engine.deleteFile (missingEntry env) (deleteFileFault env sanitized) sanitized w2)
    as [c3 w3] eqn:Edel3.
  pose proof (deleteFile_calls _ _ _ _ _ _ Edel3) as Hc3.
  apply deleteFile_run in Edel3 as (Hs3 & Hf3).
  assert (Ht3 : resetTimers w3 = resetTimers w2) by (unfold sameDisplay in Hs3; tauto).
  destruct c3 as [u3|e].
  2:{ destruct Hf3 as [_ Hf]. inversion H; subst.
      exists Releasing, (List.length (o1 :: rest)).
      unfold stoppedAt, issuedIn, passed.
      rewrite Hc3, Hc2, HW2c, Hc1, <- !List.app_assoc.
      split; [repeat split; assumption|].
      split.
      { exists e, sanitized. split; [reflexivity|]. split; [now right|].
        split; [|discriminate].
        destruct Hf as [Hf|(Hf & He & Habs)]; [now left|].
        right. split; [exact He|]. split; [exact Hf|].
        intros Hnd. apply NoDup_snoc in Hnd as [_ Hnot].
        apply Habs, Hkept2; [apply afterExec_lists_input | exact Hnot]. }
      split.
      { do 2 f_equal. f_equal. f_equal.
        rewrite firstn_all2 by (rewrite List.length_app; simpl; lia).
        now rewrite map_app. }
      split; [intros _; congruence | discriminate]. }
  destruct Hf3 as (Hf3 & Hpresent3 & _). inversion H; subst c w'. clear H.
  exists Completed, 0. unfold stoppedAt, issuedIn, passed. wproj.
  rewrite Hc3, Hc2, HW2c, Hc1, <- !List.app_assoc.
  split; [repeat split; assumption|].
  split.
  { split; [reflexivity|]. split; [discriminate|].
    apply NoDup_snoc. split; [exact Hnd2|]. intros Hino.
    now apply (Hgone2 sanitized Hpresent3). }
  split; [now rewrite map_app|].
  split; [intros Hne; now elim Hne|].
  intros _. split; [congruence|]. split; [reflexivity|]. split; [reflexivity|].
  split; [exact Hreads|].
  intros o Ho. apply in_app_or in Ho as [Ho|[<-|[]]]; [now apply Hdels | exact Hf3].
Qed.

End BodyCalls.

(* ===================================================================== *)
(** * Entries the run has no business with *)
(* ===================================================================== *)

Lemma get_remove_other (name o : string) (fs : Vfs) :
  name <> o -> Engine.get name (Engine.remove o fs) = Engine.get name fs.
Proof.
  intros Hne. unfold Engine.remove.
  induction fs as [|[a d] fs IH]; simpl; [reflexivity|].
  destruct (String.eqb_spec a o) as [->|Hao]; simpl.
  - destruct (String.eqb_spec o name); [congruence | exact IH].
  - destruct (String.eqb a name); [reflexivity | exact IH].
Qed.

Lemma get_app (name : string) (a b : Vfs) :
  Engine.get name (a ++ b)%list
  = match Engine.get name a with
    | Some d => Some d
    | None => Engine.get name b
    end.
Proof.
  induction a as [|[n d] a IH]; simpl; [reflexivity|].
  destruct (String.eqb n name); [reflexivity | exact IH].
Qed.

Lemma get_put_other (name o : string) (d : bytes) (fs : Vfs) :
  name <> o -> Engine.get name (Engine.put o d fs) = Engine.get name fs.
Proof.
  intros Hne. unfold Engine.put. rewrite get_app, get_remove_other by assumption.
  destruct (Engine.get name fs); [reflexivity|]. simpl.
  destruct (String.eqb_spec o name); [congruence | reflexivity].
Qed.

(** What was written is what is read back. *)
Lemma get_put_same (o : string) (d : bytes) (fs : Vfs) :
  Engine.get o (Engine.put o d fs) = Some d.
Proof.
  unfold Engine.put. rewrite get_app.
  assert (Hn : Engine.get o (Engine.remove o fs) = None).
  { unfold Engine.remove. induction fs as [|[a x] fs IH]; simpl; [reflexivity|].
    destruct (String.eqb_spec a o) as [->|Hao]; simpl; [exact IH|].
    destruct (String.eqb_spec a o); [congruence | exact IH]. }
  rewrite Hn. simpl. now rewrite String.eqb_refl.
Qed.

Lemma get_putAll_other (name : string) (entries : list (string * bytes)) :
  forall fs,
    existsb (String.eqb name) (map fst entries) = false ->
    Engine.get name (Engine.putAll entries fs) = Engine.get name fs.
Proof.
  unfold Engine.putAll.
  induction entries as [|[o d] entries IH]; intros fs H; simpl in *; [reflexivity|].
  apply orb_false_iff in H as [Ho Hrest].
  rewrite IH by assumption. apply get_put_other. now apply String.eqb_neq.
Qed.

Lemma touched_not_residue (env : Env) (sanitized name o : string) :
  touched env sanitized name = false ->
  isResidue sanitized o = true -> name <> o.
Proof.
  unfold touched. intros Ht Hr ->. apply orb_false_iff in Ht as [Ht _]. congruence.
Qed.

(** X4.  Whatever a run does and however it ends, an entry of the engine's
    filesystem that is not named as the sanitized input, does not carry the
    output prefix and is not written by the command keeps its bytes; an
    absent one stays absent. *)
Theorem run_leaves_other_entries
        (sanitizeFilename getFileExtension : string -> string)
        (localeCompare : string -> string -> comparison)
        (env : Env) (w : World) (f : File) (c : Completion Exit) (w' : World) :
  file w = Some f ->
  handleProcess sanitizeFilename getFileExtension localeCompare env w = (c, w') ->
  forall name,
    touched env (sanitizeFilename (fileName f)) name = false ->
    Engine.get name (vfs w') = Engine.get name (vfs w).
Proof.
  intros Hf Hrun.
  change (agreeOutside env (sanitizeFilename (fileName f)) w w').
  apply (preserves_handleProcess
           (agreeOutside env (sanitizeFilename (fileName f))))
    with (sanitizeFilename := sanitizeFilename)
         (getFileExtension := getFileExtension)
         (localeCompare := localeCompare) (env := env) (f := f) (c := c);
    try assumption; try (now left);
    unfold agreeOutside; try (intros; reflexivity).
  - intros w1 w2 w3 H12 H23 name Hn. now rewrite H23, H12.
  - intros d w0 name Hn. simpl. apply get_put_other.
    apply (touched_not_residue env _ _ _ Hn). apply residue_of_input.
  - intros w0 name Hn. simpl. apply get_putAll_other.
    unfold touched in Hn. now apply orb_false_iff in Hn.
  - intros o w0 Ho name Hn. simpl. apply get_remove_other.
    now apply (touched_not_residue env _ _ _ Hn).
Qed.

Lemma run_leaves_other_entries_witness :
  Engine.get "notes.txt"
    (vfs (snd (Fixture.run
                 (Fixture.quiet [("out_00.mp4", Fixture.seg 1)])
                 (mkWorld (Some (mkFile "clip.mp4" (Fixture.seg 7))) (Finite 30) false 0
                          "" "" true true
                          [("notes.txt", Fixture.seg 9); ("out_99.mp4", Fixture.seg 8)]
                          [] [] [] 0))))
  = Some (Fixture.seg 9).
Proof.
  apply (run_leaves_other_entries
           (FileUtils.sanitize "file") FileUtils.extensionOf codeUnitCompare
           (Fixture.quiet [("out_00.mp4", Fixture.seg 1)])
           (mkWorld (Some (mkFile "clip.mp4" (Fixture.seg 7))) (Finite 30) false 0
                    "" "" true true
                    [("notes.txt", Fixture.seg 9); ("out_99.mp4", Fixture.seg 8)]
                    [] [] [] 0)
           (mkFile "clip.mp4" (Fixture.seg 7))
           (Normal Succeeded)).
  - reflexivity.
  - vm_compute. reflexivity.
  - reflexivity.
Defined.

(* ===================================================================== *)
(** * How a run settles *)
(* ===================================================================== *)

Lemma accepted_or_not (w : World) :
  (exists f, accepted w f) \/
  (file w = None \/ isLoaded w = false \/ ffmpeg w = false \/
   Double.leZero (segmentLength w) = true).
Proof.
  unfold accepted. destruct (file w) as [f|]; [|auto].
  destruct (isLoaded w); [|auto]. destruct (ffmpeg w); [|auto 6].
  destruct (Double.leZero (segmentLength w)); [auto 6|].
  left. exists f. now repeat split.
Qed.

Lemma handleProcess_settles_idle
        (sanitizeFilename getFileExtension : string -> string)
        (localeCompare : string -> string -> comparison)
        (env : Env) (w : World) (c : Completion Exit) (w' : World) :
  isProcessing w = false ->
  handleProcess sanitizeFilename getFileExtension localeCompare env w = (c, w') ->
  sameInputs w w' /\ isProcessing w' = false.
Proof.
  intros Hidle Hrun. split.
  - apply (preserves_handleProcess sameInputs)
      with (sanitizeFilename := sanitizeFilename)
           (getFileExtension := getFileExtension)
           (localeCompare := localeCompare) (env := env)
           (f := match file w with Some f => f | None => mkFile "" [] end)
           (c := c);
      try assumption; try (intros; now repeat split).
    + unfold sameInputs. intros w1 w2 w3 H12 H23.
      repeat match goal with H : _ /\ _ |- _ => destruct H end.
      repeat split; congruence.
    + destruct (file w); auto.
  - destruct (accepted_or_not w) as [[f Hacc]|Hrej].
    + destruct (handleProcess_run _ _ _ _ _ _ _ _ Hacc Hrun)
        as (_ & _ & _ & _ & _ & _ & Hip & _). exact Hip.
    + destruct (rejected_run sanitizeFilename getFileExtension localeCompare
                             env w Hrej) as (msg & _ & E).
      rewrite E in Hrun. inversion Hrun; subst. exact Hidle.
Qed.

(** X1.  [handleProcess] never changes the selection, the segment length or
    the hook's values, and when it settles, by a return or by a rejected
    promise, the processing flag is off, provided it was off when the run was
    requested (the button is disabled otherwise). *)
Theorem run_keeps_inputs_and_clears_flag
        (sanitizeFilename getFileExtension : string -> string)
        (localeCompare : string -> string -> comparison)
        (env : Env) (w : World) (c : Completion Exit) (w' : World) :
  isProcessing w = false ->
  handleProcess sanitizeFilename getFileExtension localeCompare env w = (c, w') ->
  sameInputs w w' /\ isProcessing w' = false.
Proof. apply handleProcess_settles_idle. Qed.

Lemma run_keeps_inputs_and_clears_flag_witness :
  isProcessing
    (snd (Fixture.run (Fixture.execRejects (JBare JUndefined) [])
                      (Fixture.ready "clip.mp4" (Fixture.seg 7) 30))) = false.
Proof.
  refine (proj2 (run_keeps_inputs_and_clears_flag
                   (FileUtils.sanitize "file") FileUtils.extensionOf
                   codeUnitCompare
                   (Fixture.execRejects (JBare JUndefined) [])
                   (Fixture.ready "clip.mp4" (Fixture.seg 7) 30)
                   (Normal Failed) _ eq_refl _)).
  vm_compute. reflexivity.
Defined.



Section RunCalls.

Variable sanitizeFilename : string -> string.
Variable getFileExtension : string -> string.
Variable localeCompare : string -> string -> comparison.
Variable env : Env.

Lemma processBody_keeps_error (f : File) (segLen : Num) (w : World) c w' :
  processBody sanitizeFilename getFileExtension localeCompare env f segLen w
    = (c, w') ->
  error w' = error w.
Proof.
  intros H.
  apply (preserves_processBody (fun a b => error b = error a))
    with (sanitizeFilename := sanitizeFilename)
         (getFileExtension := getFileExtension)
         (localeCompare := localeCompare) (env := env) (f := f)
         (segLen := segLen) (c := c);
    try assumption; try (intros; reflexivity).
  intros w1 w2 w3 H12 H23. congruence.
Qed.

Lemma handleFailure_calls (f : File) (err : JsValue) (w : World) (shown : string) :
  Js.describeWith "err" "Error processing file: " "Unknown error occurred" err
    = Normal shown ->
  exists w',
    handleFailure sanitizeFilename env f true err w = (Normal Failed, w') /\
    engineCalls w'
    = (engineCalls w
       ++ cleanupCalls env (sanitizeFilename (fileName f))
                       (Engine.names (vfs w)))%list /\
    resetTimers w' = resetTimers w /\ progress w' = progress w.
Proof.
  intros Ed. unfold handleFailure, bind at 1, lift. rewrite Ed.
  unfold bind at 1, act at 1, bind at 1, act at 1, bind at 1.
  destruct (cleanup_calls sanitizeFilename env f (setStatus "" (setError shown w)))
    as (w' & Erun & Hc).
  destruct (cleanup_run sanitizeFilename env f (setStatus "" (setError shown w)))
    as (w2 & Erun2 & Hd & _).
  rewrite Erun in Erun2. injection Erun2 as <-.
  rewrite Erun. exists w'. unfold ret. split; [reflexivity|].
  unfold sameDisplay in Hd. simpl in Hd, Hc.
  repeat match goal with H : _ /\ _ |- _ => destruct H end.
  repeat split; assumption.
Qed.

(** A run that passes the precondition checks, for its engine calls, its
    timer and what it displays at the end. *)
Lemma handleProcess_calls (w : World) (f : File) c w' :
  accepted w f ->
  handleProcess sanitizeFilename getFileExtension localeCompare env w = (c, w') ->
  let sanitized := sanitizeFilename (fileName f) in
  let outputExt := outputExtOf getFileExtension sanitized in
  let argv := execArgv sanitized (segmentLength w) outputExt in
  let fs := afterExec env sanitized f (vfs w) in
  let outs := outputFilesOf localeCompare outputExt (Engine.names fs) in
  exists (s : Stage) (k : nat) (cb : Completion Exit),
    passed env s /\
    stoppedAt env sanitized outs s cb /\
    match cb with
    | Normal _ =>
        c = Normal Succeeded /\ s = Completed /\
        engineCalls w'
        = (engineCalls w ++ issuedIn sanitized argv outs Completed 0)%list /\
        resetTimers w' = S (resetTimers w) /\
        progress w' = 100%Q /\ error w' = "" /\
        status w' = "Success! Created " ++ JsString.ofNat (List.length outs)
                    ++ " segments. Download started." /\
        (forall o, In o outs -> readFileFault env o = None) /\
        (forall o, In o (outs ++ [sanitized])%list -> deleteFileFault env o = None)
    | Throw err =>
        s <> Completed /\
        resetTimers w' = resetTimers w /\
        match Js.describeWith "err" "Error processing file: "
                              "Unknown error occurred" err with
        | Throw e =>
            c = Throw e /\ error w' = "" /\
            engineCalls w' = (engineCalls w ++ issuedIn sanitized argv outs s k)%list
        | Normal shown =>
            c = Normal Failed /\ error w' = shown /\
            exists files,
              engineCalls w'
              = (engineCalls w ++ issuedIn sanitized argv outs s k
                 ++ cleanupCalls env sanitized files)%list
        end
    end.
Proof.
  intros Hacc H sanitized outputExt argv fs outs.
  rewrite (accepted_run _ _ _ _ _ _ Hacc) in H.
  unfold tryFinally, tryCatch in H.
  match type of H with
  | context [processBody _ _ _ _ _ _ ?W0] => set (W := W0) in H
  end.
  assert (HW : engineCalls W = engineCalls w /\ vfs W = vfs w /\
               resetTimers W = resetTimers w /\ error W = "").
  { subst W. now repeat split. }
  destruct HW as (HWc & HWv & HWt & HWe).
  destruct (processBody sanitizeFilename getFileExtension localeCompare env f
                        (segmentLength w) W) as [cb wb] eqn:Eb.
  pose proof (processBody_keeps_error _ _ _ _ _ Eb) as Herr. rewrite HWe in Herr.
  apply processBody_calls in Eb. cbv zeta in Eb. rewrite HWv, HWc, HWt in Eb.
  fold sanitized outputExt argv fs outs in Eb.
  destruct Eb as (s & k & Hpass & Hs & Hcalls & Hfail & Hdone).
  exists s, k, cb. split; [exact Hpass|]. split; [exact Hs|].
  destruct cb as [x|err].
  - destruct (stoppedAt_normal _ _ _ _ _ Hs) as [-> ->].
    destruct (Hdone eq_refl) as (Ht & Hp & Hst & Hr & Hd).
    unfold act in H. inversion H; subst c w'. clear H. wproj.
    repeat split; assumption.
  - assert (Hne : s <> Completed).
    { intros ->. simpl in Hs. destruct Hs. discriminate. }
    split; [exact Hne|].
    destruct (Js.describeWith "err" "Error processing file: "
                              "Unknown error occurred" err) as [shown|e] eqn:Ed.
    + destruct (handleFailure_calls f err wb shown Ed)
        as (w2 & E2 & Hc2 & Ht2 & _).
      pose proof (handleFailure_run sanitizeFilename env f err wb) as Hf.
      rewrite Ed in Hf. destruct Hf as (w3 & E3 & He3 & _).
      rewrite E2 in E3. injection E3 as <-.
      rewrite E2 in H. unfold act in H. inversion H; subst c w'. clear H. wproj.
      split; [now rewrite Ht2, (Hfail Hne)|].
      split; [reflexivity|]. split; [exact He3|].
      exists (Engine.names (vfs wb)). now rewrite Hc2, Hcalls, <- List.app_assoc.
    + pose proof (handleFailure_run sanitizeFilename env f err wb) as Hf.
      rewrite Ed in Hf. rewrite Hf in H.
      unfold act in H. inversion H; subst c w'. clear H. wproj.
      split; [now apply Hfail|]. now repeat split.
Qed.

End RunCalls.

Lemma filter_isExec_reads (l : list string) : filter isExec (map ReadFile l) = [].
Proof. induction l; simpl; auto. Qed.

Lemma filter_isExec_deletes (l : list string) : filter isExec (map DeleteFile l) = [].
Proof. induction l; simpl; auto. Qed.

Lemma filter_isWrite_reads (l : list string) : filter isWrite (map ReadFile l) = [].
Proof. induction l; simpl; auto. Qed.

Lemma filter_isWrite_deletes (l : list string) : filter isWrite (map DeleteFile l) = [].
Proof. induction l; simpl; auto. Qed.

Lemma cleanupCalls_kinds (env : Env) (sanitized : string) (files : list string) :
  filter isExec (cleanupCalls env sanitized files) = [] /\
  filter isWrite (cleanupCalls env sanitized files) = [].
Proof.
  unfold cleanupCalls. destruct (cleanupListDirFault env); simpl;
    now rewrite ?filter_isExec_deletes, ?filter_isWrite_deletes.
Qed.

Lemma issuedIn_kinds (sanitized : string) (argv outs : list string)
      (s : Stage) (k : nat) :
  (filter isWrite (issuedIn sanitized argv outs s k) = [] /\
   filter isExec (issuedIn sanitized argv outs s k) = [] \/
   filter isWrite (issuedIn sanitized argv outs s k) = [WriteFile sanitized] /\
   filter isExec (issuedIn sanitized argv outs s k) = [] \/
   filter isWrite (issuedIn sanitized argv outs s k) = [WriteFile sanitized] /\
   filter isExec (issuedIn sanitized argv outs s k) = [Exec argv] /\
   firstn 2 (issuedIn sanitized argv outs s k) = [WriteFile sanitized; Exec argv]).
Proof.
  destruct s; unfold issuedIn; simpl;
    rewrite ?filter_app, ?filter_isExec_reads, ?filter_isExec_deletes,
      ?filter_isWrite_reads, ?filter_isWrite_deletes; simpl; auto 10.
Qed.

(** X3.  A run writes at most once, the sanitized input, and runs at most
    one command, the one of lines 94-102, issued right after that write as
    the second call of the run; every other call is a listing, a read or a
    deletion.  The segment time is passed as [Number.prototype.toString]
    prints the stored length: [1e+21] for the length 10^21. *)
Theorem run_writes_once_and_executes_once
        (sanitizeFilename getFileExtension : string -> string)
        (localeCompare : string -> string -> comparison)
        (env : Env) (w : World) (f : File) (c : Completion Exit) (w' : World) :
  accepted w f ->
  handleProcess sanitizeFilename getFileExtension localeCompare env w = (c, w') ->
  let sanitized := sanitizeFilename (fileName f) in
  let argv := execArgv sanitized (segmentLength w)
                       (outputExtOf getFileExtension sanitized) in
  exists issued,
    engineCalls w' = (engineCalls w ++ issued)%list /\
    (filter isWrite issued = [] \/ filter isWrite issued = [WriteFile sanitized]) /\
    (filter isExec issued = [] \/
     filter isExec issued = [Exec argv] /\
     firstn 2 issued = [WriteFile sanitized; Exec argv]) /\
    firstn 6 argv = ["-i"; sanitized; "-f"; "segment"; "-segment_time";
                     Double.toString (segmentLength w)].
Proof.
  intros Hacc Hrun sanitized argv.
  cut (exists issued,
          engineCalls w' = (engineCalls w ++ issued)%list /\
          (filter isWrite issued = [] \/ filter isWrite issued = [WriteFile sanitized]) /\
          (filter isExec issued = [] \/
           filter isExec issued = [Exec argv] /\
           firstn 2 issued = [WriteFile sanitized; Exec argv])).
  { intros (issued & H1 & H2 & H3). exists issued. now repeat split. }
  destruct (handleProcess_calls _ _ _ _ _ _ _ _ Hacc Hrun)
    as (s & k & cb & _ & _ & Hout).
  fold sanitized argv in Hout.
  match type of Hout with
  | context [issuedIn sanitized argv ?o _ _] => set (outs := o) in *
  end.
  assert (Hgen : forall s k tail,
             filter isExec tail = [] -> filter isWrite tail = [] ->
             let issued := (issuedIn sanitized argv outs s k ++ tail)%list in
             (filter isWrite issued = [] \/
              filter isWrite issued = [WriteFile sanitized]) /\
             (filter isExec issued = [] \/
              filter isExec issued = [Exec argv] /\
              firstn 2 issued = [WriteFile sanitized; Exec argv])).
  { intros s0 k0 tail He Hw issued. subst issued.
    rewrite !filter_app, He, Hw, !List.app_nil_r.
    destruct (issuedIn_kinds sanitized argv outs s0 k0)
      as [[-> ->]|[[-> ->]|(-> & -> & H2)]]; auto.
    split; [auto|]. right. split; [reflexivity|].
    destruct (issuedIn sanitized argv outs s0 k0) as [|a [|b l]];
      simpl in *; try discriminate. exact H2. }
  destruct cb as [x|err].
  - destruct Hout as (_ & _ & Hc & _).
    exists (issuedIn sanitized argv outs Completed 0 ++ [])%list.
    split; [now rewrite List.app_nil_r|]. now apply Hgen.
  - destruct Hout as (_ & _ & Hout).
    destruct (Js.describeWith _ _ _ err).
    + destruct Hout as (_ & _ & files & Hc).
      exists (issuedIn sanitized argv outs s k
              ++ cleanupCalls env sanitized files)%list.
      split; [exact Hc|].
      apply Hgen; apply (cleanupCalls_kinds env sanitized files).
    + destruct Hout as (_ & _ & Hc).
      exists (issuedIn sanitized argv outs s k ++ [])%list.
      split; [now rewrite List.app_nil_r|]. now apply Hgen.
Qed.

Lemma run_writes_once_and_executes_once_witness :
  exists issued,
    engineCalls
      (snd (Fixture.run
              (Fixture.execRejects (JStr "Conversion failed!")
                                   [("out_00.mp4", Fixture.seg 1)])
              (Fixture.ready "clip.mp4" (Fixture.seg 7) (10 ^ 21))))
    = issued /\
    filter isExec issued
    = [Exec ["-i"; "clip.mp4"; "-f"; "segment"; "-segment_time"; "1e+21";
             "-c"; "copy"; "-reset_timestamps"; "1"; "-segment_format"; "mp4";
             "out_%02d.mp4"]].
Proof.
  assert (Hacc : accepted (Fixture.ready "clip.mp4" (Fixture.seg 7) (10 ^ 21))
                          (mkFile "clip.mp4" (Fixture.seg 7)))
    by (repeat split).
  assert (Hrun :
            handleProcess (FileUtils.sanitize "file") FileUtils.extensionOf
              codeUnitCompare
              (Fixture.execRejects (JStr "Conversion failed!")
                                   [("out_00.mp4", Fixture.seg 1)])
              (Fixture.ready "clip.mp4" (Fixture.seg 7) (10 ^ 21))
            = (Normal Failed,
               snd (Fixture.run
                      (Fixture.execRejects (JStr "Conversion failed!")
                                           [("out_00.mp4", Fixture.seg 1)])
                      (Fixture.ready "clip.mp4" (Fixture.seg 7) (10 ^ 21)))))
    by (vm_compute; reflexivity).
  destruct (run_writes_once_and_executes_once _ _ _ _ _ _ _ _ Hacc Hrun)
    as (issued & Hc & _ & _).
  exists issued. split; [exact Hc|].
  vm_compute in Hc. rewrite <- Hc. reflexivity.
Defined.

(** X5.  The cleanup of the [catch] block never throws; it asks for one
    listing and then for the deletion of every listed entry that is named as
    the sanitized input or carries the output prefix, once each and in
    listing order, going on after a deletion that was rejected; when the
    listing is rejected it deletes nothing. *)
Theorem cleanup_attempts_every_residue
        (sanitizeFilename : string -> string) (env : Env) (f : File) (w : World) :
  exists w',
    cleanup sanitizeFilename env f true w = (Normal tt, w') /\
    engineCalls w'
    = (engineCalls w
       ++ ListDir "/" ::
          match cleanupListDirFault env with
          | Some _ => []
          | None =>
              map DeleteFile
                  (filter (isResidue (sanitizeFilename (fileName f)))
                          (Engine.names (vfs w)))
          end)%list.
Proof. exact (cleanup_calls sanitizeFilename env f w). Qed.

(** X6.  A run that passes the precondition checks succeeds exactly when at
    least one listed name qualifies as an output, none of its calls is
    rejected by its collaborator (the load and the write of the input, the
    command, the listing, the read of each output, the generation of the
    archive, the deletion of each output and of the input), and no deletion
    is asked for an entry that is gone already: the outputs are pairwise
    distinct and the input is not one of them.  On a filesystem that lists
    no name twice this last condition says that the sanitized input name
    does not itself qualify as an output; an input that does, such as
    [out_clip.mp4], never succeeds, since line 155 deletes again what line
    153 has deleted.  The engine calls of a run that succeeds are the write,
    the command, the listing, one read per output in sorted order, one
    deletion per output in the same order, and the deletion of the input. *)
Theorem run_succeeds_iff_nothing_rejects
        (sanitizeFilename getFileExtension : string -> string)
        (localeCompare : string -> string -> comparison)
        (env : Env) (w : World) (f : File) (c : Completion Exit) (w' : World) :
  accepted w f ->
  handleProcess sanitizeFilename getFileExtension localeCompare env w = (c, w') ->
  let sanitized := sanitizeFilename (fileName f) in
  let outputExt := outputExtOf getFileExtension sanitized in
  let argv := execArgv sanitized (segmentLength w) outputExt in
  let outs := outputFilesOf localeCompare outputExt
                (Engine.names (afterExec env sanitized f (vfs w))) in
  let nothingRejects :=
    arrayBufferFault env = None /\ writeFileFault env = None /\
    execFault env = None /\ listDirFault env = None /\
    (forall o, In o outs -> readFileFault env o = None) /\
    generateFault env = None /\
    (forall o, In o (outs ++ [sanitized])%list -> deleteFileFault env o = None) in
  (c = Normal Succeeded <->
   outs <> [] /\ nothingRejects /\ NoDup (outs ++ [sanitized])%list) /\
  (NoDup (Engine.names (vfs w)) ->
   (NoDup (outs ++ [sanitized])%list <-> isOutputFile outputExt sanitized = false)) /\
  (c = Normal Succeeded ->
   engineCalls w'
   = (engineCalls w
      ++ [WriteFile sanitized; Exec argv; ListDir "/"]
      ++ map ReadFile outs ++ map DeleteFile outs ++ [DeleteFile sanitized])%list).
Proof.
  intros Hacc Hrun sanitized outputExt argv outs nothingRejects.
  destruct (handleProcess_calls _ _ _ _ _ _ _ _ Hacc Hrun)
    as (s & k & cb & Hpass & Hs & Hout).
  fold sanitized outputExt argv outs in Hs, Hout.
  assert (Hcb : c = Normal Succeeded -> exists x, cb = Normal x).
  { intros ->. destruct cb as [x|err]; [eauto|].
    destruct Hout as (_ & _ & Hout).
    destruct (Js.describeWith _ _ _ err); destruct Hout as [Hc _]; discriminate. }
  split; [split|split].
  - intros Hc. destruct (Hcb Hc) as [x ->].
    destruct Hout as (_ & -> & _ & _ & _ & _ & _ & Hr & Hd).
    simpl in Hs, Hpass. destruct Hs as (_ & Hne & Hnd).
    destruct Hpass as (? & ? & ? & ? & ?).
    split; [exact Hne|]. split; [|exact Hnd]. repeat split; assumption.
  - intros (Hne & (Hab & Hwf & Hex & Hld & Hrd & Hgen & Hdel) & Hnd).
    destruct cb as [x|err]; [now destruct Hout|]. exfalso.
    destruct s; simpl in Hs;
      repeat match goal with
             | H : exists _, _ |- _ => destruct H
             | H : _ /\ _ |- _ => destruct H
             end; try congruence.
    + match goal with
      | H : nth_error outs _ = Some ?o, H' : readFileFault env ?o = Some _ |- _ =>
          rewrite (Hrd o (nth_error_In _ _ H)) in H'; discriminate
      end.
    + match goal with
      | H : In ?o outs \/ ?o = sanitized,
        H' : deleteFileFault env ?o = Some _ \/ _ |- _ =>
          destruct H' as [H'|(_ & _ & H')]; [|now apply H'];
          rewrite (Hdel o) in H'; [discriminate|];
          apply in_or_app; destruct H as [H| ->]; [now left | right; now left]
      end.
  - intros Hfs. rewrite NoDup_snoc.
    assert (Hnd : NoDup outs).
    { apply NoDup_outputFilesOf. unfold afterExec.
      now apply NoDup_names_putAll, NoDup_names_put. }
    split.
    + intros [_ Hnot]. destruct (isOutputFile outputExt sanitized) eqn:E;
        [|reflexivity].
      exfalso. apply Hnot. apply outputFilesOf_in.
      split; [apply afterExec_lists_input | exact E].
    + intros E. split; [exact Hnd|]. intros Hin.
      apply outputFilesOf_in in Hin as [_ Hin]. congruence.
  - intros Hc. destruct (Hcb Hc) as [x ->].
    destruct Hout as (_ & _ & Hcalls & _). rewrite Hcalls. unfold issuedIn.
    rewrite map_app. reflexivity.
Qed.

Lemma run_succeeds_iff_nothing_rejects_witness :
  engineCalls
    (snd (Fixture.run (Fixture.quiet [("out_01.mp4", Fixture.seg 2);
                                      ("out_00.mp4", Fixture.seg 1)])
                      (Fixture.ready "clip.mp4" (Fixture.seg 7) 30)))
  = [WriteFile "clip.mp4";
     Exec ["-i"; "clip.mp4"; "-f"; "segment"; "-segment_time"; "30";
           "-c"; "copy"; "-reset_timestamps"; "1"; "-segment_format"; "mp4";
           "out_%02d.mp4"];
     ListDir "/"; ReadFile "out_00.mp4"; ReadFile "out_01.mp4";
     DeleteFile "out_00.mp4"; DeleteFile "out_01.mp4"; DeleteFile "clip.mp4"].
Proof.
  assert (Hacc : accepted (Fixture.ready "clip.mp4" (Fixture.seg 7) 30)
                          (mkFile "clip.mp4" (Fixture.seg 7)))
    by (repeat split).
  assert (Hrun :
            handleProcess (FileUtils.sanitize "file") FileUtils.extensionOf
              codeUnitCompare
              (Fixture.quiet [("out_01.mp4", Fixture.seg 2);
                              ("out_00.mp4", Fixture.seg 1)])
              (Fixture.ready "clip.mp4" (Fixture.seg 7) 30)
            = (Normal Succeeded,
               snd (Fixture.run (Fixture.quiet [("out_01.mp4", Fixture.seg 2);
                                                ("out_00.mp4", Fixture.seg 1)])
                                (Fixture.ready "clip.mp4" (Fixture.seg 7) 30))))
    by (vm_compute; reflexivity).
  destruct (run_succeeds_iff_nothing_rejects _ _ _ _ _ _ _ _ Hacc Hrun)
    as (_ & _ & Hcalls).
  rewrite (Hcalls eq_refl). vm_compute. reflexivity.
Defined.

(** An input whose sanitized name qualifies as an output: the archive is
    delivered with the input as one of its entries, and the run then fails
    at line 155, which asks for an entry that line 153 has deleted. *)
Example input_named_as_an_output :
  let r := Fixture.run (Fixture.quiet [("out_00.mp4", Fixture.seg 1)])
                       (Fixture.ready "out_clip.mp4" (Fixture.seg 7) 30) in
  fst r = Normal Failed /\
  error (snd r) = "Error processing file: FS error" /\
  downloads (snd r)
  = [("out_clip_segments.zip",
      [("out_clip_segment_01.mp4", Fixture.seg 1);
       ("out_clip_segment_02.mp4", Fixture.seg 7)])].
Proof. vm_compute. repeat split. Qed.

(** X7.  What the component shows when a run that passed the precondition
    checks has settled.  After [Succeeded]: no error, the status
    [Success! Created N segments. Download started.] with [N] the number of
    qualifying outputs, so that the status alert is rendered, progress 100,
    and exactly one reset scheduled.  After [Failed]: a non-empty error, an
    empty status, so that no status alert is rendered, and no reset
    scheduled. *)
Theorem run_display_when_settled
        (sanitizeFilename getFileExtension : string -> string)
        (localeCompare : string -> string -> comparison)
        (env : Env) (w : World) (f : File) (c : Completion Exit) (w' : World) :
  accepted w f ->
  handleProcess sanitizeFilename getFileExtension localeCompare env w = (c, w') ->
  let sanitized := sanitizeFilename (fileName f) in
  let outputExt := outputExtOf getFileExtension sanitized in
  let N := List.length
             (filter (isOutputFile outputExt)
                     (Engine.names (afterExec env sanitized f (vfs w)))) in
  (c = Normal Succeeded ->
   error w' = "" /\
   status w' = "Success! Created " ++ JsString.ofNat N
               ++ " segments. Download started." /\
   statusShown w' = true /\
   progress w' = 100%Q /\
   resetTimers w' = S (resetTimers w)) /\
  (c = Normal Failed ->
   error w' <> "" /\ status w' = "" /\ statusShown w' = false /\
   resetTimers w' = resetTimers w).
Proof.
  intros Hacc Hrun sanitized outputExt N.
  destruct (handleProcess_calls _ _ _ _ _ _ _ _ Hacc Hrun)
    as (s & k & cb & _ & _ & Hout).
  destruct (handleProcess_run _ _ _ _ _ _ _ _ Hacc Hrun)
    as (s2 & cb2 & _ & _ & _ & _ & _ & Hout2).
  fold sanitized outputExt in Hout, Hout2.
  rewrite outputFilesOf_length in Hout. fold N in Hout.
  split.
  - intros ->. destruct cb as [x|err].
    + destruct Hout as (_ & _ & _ & Ht & Hp & He & Hst & _).
      repeat split; try assumption.
      unfold statusShown. rewrite He, Hst. reflexivity.
    + destruct Hout as (_ & _ & Hout).
      destruct (Js.describeWith _ _ _ err); destruct Hout as [Hc _]; discriminate.
  - intros ->. destruct cb as [x|err]; [destruct Hout; discriminate|].
    destruct Hout as (_ & Ht & Hout).
    destruct (Js.describeWith "err" "Error processing file: " "Unknown error occurred" err)
      as [shown|e] eqn:Ed; [|destruct Hout; discriminate].
    destruct Hout as (_ & He & _).
    assert (Hne : shown <> "").
    { pose proof (describeWith_cases "err" "Error processing file: "
                                     "Unknown error occurred" err) as Hc.
      destruct (describable err).
      - destruct Hc as [t Ht']. rewrite Ht' in Ed. injection Ed as <-. discriminate.
      - destruct Hc as [e' He']. congruence. }
    assert (Hst : status w' = "").
    { destruct cb2 as [x|err2]; [destruct Hout2; discriminate|].
      destruct (Js.describeWith _ _ _ err2); [|discriminate].
      now destruct Hout2 as (_ & _ & Hst & _). }
    rewrite He. repeat split; try assumption.
    unfold statusShown. now rewrite Hst.
Qed.

Lemma run_display_when_settled_witness :
  status
    (snd (Fixture.run (Fixture.quiet [("out_00.mp4", Fixture.seg 1);
                                      ("out_01.mp4", Fixture.seg 2)])
                      (Fixture.ready "clip.mp4" (Fixture.seg 7) 30)))
  = "Success! Created 2 segments. Download started.".
Proof.
  assert (Hacc : accepted (Fixture.ready "clip.mp4" (Fixture.seg 7) 30)
                          (mkFile "clip.mp4" (Fixture.seg 7)))
    by (repeat split).
  assert (Hrun :
            handleProcess (FileUtils.sanitize "file") FileUtils.extensionOf
              codeUnitCompare
              (Fixture.quiet [("out_00.mp4", Fixture.seg 1);
                              ("out_01.mp4", Fixture.seg 2)])
              (Fixture.ready "clip.mp4" (Fixture.seg 7) 30)
            = (Normal Succeeded,
               snd (Fixture.run (Fixture.quiet [("out_00.mp4", Fixture.seg 1);
                                                ("out_01.mp4", Fixture.seg 2)])
                                (Fixture.ready "clip.mp4" (Fixture.seg 7) 30))))
    by (vm_compute; reflexivity).
  destruct (run_display_when_settled _ _ _ _ _ _ _ _ Hacc Hrun) as [Hs _].
  destruct (Hs eq_refl) as (_ & Hst & _). rewrite Hst. vm_compute. reflexivity.
Defined.

(* ===================================================================== *)
(** * Selecting a file *)
(* ===================================================================== *)

Section Selecting.

Variable isSupportedMediaFile : Picked -> bool.

(** A pick passes the two checks of lines 34 and 41. *)
Lemma handleFileSelect_run (selected : option Picked) (w : World) :
  handleFileSelect isSupportedMediaFile selected w
  = (Normal tt,
     match selected with
     | None => w
     | Some p =>
         if negb (isSupportedMediaFile p) then
           setError "Unsupported file format. Please select a media file (mp4, mp3, mov, wav, etc.)"
                    (setError "" w)
         else if (maxSize <? pickedSize p)%Z then
           setError "File size too large. Maximum size is 500MB for browser processing."
                    (setError "" w)
         else setStatus "File selected. Ready to process."
                        (setFile (Some (pickedFile p)) (setError "" w))
     end).
Proof.
  destruct selected as [p|]; [|reflexivity].
  unfold handleFileSelect, bind, act, ret.
  destruct (negb (isSupportedMediaFile p)); [reflexivity|].
  destruct (maxSize <? pickedSize p)%Z; reflexivity.
Qed.

End Selecting.

(** X8.  A pick replaces the selection exactly when the file is supported
    and its size is at most 524288000 bytes (500 MB, the bound included);
    the error is then cleared and the status announces the selection.
    Otherwise the previous selection and status stay and a non-empty error
    is shown.  An event without a file changes nothing.  In every case the
    engine, the segment length and the processing flag are left alone. *)
Theorem file_select_outcome
        (isSupportedMediaFile : Picked -> bool)
        (selected : option Picked) (w : World) :
  let r := handleFileSelect isSupportedMediaFile selected w in
  let w' := snd r in
  fst r = Normal tt /\
  match selected with
  | None => w' = w
  | Some p =>
      if isSupportedMediaFile p && (pickedSize p <=? 524288000)%Z
      then file w' = Some (pickedFile p) /\ error w' = "" /\
           status w' = "File selected. Ready to process."
      else file w' = file w /\ status w' = status w /\ error w' <> ""
  end /\
  vfs w' = vfs w /\ engineCalls w' = engineCalls w /\
  segmentLength w' = segmentLength w /\ isProcessing w' = isProcessing w /\
  progressLog w' = progressLog w /\ downloads w' = downloads w.
Proof.
  intros r w'. subst r w'. rewrite handleFileSelect_run. simpl.
  split; [reflexivity|].
  destruct selected as [p|]; [|now repeat split].
  destruct (isSupportedMediaFile p); simpl; [|repeat split; discriminate].
  change maxSize with 524288000%Z.
  rewrite Z.ltb_antisym.
  destruct (pickedSize p <=? 524288000)%Z; simpl; repeat split; discriminate.
Qed.

(* ===================================================================== *)
(** * The component over time *)
(* ===================================================================== *)

Lemma fireResetTimer_run (w : World) :
  fireResetTimer w
  = (Normal tt,
     match resetTimers w with
     | O => w
     | S _ => setStatus "" (setProgress 0 (setFile None (dropResetTimer w)))
     end).
Proof. unfold fireResetTimer. destruct (resetTimers w); reflexivity. Qed.

Section ComponentFacts.

Variable isSupportedMediaFile : Picked -> bool.
Variable sanitizeFilename : string -> string.
Variable getFileExtension : string -> string.
Variable localeCompare : string -> string -> comparison.

Lemma settled_more (events : list Event) (e : Event) (w : World) :
  settled isSupportedMediaFile events w -> settled isSupportedMediaFile (events ++ [e]) w.
Proof.
  intros (Hl & Hp & Hf). split; [exact Hl|]. split; [exact Hp|].
  intros f Hfile. destruct (Hf f Hfile) as (p & Hin & Hrest).
  exists p. split; [apply in_or_app; now left | exact Hrest].
Qed.

Lemma settled_react (events : list Event) (e : Event) (w : World) :
  settled isSupportedMediaFile events w ->
  settled isSupportedMediaFile (events ++ [e])
          (react isSupportedMediaFile sanitizeFilename getFileExtension
                 localeCompare e w).
Proof.
  intros Hs. pose proof (settled_more events e w Hs) as Hs'.
  destruct Hs as (Hl & Hp & Hf). destruct e as [sel|v|env|]; simpl.
  - rewrite handleFileSelect_run. simpl.
    destruct sel as [p|]; [|exact Hs'].
    destruct (isSupportedMediaFile p) eqn:Esup; simpl;
      [|destruct Hs' as (? & ? & ?); now repeat split].
    destruct (Z.ltb_spec maxSize (pickedSize p));
      [destruct Hs' as (? & ? & ?); now repeat split|].
    split; [exact Hl|]. split; [exact Hp|].
    intros f [= <-]. exists p. split; [apply in_or_app; right; now left|].
    repeat split; [exact Esup | exact H].
  - split; [apply segmentLengthOf_nonzero|]. split; [exact Hp|].
    destruct Hs' as (_ & _ & Hf'). exact Hf'.
  - destruct (processDisabled w); [exact Hs'|].
    destruct (handleProcess sanitizeFilename getFileExtension localeCompare env w)
      as [c w'] eqn:Hrun.
    destruct (handleProcess_settles_idle _ _ _ _ _ _ _ Hp Hrun)
      as ((Hfile & Hlen & _) & Hidle).
    simpl. split; [now rewrite Hlen|]. split; [exact Hidle|].
    rewrite Hfile. now destruct Hs' as (_ & _ & Hf').
  - rewrite fireResetTimer_run. simpl.
    destruct (resetTimers w); [exact Hs'|].
    split; [exact Hl|]. split; [exact Hp|]. intros f [=].
Qed.

Lemma settled_reactAll (events : list Event) (w : World) :
  settled isSupportedMediaFile [] w ->
  settled isSupportedMediaFile events
          (reactAll isSupportedMediaFile sanitizeFilename getFileExtension
                    localeCompare events w).
Proof.
  intros H0. induction events as [|e events IH] using rev_ind; [exact H0|].
  unfold reactAll in *. rewrite fold_left_app. simpl. now apply settled_react.
Qed.

End ComponentFacts.

(** X9.  Whatever the user does after the component is mounted (picking
    files, typing segment lengths, clicking the button, with runs that
    succeed, fail or end in a rejected promise) and whenever the reset timer
    fires: the stored segment length is never 0, the processing flag is off
    between events, and a selected file is always one that was picked, is
    supported and is at most 524288000 bytes long. *)
Theorem component_invariants
        (isSupportedMediaFile : Picked -> bool)
        (sanitizeFilename getFileExtension : string -> string)
        (localeCompare : string -> string -> comparison)
        (events : list Event) (loaded handle : bool) (fs : Vfs) :
  let w := reactAll isSupportedMediaFile sanitizeFilename getFileExtension
                    localeCompare events (mounted loaded handle fs) in
  segmentLength w <> Finite 0 /\
  isProcessing w = false /\
  forall f, file w = Some f ->
            exists p, In (PickFile (Some p)) events /\ pickedFile p = f /\
                      isSupportedMediaFile p = true /\
                      (pickedSize p <= 524288000)%Z.
Proof.
  apply settled_reactAll. split; [discriminate|]. split; [reflexivity|].
  intros f [=].
Qed.

(** X10.  The reset scheduled by a successful run clears whatever is selected
    when it fires: if the user picks another acceptable file before the
    timer fires, that selection is lost too; status and progress are cleared,
    the button is disabled, and a run requested then returns from the first
    precondition check. *)
Theorem reset_clears_a_later_selection
        (isSupportedMediaFile : Picked -> bool)
        (sanitizeFilename getFileExtension : string -> string)
        (localeCompare : string -> string -> comparison)
        (env env' : Env) (w : World) (f : File) (w1 : World) (p : Picked) :
  accepted w f ->
  handleProcess sanitizeFilename getFileExtension localeCompare env w
    = (Normal Succeeded, w1) ->
  isSupportedMediaFile p = true ->
  (pickedSize p <= 524288000)%Z ->
  let w2 := snd (handleFileSelect isSupportedMediaFile (Some p) w1) in
  let w3 := snd (fireResetTimer w2) in
  file w2 = Some (pickedFile p) /\
  file w3 = None /\ status w3 = "" /\ progress w3 = 0%Q /\
  resetTimers w3 = resetTimers w /\
  processDisabled w3 = true /\
  handleProcess sanitizeFilename getFileExtension localeCompare env' w3
  = (Normal Rejected,
     setError "Please select a file and wait for FFmpeg to load." w3).
Proof.
  intros Hacc Hrun Hsup Hsize w2 w3.
  destruct (handleProcess_calls _ _ _ _ _ _ _ _ Hacc Hrun)
    as (s & k & cb & _ & _ & Hout).
  assert (Ht : resetTimers w1 = S (resetTimers w)).
  { destruct cb as [x|err]; [now destruct Hout as (_ & _ & _ & Ht & _)|].
    destruct Hout as (_ & _ & Hout).
    destruct (Js.describeWith _ _ _ err); destruct Hout as [Hc _]; discriminate. }
  assert (E2 : w2 = setStatus "File selected. Ready to process."
                              (setFile (Some (pickedFile p)) (setError "" w1))).
  { subst w2. rewrite handleFileSelect_run. simpl. rewrite Hsup. simpl.
    change maxSize with 524288000%Z.
    destruct (Z.ltb_spec 524288000 (pickedSize p)); [lia | reflexivity]. }
  assert (E3 : w3 = setStatus "" (setProgress 0 (setFile None (dropResetTimer w2)))).
  { subst w3. rewrite fireResetTimer_run. simpl. rewrite E2. simpl.
    now rewrite Ht. }
  split; [now rewrite E2|].
  assert (Hfile : file w3 = None) by now rewrite E3.
  split; [exact Hfile|].
  split; [now rewrite E3|].
  split; [now rewrite E3|].
  split; [rewrite E3, E2; simpl; now rewrite Ht|].
  split; [unfold processDisabled; now rewrite Hfile|].
  unfold handleProcess. now rewrite Hfile.
Qed.

Lemma reset_clears_a_later_selection_witness :
  file
    (snd (fireResetTimer
            (snd (handleFileSelect
                    (fun _ => true)
                    (Some (mkPicked (mkFile "next.mp3" (Fixture.seg 5)) "audio/mpeg" 1))
                    (snd (Fixture.run
                            (Fixture.quiet [("out_00.mp4", Fixture.seg 1)])
                            (Fixture.ready "clip.mp4" (Fixture.seg 7) 30)))))))
  = None.
Proof.
  assert (Hacc : accepted (Fixture.ready "clip.mp4" (Fixture.seg 7) 30)
                          (mkFile "clip.mp4" (Fixture.seg 7)))
    by (repeat split).
  assert (Hrun :
            handleProcess (FileUtils.sanitize "file") FileUtils.extensionOf
              codeUnitCompare
              (Fixture.quiet [("out_00.mp4", Fixture.seg 1)])
              (Fixture.ready "clip.mp4" (Fixture.seg 7) 30)
            = (Normal Succeeded,
               snd (Fixture.run (Fixture.quiet [("out_00.mp4", Fixture.seg 1)])
                                (Fixture.ready "clip.mp4" (Fixture.seg 7) 30))))
    by (vm_compute; reflexivity).
  assert (Hsize : (pickedSize (mkPicked (mkFile "next.mp3" (Fixture.seg 5))
                                        "audio/mpeg" 1) <= 524288000)%Z)
    by (simpl; lia).
  exact (proj1 (proj2 (reset_clears_a_later_selection
                         (fun _ => true) _ _ _ _ (Fixture.quiet []) _ _ _
                         (mkPicked (mkFile "next.mp3" (Fixture.seg 5)) "audio/mpeg" 1)
                         Hacc Hrun eq_refl Hsize))).
Defined.

(* ===================================================================== *)
(** * Progress as displayed *)
(* ===================================================================== *)

Lemma roundedProgress_mono (x y : Q) :
  (x <= y)%Q -> (roundedProgress x <= roundedProgress y)%Z.
Proof.
  intros H. unfold roundedProgress. apply Qfloor_resp_le.
  now apply Qplus_le_l.
Qed.

Lemma roundedProgress_bounds (q : Q) :
  (0 <= q)%Q /\ (q <= 100)%Q ->
  (0 <= roundedProgress q <= 100)%Z.
Proof.
  intros [Hlo Hhi]. split.
  - change 0%Z with (roundedProgress 0). now apply roundedProgress_mono.
  - change 100%Z with (roundedProgress 100). now apply roundedProgress_mono.
Qed.

Lemma emitted_bounds (total : nat) (s : Stage) :
  (forall j, s = Archiving j -> j <= total) ->
  Forall (fun q => (0 <= q)%Q /\ (q <= 100)%Q) (0%Q :: emittedIn total s).
Proof.
  intros Hj.
  assert (Hv : forall j, j <= total ->
                         Forall (fun q => (0 <= q)%Q /\ (q <= 100)%Q)
                                (archivingValues total j)).
  { intros j Hle. apply Forall_forall. intros y Hy.
    destruct (archivingValues_bounds total j y Hy) as [Hlo Hhi]. split.
    - apply Qle_trans with 70%Q; [discriminate | exact Hlo].
    - apply Qle_trans with 90%Q; [now apply Hhi | discriminate]. }
  assert (Hc : forall q, In q [0%Q; 10%Q; 60%Q; 70%Q; 95%Q; 100%Q] ->
                         (0 <= q)%Q /\ (q <= 100)%Q).
  { intros q Hq. simpl in Hq.
    repeat (destruct Hq as [<-|Hq]; [split; discriminate|]). destruct Hq. }
  constructor; [apply Hc; simpl; auto|].
  destruct s; unfold emittedIn;
    rewrite ?Forall_app; repeat split;
    try (apply Hv; auto; fail);
    try (apply Forall_forall; intros q Hq; apply Hc; simpl in *; tauto).
Qed.

Lemma StronglySorted_map_mono {A B} (RA : A -> A -> Prop) (RB : B -> B -> Prop)
      (g : A -> B) (l : list A) :
  (forall x y, RA x y -> RB (g x) (g y)) ->
  StronglySorted RA l -> StronglySorted RB (map g l).
Proof.
  intros Hg. induction 1 as [|x l Hs IH Hx]; simpl; constructor; [exact IH|].
  apply Forall_forall. intros y Hy. apply in_map_iff in Hy as (a & <- & Ha).
  rewrite Forall_forall in Hx. now apply Hg, Hx.
Qed.

(** X11.  The progress values that a run itself sets, computed in doubles,
    lie between 0 and 100, and the percentages [Math.round] makes of them
    form a non-decreasing sequence of integers between 0 and 100, which
    ends at 100 when the run succeeds.  This is about the run's own
    [setProgress] calls only: a successful run leaves a reset pending, and
    when that one fires the progress goes from 100 back to 0, whatever is
    going on then. *)
Theorem run_progress_is_a_percentage
        (sanitizeFilename getFileExtension : string -> string)
        (localeCompare : string -> string -> comparison)
        (env : Env) (w : World) (f : File) (c : Completion Exit) (w' : World) :
  accepted w f ->
  handleProcess sanitizeFilename getFileExtension localeCompare env w = (c, w') ->
  exists emitted,
    progressLog w' = (progressLog w ++ emitted)%list /\
    Forall (fun q => (0 <= q)%Q /\ (q <= 100)%Q) emitted /\
    StronglySorted Z.le (map roundedProgress emitted) /\
    Forall (fun z => (0 <= z <= 100)%Z) (map roundedProgress emitted) /\
    (c = Normal Succeeded ->
     roundedProgress (progress w') = 100%Z /\
     resetTimers w' = S (resetTimers w) /\
     roundedProgress (progress (snd (fireResetTimer w'))) = 0%Z).
Proof.
  intros Hacc Hrun.
  destruct (handleProcess_run _ _ _ _ _ _ _ _ Hacc Hrun)
    as (s & cb & _ & Hs & Hp & _ & _ & _).
  destruct (handleProcess_calls _ _ _ _ _ _ _ _ Hacc Hrun)
    as (s2 & k & cb2 & _ & _ & Hout).
  eexists. split; [exact Hp|].
  assert (Hb : Forall (fun q => (0 <= q)%Q /\ (q <= 100)%Q)
                      (0%Q :: emittedIn
                                (List.length
                                   (outputFilesOf localeCompare
                                      (outputExtOf getFileExtension
                                         (sanitizeFilename (fileName f)))
                                      (Engine.names
                                         (afterExec env
                                            (sanitizeFilename (fileName f)) f
                                            (vfs w))))) s)).
  { apply emitted_bounds. intros j ->. simpl in Hs.
    destruct Hs as (e & o & _ & Hn & _).
    apply Nat.lt_le_incl, nth_error_Some. congruence. }
  split; [exact Hb|]. split; [|split].
  - apply (StronglySorted_map_mono Qle Z.le);
      [apply roundedProgress_mono | apply emitted_sorted].
  - apply Forall_forall. intros z Hz. apply in_map_iff in Hz as (q & <- & Hq).
    rewrite Forall_forall in Hb. now apply roundedProgress_bounds, Hb.
  - intros ->. destruct cb2 as [x|err].
    + destruct Hout as (_ & _ & _ & Ht & -> & _).
      split; [reflexivity|]. split; [exact Ht|].
      rewrite fireResetTimer_run, Ht. reflexivity.
    + destruct Hout as (_ & _ & Hout).
      destruct (Js.describeWith _ _ _ err); destruct Hout as [Hc _]; discriminate.
Qed.

Lemma run_progress_is_a_percentage_witness :
  exists emitted,
    progressLog
      (snd (Fixture.run (Fixture.quiet [("out_00.mp4", Fixture.seg 1);
                                        ("out_01.mp4", Fixture.seg 2);
                                        ("out_02.mp4", Fixture.seg 3)])
                        (Fixture.ready "clip.mp4" (Fixture.seg 7) 30)))
    = emitted /\
    map roundedProgress emitted = [0; 10; 60; 70; 77; 83; 90; 95; 100]%Z.
Proof.
  assert (Hacc : accepted (Fixture.ready "clip.mp4" (Fixture.seg 7) 30)
                          (mkFile "clip.mp4" (Fixture.seg 7)))
    by (repeat split).
  assert (Hrun :
            handleProcess (FileUtils.sanitize "file") FileUtils.extensionOf
              codeUnitCompare
              (Fixture.quiet [("out_00.mp4", Fixture.seg 1);
                              ("out_01.mp4", Fixture.seg 2);
                              ("out_02.mp4", Fixture.seg 3)])
              (Fixture.ready "clip.mp4" (Fixture.seg 7) 30)
            = (Normal Succeeded,
               snd (Fixture.run (Fixture.quiet [("out_00.mp4", Fixture.seg 1);
                                                ("out_01.mp4", Fixture.seg 2);
                                                ("out_02.mp4", Fixture.seg 3)])
                                (Fixture.ready "clip.mp4" (Fixture.seg 7) 30))))
    by (vm_compute; reflexivity).
  destruct (run_progress_is_a_percentage _ _ _ _ _ _ _ _ Hacc Hrun)
    as (emitted & Hp & _).
  exists emitted. split; [exact Hp|].
  vm_compute in Hp. rewrite <- Hp. vm_compute. reflexivity.
Defined.

(* ===================================================================== *)
(** * The listing: filter and sort *)
(* ===================================================================== *)

Lemma prefix_app (p s : string) :
  JsString.startsWith p s = true <-> exists r, s = p ++ r.
Proof.
  unfold JsString.startsWith. revert s.
  induction p as [|c p IH]; intros s.
  - split; [intros _; now exists s | intros _; now destruct s].
  - destruct s as [|d s]; simpl;
      [split; [discriminate | intros [r Hr]; discriminate]|].
    destruct (ascii_dec c d) as [->|Hne].
    + rewrite IH. split; intros [r Hr]; exists r; simpl in *; congruence.
    + split; [discriminate | intros [r Hr]; simpl in Hr; congruence].
Qed.

Lemma substring_whole (s : string) : String.substring 0 (String.length s) s = s.
Proof. induction s as [|c s IH]; simpl; [reflexivity | now rewrite IH]. Qed.

Lemma substring_skip (q p : string) (n : nat) :
  String.substring (String.length q) n (q ++ p) = String.substring 0 n p.
Proof. induction q as [|c q IH]; simpl; [reflexivity | exact IH]. Qed.

Lemma substring_split (n : nat) :
  forall s, n <= String.length s ->
            s = String.substring 0 n s
                ++ String.substring n (String.length s - n) s.
Proof.
  induction n as [|n IH]; intros s Hn.
  - rewrite Nat.sub_0_r, substring_whole. now destruct s.
  - destruct s as [|c s]; simpl in *; [lia|].
    f_equal. apply IH. lia.
Qed.

Lemma suffix_app (p s : string) :
  JsString.endsWith p s = true <-> exists q, s = q ++ p.
Proof.
  unfold JsString.endsWith. rewrite andb_true_iff, Nat.leb_le, String.eqb_eq.
  split.
  - intros [Hle Hs].
    exists (String.substring 0 (String.length s - String.length p) s).
    pose proof (substring_split (String.length s - String.length p) s
                                ltac:(lia)) as H.
    replace (String.length s - (String.length s - String.length p))
      with (String.length p) in H by lia.
    now rewrite Hs in H.
  - intros [q ->]. rewrite length_append. split; [lia|].
    replace (String.length q + String.length p - String.length p)
      with (String.length q) by lia.
    now rewrite substring_skip, substring_whole.
Qed.

Lemma append_assoc (a b c : string) : (a ++ b) ++ c = a ++ (b ++ c).
Proof. induction a as [|x a IH]; simpl; [reflexivity | now rewrite IH]. Qed.

(** X12.  The filter of line 115 keeps exactly the names of the form
    [out_] + anything + [.] + extension: the prefix and the suffix never
    overlap, so the shortest name kept is [out_.] + extension. *)
Theorem output_filter_shape (outputExt name : string) :
  isOutputFile outputExt name = true <->
  exists middle, name = "out_" ++ middle ++ "." ++ outputExt.
Proof.
  unfold isOutputFile. rewrite andb_true_iff, prefix_app, suffix_app. split.
  - intros [[r Hr] [q Hq]].
    assert (E : (JsString.chars "out_" ++ JsString.chars r
                 = JsString.chars q ++ "."%char :: JsString.chars outputExt)%list).
    { rewrite <- chars_append, <- Hr, Hq, chars_append. reflexivity. }
    apply app_eq_app in E as (l & [[Ho Hs]|[Hq' Hr']]).
    + destruct l as [|x l].
      * exists "". rewrite Hr. f_equal. apply chars_inj. simpl in Hs.
        rewrite <- Hs. reflexivity.
      * exfalso. simpl in Hs. injection Hs as <- _.
        assert (Hin : In "."%char (JsString.chars "out_")).
        { rewrite Ho. apply in_or_app. right. now left. }
        simpl in Hin. repeat (destruct Hin as [Hin|Hin]; [discriminate|]).
        exact Hin.
    + exists (JsString.ofChars l). rewrite Hr. f_equal. apply chars_inj.
      now rewrite Hr', chars_append, chars_ofChars.
  - intros [middle ->]. split.
    + now exists (middle ++ "." ++ outputExt).
    + exists ("out_" ++ middle). now rewrite append_assoc.
Qed.

(** X13.  The outputs the archive is built from are the qualifying names of
    the listing, each as many times as listed, rearranged so that no name is
    followed by one the comparator puts before it; this needs of
    [localeCompare] only that it never puts each of two names after the
    other. *)
Theorem outputs_are_the_sorted_listing
        (localeCompare : string -> string -> comparison)
        (outputExt : string) (files : list string) :
  (forall a b, localeCompare a b = Gt -> localeCompare b a <> Gt) ->
  Permutation (filter (isOutputFile outputExt) files)
              (outputFilesOf localeCompare outputExt files) /\
  Sorted (fun a b => localeCompare a b <> Gt)
         (outputFilesOf localeCompare outputExt files).
Proof.
  intros Hanti. unfold outputFilesOf. split.
  - apply sortByName_perm.
  - now apply sortByName_sorted.
Qed.

Lemma outputs_are_the_sorted_listing_witness :
  Sorted (fun a b => codeUnitCompare a b <> Gt)
         (outputFilesOf codeUnitCompare "mp4"
                        ["out_02.mp4"; "clip.mp4"; "out_00.mp4"; "out_01.mp4"]).
Proof.
  refine (proj2 (outputs_are_the_sorted_listing codeUnitCompare "mp4" _ _)).
  intros a b H. unfold codeUnitCompare in *.
  rewrite String.compare_antisym, H. discriminate.
Defined.

(* ===================================================================== *)
(** * Order of the archive's entries *)
(* ===================================================================== *)

Lemma ascii_compare_refl (c : ascii) : Ascii.compare c c = Eq.
Proof. unfold Ascii.compare. apply N.compare_refl. Qed.

Lemma compare_common_prefix (p a b : string) :
  String.compare (p ++ a) (p ++ b) = String.compare a b.
Proof.
  induction p as [|c p IH]; simpl; [reflexivity|].
  now rewrite ascii_compare_refl.
Qed.

Lemma compare_same_length (a b s t : string) :
  String.length a = String.length b ->
  String.compare a b = Lt ->
  String.compare (a ++ s) (b ++ t) = Lt.
Proof.
  revert b. induction a as [|c a IH]; intros [|d b] Hlen Hc; simpl in *;
    try discriminate.
  destruct (Ascii.compare c d); try discriminate; [|reflexivity].
  apply IH; [lia | exact Hc].
Qed.

Lemma segmentNumber_order (i k : nat) :
  i < k -> k + 1 <= 99 ->
  String.compare (segmentNumber i) (segmentNumber k) = Lt.
Proof.
  intros Hik Hk.
  assert (Hall :
            forallb (fun k =>
                       forallb (fun i =>
                                  match String.compare (segmentNumber i)
                                                       (segmentNumber k) with
                                  | Lt => true
                                  | _ => false
                                  end) (seq 0 k)) (seq 0 99) = true)
    by (vm_compute; reflexivity).
  rewrite forallb_forall in Hall.
  assert (Hk' : In k (seq 0 99)) by (apply in_seq; lia).
  specialize (Hall k Hk'). rewrite forallb_forall in Hall.
  assert (Hi' : In i (seq 0 k)) by (apply in_seq; lia).
  specialize (Hall i Hi').
  destruct (String.compare (segmentNumber i) (segmentNumber k));
    [discriminate | reflexivity | discriminate].
Qed.

(** X14.  Up to 99 segments the entries of the archive sort, by name in
    code-unit order, in the order of their numbers, which is what the
    padding of line 131 is for; the bound cannot be raised, since the
    hundredth entry sorts before the eleventh. *)
Theorem archive_names_sort_by_number (baseName outputExt : string) (i k : nat) :
  (i < k -> k + 1 <= 99 ->
   codeUnitCompare (zipFileName baseName outputExt i)
                   (zipFileName baseName outputExt k) = Lt) /\
  codeUnitCompare (zipFileName baseName outputExt 99)
                  (zipFileName baseName outputExt 10) = Lt.
Proof.
  unfold codeUnitCompare, zipFileName. split.
  - intros Hik Hk.
    rewrite !compare_common_prefix.
    apply compare_same_length.
    + rewrite !segmentNumber_two_digits; [reflexivity | lia | lia].
    + now apply segmentNumber_order.
  - rewrite !compare_common_prefix. reflexivity.
Qed.

(* ===================================================================== *)
(** * The base name *)
(* ===================================================================== *)

Lemma append_empty_r (s : string) : s ++ "" = s.
Proof. induction s as [|c s IH]; simpl; [reflexivity | now rewrite IH]. Qed.

Lemma substring_prefix (p r : string) :
  String.substring 0 (String.length p) (p ++ r) = p.
Proof.
  induction p as [|c p IH]; simpl; [now destruct r | now rewrite IH].
Qed.

Lemma baseNameOf_split (pre ext : string) :
  ~ In "."%char (JsString.chars ext) ->
  baseNameOf (pre ++ "." ++ ext)
  = if JsString.nonEmpty pre then pre else pre ++ "." ++ ext.
Proof.
  intros Hn. unfold baseNameOf, JsString.lastIndexOf, JsString.substring0.
  rewrite chars_append.
  change (JsString.chars ("." ++ ext)) with ("."%char :: JsString.chars ext).
  rewrite lastIndexFrom_split by assumption.
  rewrite Z.add_0_l, Nat2Z.id, length_chars, substring_prefix.
  reflexivity.
Qed.

Lemma baseNameOf_no_dot (s : string) :
  ~ In "."%char (JsString.chars s) -> baseNameOf s = s.
Proof.
  intros Hn. unfold baseNameOf, JsString.lastIndexOf, JsString.substring0.
  rewrite lastIndexFrom_none by assumption.
  change (Z.to_nat (-1)) with 0.
  now destruct s.
Qed.

(** X15.  The base name the archive and its entries are named after is the
    sanitized name up to its last dot; when that leaves nothing, because
    the name has no dot or its only dot comes first, it is the whole name.
    So the base name is a prefix of the sanitized name, and empty only if
    that name is. *)
Theorem base_name_is_the_name_without_its_extension (sanitized : string) :
  (forall pre ext,
      sanitized = pre ++ "." ++ ext ->
      ~ In "."%char (JsString.chars ext) ->
      baseNameOf sanitized = if JsString.nonEmpty pre then pre else sanitized) /\
  (~ In "."%char (JsString.chars sanitized) -> baseNameOf sanitized = sanitized) /\
  JsString.startsWith (baseNameOf sanitized) sanitized = true /\
  (baseNameOf sanitized = "" -> sanitized = "").
Proof.
  split; [|split].
  - intros pre ext -> Hn. now apply baseNameOf_split.
  - apply baseNameOf_no_dot.
  - destruct (in_dec ascii_dec "."%char (JsString.chars sanitized)) as [Hin|Hn].
    + destruct (last_dot_split _ _ Hin) as (pre & ext & E & Hn).
      assert (Es : sanitized
                   = JsString.ofChars pre ++ "." ++ JsString.ofChars ext).
      { apply chars_inj. rewrite chars_append.
        change (JsString.chars ("." ++ JsString.ofChars ext))
          with ("."%char :: JsString.chars (JsString.ofChars ext)).
        now rewrite !chars_ofChars. }
      rewrite Es, baseNameOf_split by now rewrite chars_ofChars.
      destruct (JsString.nonEmpty (JsString.ofChars pre)) eqn:Ep.
      * split; [apply prefix_app; now eexists|].
        intros H. apply nonEmpty_true in Ep. contradiction.
      * split; [apply prefix_app; exists ""; now rewrite append_empty_r|].
        intros H. apply (f_equal String.length) in H.
        rewrite length_append in H. simpl in H. lia.
    + rewrite baseNameOf_no_dot by assumption.
      split; [|auto]. apply prefix_app. exists "". now rewrite append_empty_r.
Qed.

(* ===================================================================== *)
(** * The build's base path *)
(* ===================================================================== *)

(** X16.  The two forms of the base path setting in [vite.config.js] agree
    on every environment.  The base path is never empty; it is the
    environment's [VITE_BASE_PATH] when that is set and not empty, whether
    or not it ends with a slash, and otherwise [/media-slicer/] in a
    production build and [/] in any other. *)
Theorem base_path_setting (e : ProcessEnv) :
  getBase e = baseOf e /\
  getBase e <> "" /\
  (forall p, VITE_BASE_PATH e = Some p -> p <> "" -> getBase e = p) /\
  (VITE_BASE_PATH e = None \/ VITE_BASE_PATH e = Some "" ->
   getBase e = if match NODE_ENV e with
                  | Some mode => String.eqb mode "production"
                  | None => false
                  end
               then "/media-slicer/" else "/").
Proof.
  destruct e as [[p|] mode]; unfold getBase, baseOf, JsString.orElse; simpl.
  - destruct (JsString.nonEmpty p) eqn:Ep.
    + split; [reflexivity|]. split; [now apply nonEmpty_true|].
      split; [intros q [= ->] _; reflexivity|].
      intros [H|[= ->]]; discriminate.
    + apply nonEmpty_false in Ep. subst p.
      split; [now destruct mode as [m|]; [destruct (String.eqb m "production")|]|].
      split; [destruct mode as [m|]; [destruct (String.eqb m "production")|];
              discriminate|].
      split; [intros q [= <-] H; now contradiction H|].
      intros _. now destruct mode as [m|]; [destruct (String.eqb m "production")|].
  - split; [now destruct mode as [m|]; [destruct (String.eqb m "production")|]|].
    split; [destruct mode as [m|]; [destruct (String.eqb m "production")|];
            discriminate|].
    split; [intros q H; discriminate H|].
    intros _. now destruct mode as [m|]; [destruct (String.eqb m "production")|].
Qed.

(* ===================================================================== *)
(** * Entries left by an earlier run *)
(* ===================================================================== *)

(** X17.  The listing of line 113 does not tell this run's outputs from
    older entries: a qualifying entry that was in the engine's filesystem
    before the run, and that the run does not overwrite, is numbered and
    archived with its old bytes by a run that succeeds, and deleted with the
    others. *)
Theorem leftover_outputs_are_archived
        (sanitizeFilename getFileExtension : string -> string)
        (localeCompare : string -> string -> comparison)
        (env : Env) (w : World) (f : File) (w' : World) (n : string) :
  accepted w f ->
  handleProcess sanitizeFilename getFileExtension localeCompare env w
    = (Normal Succeeded, w') ->
  In n (Engine.names (vfs w)) ->
  isOutputFile (outputExtOf getFileExtension (sanitizeFilename (fileName f))) n
    = true ->
  n <> sanitizeFilename (fileName f) ->
  existsb (String.eqb n) (map fst (execOutputs env)) = false ->
  exists zip i,
    downloads w'
    = (downloads w
       ++ [((baseNameOf (sanitizeFilename (fileName f)) ++ "_segments.zip")%string,
            zip)])%list /\
    nth_error zip i
    = Some (zipFileName (baseNameOf (sanitizeFilename (fileName f)))
                        (outputExtOf getFileExtension
                                     (sanitizeFilename (fileName f))) i,
            dataOf (vfs w) n) /\
    ~ In n (Engine.names (vfs w')).
Proof.
  intros Hacc Hrun Hin Hout Hne Hfresh.
  destruct (handleProcess_run _ _ _ _ _ _ _ _ Hacc Hrun)
    as (s & cb & _ & _ & _ & Hd & _ & Hcb).
  destruct cb as [x|err].
  - destruct Hcb as (_ & -> & Hleft).
    set (sanitized := sanitizeFilename (fileName f)) in *.
    set (outputExt := outputExtOf getFileExtension sanitized) in *.
    set (fs := afterExec env sanitized f (vfs w)) in *.
    assert (Hn : In n (outputFilesOf localeCompare outputExt (Engine.names fs))).
    { apply outputFilesOf_in. split; [|exact Hout].
      subst fs. unfold afterExec. now apply names_putAll_keeps, names_put_keeps. }
    destruct (In_nth_error _ _ Hn) as [i Hi].
    eexists. exists i. split; [exact Hd|]. split.
    + rewrite (archiveOf_bytes _ _ _ _ _ _ Hi). do 2 f_equal.
      unfold dataOf. subst fs. unfold afterExec.
      now rewrite get_putAll_other, get_put_other.
    + intros Hw'. now destruct (Hleft n Hw') as (_ & _ & Hno).
  - destruct (Js.describeWith _ _ _ err); [destruct Hcb as [Hc _]|]; discriminate.
Qed.

Lemma leftover_outputs_are_archived_witness :
  exists zip,
    downloads
      (snd (Fixture.run
              (Fixture.quiet [("out_00.mp4", Fixture.seg 1)])
              (withVfs (fun _ => [("out_07.mp4", Fixture.seg 9)])
                       (Fixture.ready "clip.mp4" (Fixture.seg 7) 30))))
    = [("clip_segments.zip", zip)] /\
    nth_error zip 1 = Some ("clip_segment_02.mp4", Fixture.seg 9).
Proof.
  assert (Hacc : accepted (withVfs (fun _ => [("out_07.mp4", Fixture.seg 9)])
                                   (Fixture.ready "clip.mp4" (Fixture.seg 7) 30))
                          (mkFile "clip.mp4" (Fixture.seg 7)))
    by (repeat split).
  assert (Hrun :
            handleProcess (FileUtils.sanitize "file") FileUtils.extensionOf
              codeUnitCompare
              (Fixture.quiet [("out_00.mp4", Fixture.seg 1)])
              (withVfs (fun _ => [("out_07.mp4", Fixture.seg 9)])
                       (Fixture.ready "clip.mp4" (Fixture.seg 7) 30))
            = (Normal Succeeded,
               snd (Fixture.run
                      (Fixture.quiet [("out_00.mp4", Fixture.seg 1)])
                      (withVfs (fun _ => [("out_07.mp4", Fixture.seg 9)])
                               (Fixture.ready "clip.mp4" (Fixture.seg 7) 30)))))
    by (vm_compute; reflexivity).
  assert (Hin : In "out_07.mp4"
                   (Engine.names
                      (vfs (withVfs (fun _ => [("out_07.mp4", Fixture.seg 9)])
                                    (Fixture.ready "clip.mp4" (Fixture.seg 7) 30)))))
    by (simpl; auto).
  assert (Hne : "out_07.mp4"
                <> FileUtils.sanitize "file"
                     (fileName (mkFile "clip.mp4" (Fixture.seg 7))))
    by (vm_compute; discriminate).
  destruct (leftover_outputs_are_archived
              _ _ _ _ _ _ _ "out_07.mp4" Hacc Hrun Hin eq_refl Hne eq_refl)
    as (zip & i & Hd & Hi & _).
  exists zip.
  vm_compute in Hd. injection Hd as <-. split; reflexivity.
Defined.
